(** * Disposable-email checker: DNS, SMTP and orchestration engines

    A shallow embedding of the TypeScript client ([smtp.ts],
    [dns-resolver.ts], [disposable-email-checker.ts]) and the properties
    its design document states about it.

    Conventions.
    - JavaScript strings are [string]; only the ASCII behaviour of
      [trim], [toLowerCase] and [parseInt] is modelled.
    - JavaScript numbers that the code only compares and adds are [Z];
      the result of [parseInt] is a [jsnum], which has [NaN].
    - [undefined]/[null] are [None].
    - Promises are modelled by their outcome; network peers are oracles
      (Section variables) that say what the peer answers.
    - The Node.js runtime is modelled where the client depends on it:
      the port check of [net.Socket.connect] and the callback protocol
      of [util.promisify]. *)

From Stdlib Require Import ZArith Ascii String List Bool Lia.
From stdpp Require Import base list strings gmap sorting pretty.

Local Open Scope Z_scope.

(** ** JavaScript built-ins used by the client *)

Module Js.

Inductive jsnum := NaN | Num (z : Z).

(** [a === b] on numbers: [NaN] is not equal to anything. *)
Definition strictEq (a : jsnum) (b : Z) : bool :=
  match a with
  | NaN => false
  | Num z => z =? b
  end.

Definition code (c : ascii) : Z := Z.of_nat (nat_of_ascii c).

(** White space removed by [String.prototype.trim] (ASCII part):
    TAB, LF, VT, FF, CR and SPACE. *)
Definition isWhiteSpace (c : ascii) : bool :=
  (code c =? 32) || ((9 <=? code c) && (code c <=? 13)).

Fixpoint trimStart (s : string) : string :=
  match s with
  | EmptyString => EmptyString
  | String c s' => if isWhiteSpace c then trimStart s' else s
  end.

Fixpoint trimEnd (s : string) : string :=
  match s with
  | EmptyString => EmptyString
  | String c s' =>
      match trimEnd s' with
      | EmptyString => if isWhiteSpace c then EmptyString else String c EmptyString
      | t => String c t
      end
  end.

Definition trim (s : string) : string := trimEnd (trimStart s).

Definition lowerChar (c : ascii) : ascii :=
  if (65 <=? code c) && (code c <=? 90)
  then ascii_of_nat (nat_of_ascii c + 32)
  else c.

Fixpoint toLowerCase (s : string) : string :=
  match s with
  | EmptyString => EmptyString
  | String c s' => String (lowerChar c) (toLowerCase s')
  end.

Fixpoint startsWith (s p : string) : bool :=
  match p, s with
  | EmptyString, _ => true
  | String _ _, EmptyString => false
  | String b p', String a s' => Ascii.eqb a b && startsWith s' p'
  end.

(** [s.includes(sub)] *)
Fixpoint includes (s sub : string) : bool :=
  startsWith s sub ||
  match s with
  | EmptyString => false
  | String _ s' => includes s' sub
  end.

(** [s.substring(0, n)] *)
Definition substring0 (n : nat) (s : string) : string := String.substring 0 n s.

(** Value of a digit in the given radix, as [parseInt] reads it. *)
Definition digitValue (radix : Z) (c : ascii) : option Z :=
  let n := code c in
  let v := if (48 <=? n) && (n <=? 57) then Some (n - 48)
           else if (97 <=? n) && (n <=? 122) then Some (n - 87)
           else if (65 <=? n) && (n <=? 90) then Some (n - 55)
           else None in
  match v with
  | Some d => if d <? radix then Some d else None
  | None => None
  end.

Fixpoint parseDigits (radix : Z) (acc : option Z) (s : string) : option Z :=
  match s with
  | EmptyString => acc
  | String c s' =>
      match digitValue radix c with
      | Some d =>
          parseDigits radix
            (Some (match acc with Some a => a * radix + d | None => d end)) s'
      | None => acc
      end
  end.

(** [parseInt(s)] without a radix argument: leading white space, an
    optional sign, an optional [0x]/[0X] prefix, then the longest run of
    digits; [NaN] when there is no digit. *)
Definition parseInt (s : string) : jsnum :=
  let s1 := trimStart s in
  let '(sign, s2) :=
    match s1 with
    | String "-"%char r => (-1, r)
    | String "+"%char r => (1, r)
    | _ => (1, s1)
    end in
  let '(radix, s3) :=
    match s2 with
    | String "0"%char (String x r) =>
        if Ascii.eqb x "x"%char || Ascii.eqb x "X"%char then (16, r) else (10, s2)
    | _ => (10, s2)
    end in
  match parseDigits radix None s3 with
  | Some v => Num (sign * v)
  | None => NaN
  end.

(** [s.split(sep)] for a one-character separator: never the empty list. *)
Fixpoint split (sep : ascii) (s : string) : list string :=
  match s with
  | EmptyString => [EmptyString]
  | String c s' =>
      if Ascii.eqb c sep then EmptyString :: split sep s'
      else match split sep s' with
           | h :: t => String c h :: t
           | [] => [String c EmptyString]
           end
  end.

(** [parts.join(sep)] *)
Fixpoint join (sep : ascii) (parts : list string) : string :=
  match parts with
  | [] => EmptyString
  | [p] => p
  | p :: rest => p +:+ String sep (join sep rest)
  end.

(** [!s] on a string that may be [undefined]. *)
Definition falsy (s : option string) : bool :=
  match s with
  | Some (String _ _) => false
  | _ => true
  end.

(** [a || b] on strings: the empty string is falsy. *)
Definition orElse (a : option string) (b : string) : string :=
  match a with
  | Some (String c s) => String c s
  | _ => b
  end.

(** First-occurrence de-duplication: [[...new Set(xs)]]. *)
Fixpoint dedupe (seen : list string) (xs : list string) : list string :=
  match xs with
  | [] => []
  | x :: r =>
      if bool_decide (x ∈ seen) then dedupe seen r
      else x :: dedupe (x :: seen) r
  end.

End Js.


(** ** SMTP deliverability engine ([smtp.ts]) *)

(** ** Shared types ([types.ts]) *)

Record MxRecord := { exchange : string; priority : Z }.

(** How a promise settles. *)
Inductive Settled (A : Type) :=
  | Fulfilled (value : A)
  | RejectedWith (message : string).
Arguments Fulfilled {A} value.
Arguments RejectedWith {A} message.

Module Smtp.
Import Js.

Record SmtpValidationConfig := {
  timeout : Z;
  port : Z;
  fromEmail : string;
  helo : string
}.

Definition defaultConfig : SmtpValidationConfig :=
  {| timeout := 10000; port := 25;
     fromEmail := "test@example.com"; helo := "mail.example.com" |}.

(** The internal [SmtpConnectionResult]; optional fields are options. *)
Record SmtpConnectionResult := {
  conn_isValid : bool;
  conn_isDeliverable : option bool;
  conn_mxRecord : option string;
  conn_responseCode : option jsnum;
  conn_responseMessage : option string;
  conn_error : option string
}.

Record SmtpValidationResult := {
  email : string;
  domain : string;
  isValid : bool;
  isMailboxValid : bool;
  mxRecord : option string;
  responseCode : option jsnum;
  responseMessage : option string;
  validationTime : Z;
  errors : list string;
  warnings : list string
}.

(** What the socket of one connection attempt delivers to the listeners
    registered by [testSmtpConnection], in order of arrival. *)
Inductive SocketEvent :=
  | Connect
  | Data (chunk : string)
  | Error (message : string)
  | Close.

(** The local variables of [testSmtpConnection] that the listeners
    share ([lastCode] and [lastMessage] are its [responseCode] and
    [responseMessage]), and the lines written to the socket so far. *)
Record Dialogue := {
  step : nat;
  lastCode : jsnum;
  lastMessage : string;
  isDeliverable : bool;
  written : list string
}.

Definition initialDialogue : Dialogue :=
  {| step := 0; lastCode := Num 0; lastMessage := ""; isDeliverable := false;
     written := [] |}.

Definition crlf : string := String "013" (String "010" "").

(** [socket.write(line); step++] *)
Definition advance (d : Dialogue) (line : string) : Dialogue :=
  {| step := S (step d); lastCode := lastCode d; lastMessage := lastMessage d;
     isDeliverable := isDeliverable d; written := written d ++ [line] |}.

(** The [catch] block of the data listener. *)
Definition protocolError (d : Dialogue) (message : string) : SmtpConnectionResult :=
  {| conn_isValid := false; conn_isDeliverable := Some false; conn_mxRecord := None;
     conn_responseCode := Some (lastCode d);
     conn_responseMessage := Some (lastMessage d);
     conn_error := Some message |}.

(** The results of the timer, of the error listener and of the close
    listener: no response code or message. *)
Definition connectionError (message : string) : SmtpConnectionResult :=
  {| conn_isValid := false; conn_isDeliverable := Some false; conn_mxRecord := None;
     conn_responseCode := None; conn_responseMessage := None;
     conn_error := Some message |}.

Section Connection.
Variable config : SmtpValidationConfig.

(** The data listener: either the dialogue goes on, or the promise is
    resolved. *)
Definition onData (server rcpt : string) (d : Dialogue) (chunk : string)
  : Dialogue + SmtpConnectionResult :=
  let response := trim chunk in
  let code := parseInt (substring0 3 response) in
  let d1 := {| step := step d; lastCode := code; lastMessage := response;
               isDeliverable := isDeliverable d; written := written d |} in
  match step d with
  | 0%nat =>
      if strictEq code 220
      then inl (advance d1 ("HELO " +:+ helo config +:+ crlf))
      else inr (protocolError d1 ("Unexpected greeting: " +:+ response))
  | 1%nat =>
      if strictEq code 250
      then inl (advance d1 ("MAIL FROM:<" +:+ fromEmail config +:+ ">" +:+ crlf))
      else inr (protocolError d1 ("HELO failed: " +:+ response))
  | 2%nat =>
      if strictEq code 250
      then inl (advance d1 ("RCPT TO:<" +:+ rcpt +:+ ">" +:+ crlf))
      else inr (protocolError d1 ("MAIL FROM failed: " +:+ response))
  | 3%nat =>
      inl (advance
             {| step := step d; lastCode := code; lastMessage := response;
                isDeliverable := strictEq code 250; written := written d |}
             ("QUIT" +:+ crlf))
  | 4%nat =>
      inr {| conn_isValid := true;
             conn_isDeliverable := Some (isDeliverable d1);
             conn_mxRecord := Some server;
             conn_responseCode := Some code;
             conn_responseMessage := Some response;
             conn_error := None |}
  | _ => inl d1
  end.

(** The listeners applied to the events of one connection, up to the
    first [resolve] (every resolving path removes the listeners).
    The timer armed with [setTimeout] is cleared only by a resolving
    listener, so when the events end with the promise still pending
    the timer resolves it. *)
Fixpoint runDialogue (server rcpt : string) (d : Dialogue)
    (events : list SocketEvent) : SmtpConnectionResult :=
  match events with
  | [] => connectionError "Connection timeout"
  | Connect :: rest => runDialogue server rcpt d rest
  | Data chunk :: rest =>
      match onData server rcpt d chunk with
      | inl d' => runDialogue server rcpt d' rest
      | inr r => r
      end
  | Error message :: _ => connectionError ("Connection failed: " +:+ message)
  | Close :: rest =>
      if (step d <? 4)%nat
      then connectionError "Connection closed unexpectedly"
      else runDialogue server rcpt d rest
  end.
End Connection.

(** Outcome of [await this.testSmtpConnection(server, email)]. *)
Inductive Attempt :=
  | Resolved (r : SmtpConnectionResult)
  | Rejected (message : string).

Definition setDomain (r : SmtpValidationResult) (d : string) : SmtpValidationResult :=
  {| email := email r; domain := d; isValid := isValid r;
     isMailboxValid := isMailboxValid r; mxRecord := mxRecord r;
     responseCode := responseCode r; responseMessage := responseMessage r;
     validationTime := validationTime r; errors := errors r; warnings := warnings r |}.

Definition setValidationTime (r : SmtpValidationResult) (t : Z) : SmtpValidationResult :=
  {| email := email r; domain := domain r; isValid := isValid r;
     isMailboxValid := isMailboxValid r; mxRecord := mxRecord r;
     responseCode := responseCode r; responseMessage := responseMessage r;
     validationTime := t; errors := errors r; warnings := warnings r |}.

Definition pushError (r : SmtpValidationResult) (e : string) : SmtpValidationResult :=
  {| email := email r; domain := domain r; isValid := isValid r;
     isMailboxValid := isMailboxValid r; mxRecord := mxRecord r;
     responseCode := responseCode r; responseMessage := responseMessage r;
     validationTime := validationTime r; errors := errors r ++ [e];
     warnings := warnings r |}.

Definition pushWarning (r : SmtpValidationResult) (w : string) : SmtpValidationResult :=
  {| email := email r; domain := domain r; isValid := isValid r;
     isMailboxValid := isMailboxValid r; mxRecord := mxRecord r;
     responseCode := responseCode r; responseMessage := responseMessage r;
     validationTime := validationTime r; errors := errors r;
     warnings := warnings r ++ [w] |}.

(** The assignments of the [if (validationResult.isValid)] branch. *)
Definition recordSuccess (r : SmtpValidationResult) (v : SmtpConnectionResult)
  : SmtpValidationResult :=
  {| email := email r; domain := domain r; isValid := true;
     isMailboxValid := conn_isValid v;
     mxRecord := conn_mxRecord v;
     responseCode := conn_responseCode v;
     responseMessage := conn_responseMessage v;
     validationTime := validationTime r; errors := errors r; warnings := warnings r |}.

(** [const [localPart, domain] = email.split("@")] and the test
    [!localPart || !domain]. *)
Definition invalidFormat (e : string) : bool :=
  let parts := split "@" e in
  falsy (parts !! 0%nat) || falsy (parts !! 1%nat).

Definition domainOf (e : string) : string := default "" (split "@" e !! 1%nat).

Section Validator.
(** [testSmtpConnection], as [validateEmail] awaits it. *)
Variable testSmtpConnection : string -> string -> Attempt.
(** The two readings of [Date.now()]. *)
Variables startTime endTime : Z.

(** The [for (const server of servers)] loop; the second component is
    the list of servers a connection was attempted to, in order. *)
Fixpoint tryServers (rcpt : string) (servers : list string)
    (result : SmtpValidationResult) (attempted : list string)
  : SmtpValidationResult * list string :=
  match servers with
  | [] => (result, attempted)
  | server :: rest =>
      match testSmtpConnection server rcpt with
      | Resolved v =>
          if conn_isValid v
          then (recordSuccess result v, attempted ++ [server])
          else tryServers rcpt rest
                 (pushWarning result
                    (orElse (conn_error v) "Unable to verify mailbox via SMTP"))
                 (attempted ++ [server])
      | Rejected message =>
          tryServers rcpt rest
            (pushError result ("SMTP validation failed: " +:+ message))
            (attempted ++ [server])
      end
  end.

Definition emptyResult (e : string) : SmtpValidationResult :=
  {| email := e; domain := ""; isValid := false; isMailboxValid := false;
     mxRecord := None; responseCode := None; responseMessage := None;
     validationTime := 0; errors := []; warnings := [] |}.

(** [mxRecords?.map((mx) => mx.exchange) || [domain]]: an array, even
    an empty one, is truthy. *)
Definition candidateServers (mxRecords : option (list MxRecord)) (domain : string)
  : list string :=
  match mxRecords with
  | Some l => map exchange l
  | None => [domain]
  end.

Definition validateEmailWith (e : string) (mxRecords : option (list MxRecord))
  : SmtpValidationResult * list string :=
  let result := emptyResult e in
  if invalidFormat e
  then (setValidationTime (pushError result "Invalid email format")
          (endTime - startTime), [])
  else
    let domain := domainOf e in
    let result := setDomain result domain in
    let '(result, attempted) :=
      tryServers e (candidateServers mxRecords domain) result [] in
    (setValidationTime result (endTime - startTime), attempted).
End Validator.

(** [net.Socket.prototype.connect(port, host)] checks the port before
    it does anything else: a number that is not an integer from 0 to
    65535 makes it throw a [RangeError] (code [ERR_SOCKET_BAD_PORT]). *)
Definition validPort (p : Z) : bool := (0 <=? p) && (p <=? 65535).

(** The message of that [RangeError] in current releases of Node.js. *)
Definition portRangeError (p : Z) : string :=
  "Port should be >= 0 and < 65536. Received type number (" +:+ pretty p +:+ ").".

Section Network.
Variable config : SmtpValidationConfig.
(** What the socket connected to a host delivers. *)
Variable net : string -> list SocketEvent.
Variables startTime endTime : Z.

(** The executor of the promise ends with
    [socket.connect(this.config.port, server)].  When the port is
    refused the call throws inside the executor, which rejects the
    promise; the timer armed before it fires later and resolves a
    promise that is already settled.  Otherwise the promise is only
    ever resolved, by one of the listeners or by the timer. *)
Definition testSmtpConnection (server rcpt : string) : Attempt :=
  if validPort (port config)
  then Resolved (runDialogue config server rcpt initialDialogue (net server))
  else Rejected (portRangeError (port config)).

Definition validateEmail (e : string) (mxRecords : option (list MxRecord))
  : SmtpValidationResult * list string :=
  validateEmailWith testSmtpConnection startTime endTime e mxRecords.
End Network.

(** *** The commands sent, and the legacy entry point *)

Section Commands.
Variable config : SmtpValidationConfig.

(** [runDialogue] together with the lines written to the socket by the
    time the promise is resolved. *)
Fixpoint runDialogueLog (server rcpt : string) (d : Dialogue)
    (events : list SocketEvent) : SmtpConnectionResult * list string :=
  match events with
  | [] => (connectionError "Connection timeout", written d)
  | Connect :: rest => runDialogueLog server rcpt d rest
  | Data chunk :: rest =>
      match onData config server rcpt d chunk with
      | inl d' => runDialogueLog server rcpt d' rest
      | inr r => (r, written d)
      end
  | Error message :: _ =>
      (connectionError ("Connection failed: " +:+ message), written d)
  | Close :: rest =>
      if (step d <? 4)%nat
      then (connectionError "Connection closed unexpectedly", written d)
      else runDialogueLog server rcpt d rest
  end.

(** The four commands of a complete dialogue. *)
Definition commands (rcpt : string) : list string :=
  [ "HELO " +:+ helo config +:+ crlf;
    "MAIL FROM:<" +:+ fromEmail config +:+ ">" +:+ crlf;
    "RCPT TO:<" +:+ rcpt +:+ ">" +:+ crlf;
    "QUIT" +:+ crlf ].
End Commands.

(** The parameter object of [verifyMailboxSMTP]. *)
Record VerifyParams := {
  p_local : string;
  p_domain : string;
  p_mxRecords : option (list string);
  p_timeout : option Z;
  p_port : option Z;
  p_retryAttempts : option Z
}.

(** [n || d] on a number that may be [undefined]. *)
Definition orNumber (n : option Z) (d : Z) : Z :=
  match n with
  | Some z => if z =? 0 then d else z
  | None => d
  end.

(** The configuration of the validator built by [verifyMailboxSMTP]:
    the defaults with [timeout] and [port] overridden. *)
Definition verifyConfig (p : VerifyParams) : SmtpValidationConfig :=
  {| timeout := orNumber (p_timeout p) 10000; port := orNumber (p_port p) 25;
     fromEmail := fromEmail defaultConfig; helo := helo defaultConfig |}.

(** [params.mxRecords?.map((exchange, index) => ({ exchange, priority: index * 10 }))] *)
Definition formatMxRecords (l : list string) : list MxRecord :=
  imap (fun index x => {| exchange := x; priority := Z.of_nat index * 10 |}) l.

(** [verifyMailboxSMTP]: [Some true] for [true], [None] for [null];
    the second component lists the servers attempted. *)
Definition verifyMailboxSMTP (net : string -> list SocketEvent) (startTime endTime : Z)
    (p : VerifyParams) : option bool * list string :=
  let e := p_local p +:+ "@" +:+ p_domain p in
  let '(result, attempted) :=
    validateEmail (verifyConfig p) net startTime endTime e
      (formatMxRecords <$> p_mxRecords p) in
  (if isMailboxValid result then Some true else None, attempted).

End Smtp.

(** ** Concurrency gate ([DnsResolver.executeWithConcurrencyControl])

    Operations are named by numbers.  The single-threaded event loop
    interleaves three kinds of events: a caller submits an operation,
    the promise of a started operation settles, and a callback scheduled
    with [setImmediate] runs. *)

Module Gate.

Record State := {
  activeRequests : Z;
  (** the wrappers pushed on [this.requestQueue], oldest first *)
  requestQueue : list nat;
  (** callbacks handed to [setImmediate] that have not run yet *)
  immediates : list nat;
  (** operations started by the admitting call itself, which counted them *)
  admitted : list nat;
  (** operations started by a wrapper taken from the queue *)
  dequeued : list nat;
  (** operations whose caller has its promise settled *)
  settled : list nat
}.

Definition initial : State :=
  {| activeRequests := 0; requestQueue := []; immediates := [];
     admitted := []; dequeued := []; settled := [] |}.

Inductive Event :=
  | Submit (op : nat)
  | Settle (op : nat)
  | RunImmediate.

Definition remove (op : nat) (l : list nat) : list nat :=
  filter (fun x => x ≠ op) l.

(** Operations started and not yet settled. *)
Definition executing (s : State) : list nat := admitted s ++ dequeued s.

Section Executor.
Variable concurrency : Z.

(** The call [executeWithConcurrencyControl(op)] up to its first
    suspension. *)
Definition submit (s : State) (op : nat) : State :=
  if concurrency <=? activeRequests s
  then {| activeRequests := activeRequests s;
          requestQueue := requestQueue s ++ [op];
          immediates := immediates s; admitted := admitted s;
          dequeued := dequeued s; settled := settled s |}
  else {| activeRequests := activeRequests s + 1;
          requestQueue := requestQueue s;
          immediates := immediates s; admitted := admitted s ++ [op];
          dequeued := dequeued s; settled := settled s |}.

(** The [finally] block of an admitted operation. *)
Definition release (s : State) (op : nat) : State :=
  match requestQueue s with
  | next :: rest =>
      {| activeRequests := activeRequests s - 1; requestQueue := rest;
         immediates := immediates s ++ [next];
         admitted := remove op (admitted s); dequeued := dequeued s;
         settled := settled s ++ [op] |}
  | [] =>
      {| activeRequests := activeRequests s - 1; requestQueue := [];
         immediates := immediates s;
         admitted := remove op (admitted s); dequeued := dequeued s;
         settled := settled s ++ [op] |}
  end.

(** The wrapper of a queued operation after its [await]: it resolves
    or rejects the caller's promise and does nothing else. *)
Definition finishDequeued (s : State) (op : nat) : State :=
  {| activeRequests := activeRequests s; requestQueue := requestQueue s;
     immediates := immediates s; admitted := admitted s;
     dequeued := remove op (dequeued s); settled := settled s ++ [op] |}.

(** One event; [None] when the event cannot happen in this state. *)
Definition step (s : State) (e : Event) : option State :=
  match e with
  | Submit op => Some (submit s op)
  | Settle op =>
      if bool_decide (op ∈ admitted s) then Some (release s op)
      else if bool_decide (op ∈ dequeued s) then Some (finishDequeued s op)
      else None
  | RunImmediate =>
      match immediates s with
      | next :: rest =>
          Some {| activeRequests := activeRequests s;
                  requestQueue := requestQueue s; immediates := rest;
                  admitted := admitted s; dequeued := dequeued s ++ [next];
                  settled := settled s |}
      | [] => None
      end
  end.

Fixpoint run (s : State) (events : list Event) : option State :=
  match events with
  | [] => Some s
  | e :: rest =>
      match step s e with
      | Some s' => run s' rest
      | None => None
      end
  end.
End Executor.

Definition isSubmit (e : Event) : bool :=
  match e with
  | Submit _ => true
  | _ => false
  end.

End Gate.

(** ** DNS validation engine ([DnsResolver]) *)

Module Dns.
Import Js.

(** The fields of [DnsResolverConfig] read by the functions below. *)
Record DnsResolverConfig := {
  timeout : Z;
  retries : Z;
  enableCaching : bool;
  cacheSize : Z;
  cacheTtl : Z;
  concurrency : Z;
  validateMxConnectivity : bool;
  checkSpfRecord : bool;
  checkDmarcRecord : bool
}.

Definition defaultConfig : DnsResolverConfig :=
  {| timeout := 5000; retries := 3; enableCaching := true; cacheSize := 10000;
     cacheTtl := 300000; concurrency := 10; validateMxConnectivity := false;
     checkSpfRecord := false; checkDmarcRecord := false |}.

Record DnsValidationResult := {
  domain : string;
  hasMx : bool;
  mxRecords : list MxRecord;
  hasSpf : bool;
  hasDmarc : bool;
  isConnectable : bool;
  validationTime : Z;
  errors : list string;
  warnings : list string
}.

(** What [resolveMxWithRetry] does besides computing, in order. *)
Inductive Effect :=
  | Query (attempt : Z)
  | Sleep (ms : Z).

(** [Math.min(1000 * Math.pow(2, attempt - 1), 5000)] *)
Definition backoff (attempt : Z) : Z := Z.min (1000 * 2 ^ (attempt - 1)) 5000.

(** [(a, b) => a.priority - b.priority] with the stable
    [Array.prototype.sort]: insertion keeps equal priorities in their
    original order. *)
Fixpoint insertByPriority (x : MxRecord) (l : list MxRecord) : list MxRecord :=
  match l with
  | [] => [x]
  | y :: rest =>
      if priority x <=? priority y then x :: y :: rest
      else y :: insertByPriority x rest
  end.

Definition sortByPriority (l : list MxRecord) : list MxRecord :=
  foldr insertByPriority [] l.

Definition anyRecordStartsWith (p : string) (txtRecords : list (list string)) : bool :=
  existsb (fun records => existsb (fun record => startsWith (toLowerCase record) p) records)
    txtRecords.

Section Resolver.
Variable config : DnsResolverConfig.
(** How the race between [resolveMxAsync(domain)] and the timer of the
    given attempt settles. *)
Variable resolveMx : string -> Z -> Settled (list MxRecord).
(** [resolveTxtAsync] *)
Variable resolveTxt : string -> Settled (list (list string)).
(** Whether a TCP connection to port 25 of the host is established
    before the 3 s timer or an error. *)
Variable connects : string -> bool.
Variables startTime endTime : Z.

(** The [for] loop of [resolveMxWithRetry]: [remaining] iterations are
    left, the loop variable is [attempt]. *)
Fixpoint retryLoop (name : string) (remaining : nat) (attempt : Z)
    (lastError : option string) (trace : list Effect)
  : Settled (list MxRecord) * list Effect :=
  match remaining with
  | O =>
      (RejectedWith (match lastError with
                     | Some e => e
                     | None => "MX resolution failed"
                     end), trace)
  | S k =>
      match resolveMx name attempt with
      | Fulfilled records => (Fulfilled records, trace ++ [Query attempt])
      | RejectedWith e =>
          retryLoop name k (attempt + 1) (Some e)
            (trace ++ [Query attempt] ++
               (if attempt <? retries config then [Sleep (backoff attempt)] else []))
      end
  end.

(** The operation handed to the gate, once the gate runs it: the loop
    [for (attempt = 1; attempt <= retries; attempt++)] has
    [retries] iterations. *)
Definition resolveMxWithRetry (name : string) : Settled (list MxRecord) * list Effect :=
  retryLoop name (Z.to_nat (retries config)) 1 None [].

Definition checkSpf (name : string) : bool :=
  match resolveTxt name with
  | Fulfilled txtRecords => anyRecordStartsWith "v=spf1" txtRecords
  | RejectedWith _ => false
  end.

Definition checkDmarc (name : string) : bool :=
  match resolveTxt ("_dmarc." +:+ name) with
  | Fulfilled txtRecords => anyRecordStartsWith "v=dmarc1" txtRecords
  | RejectedWith _ => false
  end.

Definition mxConnectivity (records : list MxRecord) : bool :=
  match records with
  | [] => false
  | primaryMx :: _ => connects (exchange primaryMx)
  end.

Definition emptyResult (name : string) : DnsValidationResult :=
  {| domain := name; hasMx := false; mxRecords := []; hasSpf := false;
     hasDmarc := false; isConnectable := false; validationTime := 0;
     errors := []; warnings := [] |}.

Definition pushWarning (r : DnsValidationResult) (w : string) : DnsValidationResult :=
  {| domain := domain r; hasMx := hasMx r; mxRecords := mxRecords r;
     hasSpf := hasSpf r; hasDmarc := hasDmarc r; isConnectable := isConnectable r;
     validationTime := validationTime r; errors := errors r;
     warnings := warnings r ++ [w] |}.

Definition pushError (r : DnsValidationResult) (e : string) : DnsValidationResult :=
  {| domain := domain r; hasMx := hasMx r; mxRecords := mxRecords r;
     hasSpf := hasSpf r; hasDmarc := hasDmarc r; isConnectable := isConnectable r;
     validationTime := validationTime r; errors := errors r ++ [e];
     warnings := warnings r |}.

Definition setValidationTime (r : DnsValidationResult) (t : Z) : DnsValidationResult :=
  {| domain := domain r; hasMx := hasMx r; mxRecords := mxRecords r;
     hasSpf := hasSpf r; hasDmarc := hasDmarc r; isConnectable := isConnectable r;
     validationTime := t; errors := errors r; warnings := warnings r |}.

(** The MX part of the [try] block, after [resolveMxWithRetry] is
    fulfilled. *)
Definition recordMx (r : DnsValidationResult) (records : list MxRecord)
  : DnsValidationResult :=
  if (0 <? length records)%nat
  then
    let sorted := sortByPriority records in
    {| domain := domain r; hasMx := true; mxRecords := sorted;
       hasSpf := hasSpf r; hasDmarc := hasDmarc r;
       isConnectable := if validateMxConnectivity config
                        then mxConnectivity sorted else isConnectable r;
       validationTime := validationTime r; errors := errors r;
       warnings := warnings r |}
  else pushWarning r "No MX records found".

Definition recordSpf (r : DnsValidationResult) : DnsValidationResult :=
  if checkSpfRecord config
  then
    let found := checkSpf (domain r) in
    let r' := {| domain := domain r; hasMx := hasMx r; mxRecords := mxRecords r;
                 hasSpf := found; hasDmarc := hasDmarc r;
                 isConnectable := isConnectable r;
                 validationTime := validationTime r; errors := errors r;
                 warnings := warnings r |} in
    if found then r' else pushWarning r' "No SPF record found"
  else r.

Definition recordDmarc (r : DnsValidationResult) : DnsValidationResult :=
  if checkDmarcRecord config
  then
    let found := checkDmarc (domain r) in
    let r' := {| domain := domain r; hasMx := hasMx r; mxRecords := mxRecords r;
                 hasSpf := hasSpf r; hasDmarc := found;
                 isConnectable := isConnectable r;
                 validationTime := validationTime r; errors := errors r;
                 warnings := warnings r |} in
    if found then r' else pushWarning r' "No DMARC record found"
  else r.

(** [validateDomain]; the second component lists the queries and
    sleeps of the MX resolution. *)
Definition validateDomain (name : string) : DnsValidationResult * list Effect :=
  let result := emptyResult name in
  let '(mx, trace) := resolveMxWithRetry name in
  let result :=
    match mx with
    | Fulfilled records => recordDmarc (recordSpf (recordMx result records))
    | RejectedWith errorMsg =>
        pushError result ("DNS resolution failed: " +:+ errorMsg)
    end in
  (setValidationTime result (endTime - startTime), trace).
End Resolver.

(** *** The lookups as the module wires them

    [dns] is the promise API ([import { promises as dns } from "dns"]):
    its functions take the host name and return a promise; they accept
    no callback.  [promisify(f)(x)] calls [f(x, callback)], drops what
    [f] returns and settles when [f] calls the callback. *)

(** What a function does when it is called with a callback as its last
    argument. *)
Inductive Callee (A : Type) :=
  (* it calls the callback, before or after the timer of the attempt *)
  | CallsBack (outcome : Settled A) (beforeTimer : bool)
  (* it ignores the callback and returns a promise *)
  | ReturnsPromise (outcome : Settled A).
Arguments CallsBack {A} outcome beforeTimer.
Arguments ReturnsPromise {A} outcome.

(** What has become of a promise when the timer raced against it
    fires. *)
Inductive Raced (A : Type) :=
  | SettledFirst (outcome : Settled A)
  | StillPending.
Arguments SettledFirst {A} outcome.
Arguments StillPending {A}.

(** [util.promisify(f)(x)] *)
Definition promisify {A : Type} (f : string -> Callee A) (x : string) : Raced A :=
  match f x with
  | CallsBack outcome true => SettledFirst outcome
  | CallsBack _ false => StillPending
  | ReturnsPromise _ => StillPending
  end.

(** [dns.resolveMx] of the promise API, for a name service that gives
    the record list [answer name]. *)
Definition dnsResolveMx (answer : string -> list MxRecord) (name : string)
  : Callee (list MxRecord) :=
  ReturnsPromise (Fulfilled (answer name)).

(** [const resolveMxAsync = promisify(dns.resolveMx)] *)
Definition resolveMxAsync (answer : string -> list MxRecord)
  : string -> Raced (list MxRecord) :=
  promisify (dnsResolveMx answer).

(** [Promise.race([lookup, timer])] of one attempt of
    [resolveMxWithRetry]. *)
Definition raceWithTimer {A : Type} (lookup : Raced A) : Settled A :=
  match lookup with
  | SettledFirst outcome => outcome
  | StillPending => RejectedWith "DNS timeout"
  end.

(** How the race of an attempt settles with the lookups wired as they
    are: the [resolveMx] argument of [validateDomain] for the module as
    written. *)
Definition wiredResolveMx (answer : string -> list MxRecord) (name : string)
    (attempt : Z) : Settled (list MxRecord) :=
  raceWithTimer (resolveMxAsync answer name).

(** *** The cache ([dnsCache], a [Map] in insertion order) *)

Record DnsCache (V : Type) := {
  result : V;
  timestamp : Z;
  ttl : Z
}.
Arguments result {V} _.
Arguments timestamp {V} _.
Arguments ttl {V} _.

Section Cache.
Context {V : Type}.

Definition mapGet (m : list (string * DnsCache V)) (key : string) : option (DnsCache V) :=
  snd <$> find (fun kv => bool_decide (fst kv = key)) m.

Definition mapDelete (m : list (string * DnsCache V)) (key : string)
  : list (string * DnsCache V) :=
  filter (fun kv => fst kv ≠ key) m.

(** [Map.prototype.set]: an existing key keeps its place. *)
Fixpoint mapSet (m : list (string * DnsCache V)) (key : string) (e : DnsCache V)
  : list (string * DnsCache V) :=
  match m with
  | [] => [(key, e)]
  | (k, x) :: rest =>
      if bool_decide (k = key) then (k, e) :: rest
      else (k, x) :: mapSet rest key e
  end.

(** [getCachedResult] at time [now]: the value read, [None] for
    [undefined], and the cache afterwards. *)
Definition getCachedResult (m : list (string * DnsCache V)) (key : string) (now : Z)
  : option V * list (string * DnsCache V) :=
  match mapGet m key with
  | Some cached =>
      if now - timestamp cached <? ttl cached then (Some (result cached), m)
      else (None, mapDelete m key)
  | None => (None, m)
  end.

(** [ttl || this.config.cacheTtl]: a missing and a zero [ttl] both
    select the configured one. *)
Definition effectiveTtl (config : DnsResolverConfig) (ttlArg : option Z) : Z :=
  match ttlArg with
  | Some t => if t =? 0 then cacheTtl config else t
  | None => cacheTtl config
  end.

(** [setCachedResult] at time [now]. *)
Definition setCachedResult (config : DnsResolverConfig)
    (m : list (string * DnsCache V)) (key : string) (value : V)
    (ttlArg : option Z) (now : Z) : list (string * DnsCache V) :=
  let m1 :=
    if cacheSize config <=? Z.of_nat (length m)
    then match m with
         | (oldestKey, _) :: _ =>
             if falsy (Some oldestKey) then m else mapDelete m oldestKey
         | [] => m
         end
    else m in
  mapSet m1 key
    {| result := value; timestamp := now; ttl := effectiveTtl config ttlArg |}.
End Cache.

(** [cleanupCache] at time [now]: the keys of the entries older than
    their TTL are collected, then deleted. *)
Definition cleanupCache {V : Type} (m : list (string * DnsCache V)) (now : Z)
  : list (string * DnsCache V) :=
  let keysToDelete :=
    map fst (filter (fun kv => ttl (snd kv) < now - timestamp (snd kv)) m) in
  foldl mapDelete m keysToDelete.

End Dns.

(** ** Orchestrator ([DisposableEmailChecker], [EmailValidator]) *)

Module Checker.
Import Js.

Inductive MatchType := exact | subdomain | pattern | none.

(** The [dnsValidation] and [smtpValidation] sub-results. *)
Record DnsSummary := {
  dns_hasMx : bool;
  dns_mxRecords : list MxRecord;
  dns_hasSpf : bool;
  dns_hasDmarc : bool;
  dns_isConnectable : bool;
  dnsValidationTime : Z
}.

Record SmtpSummary := {
  smtp_isValid : bool;
  smtp_isDeliverable : bool;
  smtp_responseCode : option jsnum;
  smtp_responseMessage : option string;
  smtpValidationTime : Z;
  serverTested : option string
}.

Record EmailValidationResult := {
  email : string;
  isValid : bool;
  isDisposable : bool;
  isAllowed : bool;
  isBlacklisted : bool;
  domain : string;
  localPart : string;
  matchType : MatchType;
  confidence : Z;
  source : option string;
  validationTime : Z;
  errors : list string;
  warnings : list string;
  dnsValidation : option DnsSummary;
  smtpValidation : option SmtpSummary
}.

Definition setEmail (r : EmailValidationResult) (v : string) : EmailValidationResult :=
  {| email := v; isValid := isValid r; isDisposable := isDisposable r;
     isAllowed := isAllowed r; isBlacklisted := isBlacklisted r; domain := domain r;
     localPart := localPart r; matchType := matchType r; confidence := confidence r;
     source := source r; validationTime := validationTime r; errors := errors r;
     warnings := warnings r; dnsValidation := dnsValidation r;
     smtpValidation := smtpValidation r |}.

Definition setIsValid (r : EmailValidationResult) (v : bool) : EmailValidationResult :=
  {| email := email r; isValid := v; isDisposable := isDisposable r;
     isAllowed := isAllowed r; isBlacklisted := isBlacklisted r; domain := domain r;
     localPart := localPart r; matchType := matchType r; confidence := confidence r;
     source := source r; validationTime := validationTime r; errors := errors r;
     warnings := warnings r; dnsValidation := dnsValidation r;
     smtpValidation := smtpValidation r |}.

Definition setIsDisposable (r : EmailValidationResult) (v : bool) : EmailValidationResult :=
  {| email := email r; isValid := isValid r; isDisposable := v;
     isAllowed := isAllowed r; isBlacklisted := isBlacklisted r; domain := domain r;
     localPart := localPart r; matchType := matchType r; confidence := confidence r;
     source := source r; validationTime := validationTime r; errors := errors r;
     warnings := warnings r; dnsValidation := dnsValidation r;
     smtpValidation := smtpValidation r |}.

Definition setIsAllowed (r : EmailValidationResult) (v : bool) : EmailValidationResult :=
  {| email := email r; isValid := isValid r; isDisposable := isDisposable r;
     isAllowed := v; isBlacklisted := isBlacklisted r; domain := domain r;
     localPart := localPart r; matchType := matchType r; confidence := confidence r;
     source := source r; validationTime := validationTime r; errors := errors r;
     warnings := warnings r; dnsValidation := dnsValidation r;
     smtpValidation := smtpValidation r |}.

Definition setIsBlacklisted (r : EmailValidationResult) (v : bool) : EmailValidationResult :=
  {| email := email r; isValid := isValid r; isDisposable := isDisposable r;
     isAllowed := isAllowed r; isBlacklisted := v; domain := domain r;
     localPart := localPart r; matchType := matchType r; confidence := confidence r;
     source := source r; validationTime := validationTime r; errors := errors r;
     warnings := warnings r; dnsValidation := dnsValidation r;
     smtpValidation := smtpValidation r |}.

Definition setDomain (r : EmailValidationResult) (v : string) : EmailValidationResult :=
  {| email := email r; isValid := isValid r; isDisposable := isDisposable r;
     isAllowed := isAllowed r; isBlacklisted := isBlacklisted r; domain := v;
     localPart := localPart r; matchType := matchType r; confidence := confidence r;
     source := source r; validationTime := validationTime r; errors := errors r;
     warnings := warnings r; dnsValidation := dnsValidation r;
     smtpValidation := smtpValidation r |}.

Definition setLocalPart (r : EmailValidationResult) (v : string) : EmailValidationResult :=
  {| email := email r; isValid := isValid r; isDisposable := isDisposable r;
     isAllowed := isAllowed r; isBlacklisted := isBlacklisted r; domain := domain r;
     localPart := v; matchType := matchType r; confidence := confidence r;
     source := source r; validationTime := validationTime r; errors := errors r;
     warnings := warnings r; dnsValidation := dnsValidation r;
     smtpValidation := smtpValidation r |}.

Definition setMatchType (r : EmailValidationResult) (v : MatchType) : EmailValidationResult :=
  {| email := email r; isValid := isValid r; isDisposable := isDisposable r;
     isAllowed := isAllowed r; isBlacklisted := isBlacklisted r; domain := domain r;
     localPart := localPart r; matchType := v; confidence := confidence r;
     source := source r; validationTime := validationTime r; errors := errors r;
     warnings := warnings r; dnsValidation := dnsValidation r;
     smtpValidation := smtpValidation r |}.

Definition setConfidence (r : EmailValidationResult) (v : Z) : EmailValidationResult :=
  {| email := email r; isValid := isValid r; isDisposable := isDisposable r;
     isAllowed := isAllowed r; isBlacklisted := isBlacklisted r; domain := domain r;
     localPart := localPart r; matchType := matchType r; confidence := v;
     source := source r; validationTime := validationTime r; errors := errors r;
     warnings := warnings r; dnsValidation := dnsValidation r;
     smtpValidation := smtpValidation r |}.

Definition setSource (r : EmailValidationResult) (v : option string) : EmailValidationResult :=
  {| email := email r; isValid := isValid r; isDisposable := isDisposable r;
     isAllowed := isAllowed r; isBlacklisted := isBlacklisted r; domain := domain r;
     localPart := localPart r; matchType := matchType r; confidence := confidence r;
     source := v; validationTime := validationTime r; errors := errors r;
     warnings := warnings r; dnsValidation := dnsValidation r;
     smtpValidation := smtpValidation r |}.

Definition setValidationTime (r : EmailValidationResult) (v : Z) : EmailValidationResult :=
  {| email := email r; isValid := isValid r; isDisposable := isDisposable r;
     isAllowed := isAllowed r; isBlacklisted := isBlacklisted r; domain := domain r;
     localPart := localPart r; matchType := matchType r; confidence := confidence r;
     source := source r; validationTime := v; errors := errors r;
     warnings := warnings r; dnsValidation := dnsValidation r;
     smtpValidation := smtpValidation r |}.

Definition setErrors (r : EmailValidationResult) (v : list string) : EmailValidationResult :=
  {| email := email r; isValid := isValid r; isDisposable := isDisposable r;
     isAllowed := isAllowed r; isBlacklisted := isBlacklisted r; domain := domain r;
     localPart := localPart r; matchType := matchType r; confidence := confidence r;
     source := source r; validationTime := validationTime r; errors := v;
     warnings := warnings r; dnsValidation := dnsValidation r;
     smtpValidation := smtpValidation r |}.

Definition setWarnings (r : EmailValidationResult) (v : list string) : EmailValidationResult :=
  {| email := email r; isValid := isValid r; isDisposable := isDisposable r;
     isAllowed := isAllowed r; isBlacklisted := isBlacklisted r; domain := domain r;
     localPart := localPart r; matchType := matchType r; confidence := confidence r;
     source := source r; validationTime := validationTime r; errors := errors r;
     warnings := v; dnsValidation := dnsValidation r;
     smtpValidation := smtpValidation r |}.

Definition setDnsValidation (r : EmailValidationResult) (v : option DnsSummary) : EmailValidationResult :=
  {| email := email r; isValid := isValid r; isDisposable := isDisposable r;
     isAllowed := isAllowed r; isBlacklisted := isBlacklisted r; domain := domain r;
     localPart := localPart r; matchType := matchType r; confidence := confidence r;
     source := source r; validationTime := validationTime r; errors := errors r;
     warnings := warnings r; dnsValidation := v; smtpValidation := smtpValidation r |}.

Definition setSmtpValidation (r : EmailValidationResult) (v : option SmtpSummary) : EmailValidationResult :=
  {| email := email r; isValid := isValid r; isDisposable := isDisposable r;
     isAllowed := isAllowed r; isBlacklisted := isBlacklisted r; domain := domain r;
     localPart := localPart r; matchType := matchType r; confidence := confidence r;
     source := source r; validationTime := validationTime r; errors := errors r;
     warnings := warnings r; dnsValidation := dnsValidation r; smtpValidation := v |}.

Definition pushError (r : EmailValidationResult) (e : string) : EmailValidationResult :=
  setErrors r (errors r ++ [e]).

Definition pushWarnings (r : EmailValidationResult) (ws : list string)
  : EmailValidationResult :=
  setWarnings r (warnings r ++ ws).

(** The object literal at the end of [getPooledResult]. *)
Definition freshResult : EmailValidationResult :=
  {| email := ""; isValid := false; isDisposable := false; isAllowed := false;
     isBlacklisted := false; domain := ""; localPart := ""; matchType := none;
     confidence := 0; source := None; validationTime := 0; errors := [];
     warnings := []; dnsValidation := None; smtpValidation := None |}.

(** The reset of a pooled object: the two sub-results are not reset. *)
Definition resetResult (r : EmailValidationResult) : EmailValidationResult :=
  {| email := ""; isValid := false; isDisposable := false; isAllowed := false;
     isBlacklisted := false; domain := ""; localPart := ""; matchType := none;
     confidence := 0; source := None; validationTime := 0; errors := [];
     warnings := []; dnsValidation := dnsValidation r;
     smtpValidation := smtpValidation r |}.

(** [resultPool] is a stack: the head of the list is the last element
    of the array. *)
Definition resultPool : list EmailValidationResult := [].

Definition getPooledResult (pool : list EmailValidationResult)
  : EmailValidationResult * list EmailValidationResult :=
  match pool with
  | r :: rest => (resetResult r, rest)
  | [] => (freshResult, [])
  end.

(** What [DomainChecker.checkBlacklist] and [checkDisposableDomain]
    return. *)
Record MatchResult := {
  isMatch : bool;
  match_matchType : MatchType;
  match_confidence : Z;
  match_source : option string
}.

(** The fields of [EmailCheckerConfig] read by the pipeline. *)
Record EmailCheckerConfig := {
  strictValidation : bool;
  checkMxRecord : bool;
  checkSmtpDeliverability : bool;
  enablePatternMatching : bool;
  enableCaching : bool;
  dnsValidationConfig : option Dns.DnsResolverConfig
}.

(** The stages of the pipeline that consult a collaborator. *)
Inductive Stage :=
  | StAllowlist
  | StBlacklist
  | StDisposable
  | StPattern
  | StDns
  | StSmtp.

(** [email.indexOf("@", from)]: [None] for [-1]. *)
Definition indexOfAt (s : string) (from : nat) : option nat := String.index from "@" s.

Section Pipeline.
Variable config : EmailCheckerConfig.
(** [EMAIL_REGEX.test] (argument [false]) and [STRICT_EMAIL_REGEX.test]
    (argument [true]). *)
Variable regexTest : bool -> string -> bool.
(** [DomainChecker], which is not part of the sources at hand. *)
Variable checkAllowlist : string -> bool.
Variable checkBlacklist : string -> MatchResult.
Variable checkDisposableDomain : string -> MatchResult.
(** [config.customPatterns] and [EmailValidator.analyzePatterns]. *)
Variable RegExp : Type.
Variable customPatterns : list RegExp.
Variable analyzePatterns : string -> string -> string -> list RegExp -> Z * list string.
(** The network probes behind [EmailValidator], by how their promise
    settles. *)
Variable validateMxRecord : string -> Settled Dns.DnsValidationResult.
Variable simpleMxCheck : string -> Settled bool.
Variable validateSmtpDeliverability :
  string -> option (list MxRecord) -> Settled Smtp.SmtpValidationResult.
(** [performance.now()] at the start and at the return. *)
Variables startTime now : Z.

(** [EmailValidator.validateEmailFormat]: the error it pushes, [None]
    when it returns [true]. *)
Definition validateEmailFormat (e : string) : option string :=
  if (254 <? String.length e)%nat
  then Some "Email address too long (max 254 characters)"
  else
    match indexOfAt e 0 with
    | None => Some "Invalid email format - missing or misplaced @ symbol"
    | Some atIndex =>
        if (atIndex =? 0)%nat || (S atIndex =? String.length e)%nat
        then Some "Invalid email format - missing or misplaced @ symbol"
        else if bool_decide (is_Some (indexOfAt e (atIndex + 1)))
        then Some "Invalid email format - multiple @ symbols"
        else
          let localPart := String.substring 0 atIndex e in
          let domain := String.substring (atIndex + 1) (String.length e) e in
          if (64 <? String.length localPart)%nat
          then Some "Local part too long (max 64 characters)"
          else if (253 <? String.length domain)%nat
          then Some "Domain too long (max 253 characters)"
          else if regexTest (strictValidation config) e then None
          else Some "Invalid email format"
    end.

(** [EmailValidator.parseEmail] *)
Definition parseEmail (e : string) : string * string :=
  match indexOfAt e 0 with
  | Some atIndex =>
      (String.substring 0 atIndex e,
       toLowerCase (String.substring (atIndex + 1) (String.length e) e))
  | None =>
      (* [slice(0, -1)] and [slice(0)] *)
      (String.substring 0 (String.length e - 1) e, toLowerCase e)
  end.

(** Step 4 *)
Definition blacklistStep (r : EmailValidationResult) : EmailValidationResult :=
  let blacklistResult := checkBlacklist (domain r) in
  if isMatch blacklistResult
  then setConfidence
         (setMatchType (setIsBlacklisted r true) (match_matchType blacklistResult))
         (match_confidence blacklistResult)
  else r.

(** Step 5 *)
Definition disposableStep (r : EmailValidationResult) : EmailValidationResult :=
  let disposableResult := checkDisposableDomain (domain r) in
  if isMatch disposableResult
  then setSource
         (setConfidence
            (setMatchType (setIsDisposable r true) (match_matchType disposableResult))
            (Z.max (confidence r) (match_confidence disposableResult)))
         (match_source disposableResult)
  else r.

(** Step 6; the flag says whether [analyzePatterns] was called. *)
Definition patternStep (r : EmailValidationResult) : EmailValidationResult * bool :=
  if enablePatternMatching config && (0 <? length customPatterns)%nat
  then
    let '(suspiciousScore, patternWarnings) :=
      analyzePatterns (email r) (localPart r) (domain r) customPatterns in
    if 0 <? suspiciousScore
    then
      let r1 := setConfidence (setWarnings r patternWarnings)
                  (Z.max (confidence r) suspiciousScore) in
      (if 80 <=? suspiciousScore
       then setMatchType (setIsDisposable r1 true) pattern
       else r1, true)
    else (r, true)
  else (r, false).

Definition needsAdvancedValidation : bool :=
  match dnsValidationConfig config with
  | Some dnsConfig =>
      Dns.validateMxConnectivity dnsConfig || Dns.checkSpfRecord dnsConfig
      || Dns.checkDmarcRecord dnsConfig
  | None => false
  end.

Definition noMx (r : EmailValidationResult) : EmailValidationResult :=
  setConfidence (pushWarnings r ["No MX record found for domain"])
    (Z.max (confidence r) 60).

(** Step 7; the second component is the local [dnsResult]. *)
Definition dnsStep (r : EmailValidationResult)
  : EmailValidationResult * option Dns.DnsValidationResult :=
  if needsAdvancedValidation
  then
    match validateMxRecord (domain r) with
    | Fulfilled dnsResult =>
        let r1 := setDnsValidation r
                    (Some {| dns_hasMx := Dns.hasMx dnsResult;
                             dns_mxRecords := Dns.mxRecords dnsResult;
                             dns_hasSpf := Dns.hasSpf dnsResult;
                             dns_hasDmarc := Dns.hasDmarc dnsResult;
                             dns_isConnectable := Dns.isConnectable dnsResult;
                             dnsValidationTime := Dns.validationTime dnsResult |}) in
        let r2 := if Dns.hasMx dnsResult then r1 else noMx r1 in
        let r3 := pushWarnings r2 (Dns.warnings dnsResult) in
        let r4 := if (0 <? length (Dns.errors dnsResult))%nat
                  then pushWarnings r3 ["DNS validation encountered errors"]
                  else r3 in
        (r4, Some dnsResult)
    | RejectedWith _ => (pushWarnings r ["Failed to check DNS records"], None)
    end
  else
    match simpleMxCheck (domain r) with
    | Fulfilled hasMx => (if hasMx then r else noMx r, None)
    | RejectedWith _ => (pushWarnings r ["Failed to check DNS records"], None)
    end.

(** Step 8 *)
Definition smtpStep (r : EmailValidationResult)
    (dnsResult : option Dns.DnsValidationResult) : EmailValidationResult :=
  let mx :=
    match dnsResult with
    | Some d =>
        if Dns.hasMx d && (0 <? length (Dns.mxRecords d))%nat
        then Some (Dns.mxRecords d) else None
    | None => None
    end in
  match validateSmtpDeliverability (email r) mx with
  | Fulfilled smtpResult =>
      let r1 := setSmtpValidation r
                  (Some {| smtp_isValid := Smtp.isValid smtpResult;
                           smtp_isDeliverable := Smtp.isMailboxValid smtpResult;
                           smtp_responseCode := Smtp.responseCode smtpResult;
                           smtp_responseMessage := Smtp.responseMessage smtpResult;
                           smtpValidationTime := Smtp.validationTime smtpResult;
                           serverTested := Smtp.mxRecord smtpResult |}) in
      let r2 := if Smtp.isMailboxValid smtpResult then r1
                else setConfidence
                       (pushWarnings r1
                          ["Email address does not appear to be deliverable"])
                       (Z.max (confidence r1) 70) in
      let r3 := pushWarnings r2 (Smtp.warnings smtpResult) in
      if (0 <? length (Smtp.errors smtpResult))%nat
      then pushWarnings r3 ["SMTP validation encountered errors"]
      else r3
  | RejectedWith _ => pushWarnings r ["Failed to perform SMTP validation"]
  end.

(** [performEmailCheck]: the result, the stages evaluated in order,
    and the pool afterwards. *)
Definition performEmailCheck (e : string) (pool : list EmailValidationResult)
  : EmailValidationResult * list Stage * list EmailValidationResult :=
  let '(result, pool) := getPooledResult pool in
  let result := setEmail result e in
  match validateEmailFormat e with
  | Some message =>
      (setValidationTime (pushError result message) (now - startTime), [], pool)
  | None =>
      let '(local, dom) := parseEmail e in
      let result := setIsValid (setDomain (setLocalPart result local) dom) true in
      if checkAllowlist dom
      then
        (setValidationTime
           (setConfidence (setMatchType (setIsAllowed result true) exact) 100)
           (now - startTime), [StAllowlist], pool)
      else
        let result := blacklistStep result in
        let result := disposableStep result in
        let '(result, analysed) := patternStep result in
        let '(result, dnsResult) :=
          if checkMxRecord config then dnsStep result else (result, None) in
        let result :=
          if checkSmtpDeliverability config then smtpStep result dnsResult
          else result in
        (setValidationTime result (now - startTime),
         [StAllowlist; StBlacklist; StDisposable]
           ++ (if analysed then [StPattern] else [])
           ++ (if checkMxRecord config then [StDns] else [])
           ++ (if checkSmtpDeliverability config then [StSmtp] else []),
         pool)
  end.

(** [EMAIL_PATTERN.test] *)
Variable emailPatternTest : string -> bool.
(** [CacheManager] and [MetricsManager], which are not part of the
    sources at hand: how the awaited calls settle. *)
Variable cacheGet : string -> Settled (option EmailValidationResult).
Variable cacheSet : string -> EmailValidationResult -> Settled unit.
Variable updateMetrics : EmailValidationResult -> Settled unit.

(** The [catch] block of [checkEmail]. *)
Definition errorResult (normalizedEmail message : string)
    (pool : list EmailValidationResult)
  : EmailValidationResult * list Stage * list EmailValidationResult :=
  let '(result, pool) := getPooledResult pool in
  (pushError (setValidationTime (setEmail result normalizedEmail) (now - startTime))
     message, [], pool).

(** The part of [checkEmail] after the cache lookup missed. *)
Definition checkUncached (normalizedEmail : string) (pool : list EmailValidationResult)
  : EmailValidationResult * list Stage * list EmailValidationResult :=
  let '(result, stages, pool) := performEmailCheck normalizedEmail pool in
  match (if enableCaching config then cacheSet normalizedEmail result
         else Fulfilled tt) with
  | RejectedWith message => errorResult normalizedEmail message pool
  | Fulfilled _ =>
      match updateMetrics result with
      | RejectedWith message => errorResult normalizedEmail message pool
      | Fulfilled _ => (result, stages, pool)
      end
  end.

Definition checkEmail (e : string) (pool : list EmailValidationResult)
  : EmailValidationResult * list Stage * list EmailValidationResult :=
  let normalizedEmail := trim (toLowerCase e) in
  if negb (emailPatternTest normalizedEmail)
  then
    let '(result, pool) := getPooledResult pool in
    (pushError (setValidationTime (setEmail result normalizedEmail) (now - startTime))
       "Invalid email format", [], pool)
  else if enableCaching config
  then
    match cacheGet normalizedEmail with
    | RejectedWith message => errorResult normalizedEmail message pool
    | Fulfilled (Some cached) => (setValidationTime cached (now - startTime), [], pool)
    | Fulfilled None => checkUncached normalizedEmail pool
    end
  else checkUncached normalizedEmail pool.
End Pipeline.

(** *** Batch checking *)

(** [for (i = 0; i < l.length; i += size) chunks.push(l.slice(i, i + size))] *)
Fixpoint chunksOf (fuel size : nat) (l : list string) : list (list string) :=
  match fuel with
  | O => []
  | S fuel' =>
      match l with
      | [] => []
      | _ => take size l :: chunksOf fuel' size (drop size l)
      end
  end.

(** [Math.min(50, Math.max(10, Math.floor(n / 4)))] *)
Definition chunkSize (n : nat) : nat := Nat.min 50 (Nat.max 10 (n / 4)).

Section Batch.
Context {Result : Type}.
Variable enableCaching : bool.
(** [this.cacheManager.get(email)], a truthy value or nothing. *)
Variable cacheGet : string -> option Result.
(** The value of the one call [this.checkEmail(email)] made for an
    email that missed the cache. *)
Variable checkEmail : string -> Result.

Definition normalize (e : string) : string := trim (toLowerCase e).

Definition cachedResult (e : string) : option Result :=
  if enableCaching then cacheGet e else None.

(** The loop separating cached from uncached emails. *)
Fixpoint separate (uniqueEmails : list string) (resultMap : gmap string Result)
    (uncachedEmails : list string) : gmap string Result * list string :=
  match uniqueEmails with
  | [] => (resultMap, uncachedEmails)
  | e :: rest =>
      match cachedResult e with
      | Some cached => separate rest (<[e := cached]> resultMap) uncachedEmails
      | None => separate rest resultMap (uncachedEmails ++ [e])
      end
  end.

(** The [then] callback of one chunk. *)
Definition storeChunk (resultMap : gmap string Result) (chunk : list string)
  : gmap string Result :=
  foldl (fun m e => <[e := checkEmail e]> m) resultMap chunk.

Definition uncachedChunks (emails : list string) : list (list string) :=
  let uniqueEmails := dedupe [] (map normalize emails) in
  let uncachedEmails := snd (separate uniqueEmails ∅ []) in
  chunksOf (length uncachedEmails) (chunkSize (length uncachedEmails)) uncachedEmails.

(** [checkEmailsBatch], with the chunks listed in the order in which
    their promises are fulfilled; [None] is [undefined]. *)
Definition checkEmailsBatchIn (completion : list (list string)) (emails : list string)
  : list (option Result) :=
  let normalizedEmails := map normalize emails in
  let uniqueEmails := dedupe [] normalizedEmails in
  let resultMap := fst (separate uniqueEmails ∅ []) in
  let resultMap := foldl storeChunk resultMap completion in
  map (fun e => resultMap !! e) normalizedEmails.

(** The chunks completing in the order they were started. *)
Definition checkEmailsBatch (emails : list string) : list (option Result) :=
  checkEmailsBatchIn (uncachedChunks emails) emails.
End Batch.

End Checker.

(** ** The rest of [EmailValidator] *)

Module Validator.
Import Js.

(** A regular expression, as far as the code looks at it: its source
    text and its [i] flag. *)
Record RegExp := { source : string; ignoreCase : bool }.

Definition SUSPICIOUS_PATTERNS : list RegExp :=
  [ {| source := "^\d+@"; ignoreCase := false |};
    {| source := "temp|throw|fake|trash|junk|spam|test|demo"; ignoreCase := true |};
    {| source := "^\w{1,3}@"; ignoreCase := false |};
    {| source := "\+.*@"; ignoreCase := false |};
    {| source := "^(no-?reply|noreply)@"; ignoreCase := true |};
    {| source := "\d{10,}@"; ignoreCase := false |} ].

Definition SUSPICIOUS_DOMAIN_PATTERNS : list RegExp :=
  [ {| source := "-temp-"; ignoreCase := false |};
    {| source := "-fake-"; ignoreCase := false |};
    {| source := "temp\d+"; ignoreCase := false |};
    {| source := "\d{5,}"; ignoreCase := false |} ].

Definition isDigit (c : ascii) : bool := (48 <=? code c) && (code c <=? 57).

(** [(s.match(/\d/g) || []).length] *)
Fixpoint countDigits (s : string) : nat :=
  match s with
  | EmptyString => O
  | String c s' => if isDigit c then S (countDigits s') else countDigits s'
  end.

Section Patterns.
(** [RegExp.prototype.test], for expressions without the [g] and [y]
    flags. *)
Variable test : RegExp -> string -> bool.

(** One turn of a loop [if (pattern.test(subject)) { score += points;
    warnings.push(label + pattern.source) }]. *)
Definition scorePattern (points : Z) (label subject : string)
    (acc : Z * list string) (pattern : RegExp) : Z * list string :=
  if test pattern subject
  then (fst acc + points, snd acc ++ [label +:+ source pattern])
  else acc.

(** [if (condition) { score += points; warnings.push(warning) }] *)
Definition scoreIf (condition : bool) (points : Z) (warning : string)
    (acc : Z * list string) : Z * list string :=
  if condition then (fst acc + points, snd acc ++ [warning]) else acc.

(** [analyzePatterns] before the final [Math.min].  The ratio
    [digits / length > 0.7] is compared as [10 * digits > 7 * length],
    which also is false for the empty local part, where the ratio is
    [NaN]. *)
Definition rawPatternScore (email localPart domain : string)
    (customPatterns : list RegExp) : Z * list string :=
  let acc := foldl (scorePattern 20 "Matches suspicious pattern: " email) (0, [])
               SUSPICIOUS_PATTERNS in
  let acc := foldl (scorePattern 25 "Matches custom pattern: " email) acc
               customPatterns in
  let acc := scoreIf (String.length localPart <=? 2)%nat 15 "Very short local part" acc in
  let acc := scoreIf (existsb (fun pattern => test pattern domain)
                        SUSPICIOUS_DOMAIN_PATTERNS)
               30 "Domain contains suspicious keywords" acc in
  let acc := scoreIf (7 * String.length localPart <? 10 * countDigits localPart)%nat
               20 "Local part is mostly numeric" acc in
  scoreIf (includes domain ".." || includes domain "--")
    25 "Domain has consecutive dots or dashes" acc.

Definition analyzePatterns (email localPart domain : string)
    (customPatterns : list RegExp) : Z * list string :=
  let acc := rawPatternScore email localPart domain customPatterns in
  (Z.min (fst acc) 100, snd acc).
End Patterns.


Section Deliverability.
Variable dnsConfig : Dns.DnsResolverConfig.
Variable resolveMx : string -> Z -> Settled (list MxRecord).
Variable resolveTxt : string -> Settled (list (list string)).
Variable connects : string -> bool.
Variable smtpConfig : Smtp.SmtpValidationConfig.
Variable net : string -> list Smtp.SocketEvent.
(** The readings of [Date.now()] at the start and the end of the DNS
    and of the SMTP validation. *)
Variables dnsStart dnsEnd smtpStart smtpEnd : Z.

(** [validateSmtpDeliverability]: the records are copied field by
    field and handed to [SmtpValidator.validateEmail]. *)
Definition validateSmtpDeliverability (e : string) (mxRecords : option (list MxRecord))
  : Smtp.SmtpValidationResult * list string :=
  Smtp.validateEmail smtpConfig net smtpStart smtpEnd e
    (map (fun mx => {| exchange := exchange mx; priority := priority mx |})
       <$> mxRecords).

End Deliverability.

End Validator.

(** ** Vocabulary of the design document *)

Module Spec.

(** The response code of a reply, as the client reads it. *)
Definition replyCode (chunk : string) : Js.jsnum :=
  Js.parseInt (Js.substring0 3 (Js.trim chunk)).

(** The text before the first "@" (all of [s] when it has none). *)
Fixpoint beforeAt (s : string) : string :=
  match s with
  | EmptyString => EmptyString
  | String c s' => if Ascii.eqb c "@" then EmptyString else String c (beforeAt s')
  end.

(** The text after the first "@", when there is one. *)
Fixpoint afterAt (s : string) : option string :=
  match s with
  | EmptyString => None
  | String c s' => if Ascii.eqb c "@" then Some s' else afterAt s'
  end.

(** The address splits into a non-empty local part and a non-empty
    domain around "@": there is an "@", the text before it is not
    empty, and the text after it, up to the next "@" if any, is not
    empty. *)
Definition splitsAroundAt (e : string) : bool :=
  match afterAt e with
  | Some rest =>
      negb (String.eqb (beforeAt e) "") && negb (String.eqb (beforeAt rest) "")
  | None => false
  end.

(** The servers of a list up to and including the first one that
    satisfies [ok]. *)
Fixpoint upToFirst (ok : string -> bool) (servers : list string) : list string :=
  match servers with
  | [] => []
  | s :: rest => if ok s then [s] else s :: upToFirst ok rest
  end.

(** The servers of a list before the first one that satisfies [ok]. *)
Fixpoint beforeFirst (ok : string -> bool) (servers : list string) : list string :=
  match servers with
  | [] => []
  | s :: rest => if ok s then [] else s :: beforeFirst ok rest
  end.

(** The chunks of the [Data] events, in order. *)
Definition replies (events : list Smtp.SocketEvent) : list string :=
  omap (fun ev => match ev with Smtp.Data chunk => Some chunk | _ => None end) events.

(** The replies a connection delivers before anything else than
    [connect] and [data] happens on it. *)
Fixpoint leadingReplies (events : list Smtp.SocketEvent) : list string :=
  match events with
  | Smtp.Connect :: rest => leadingReplies rest
  | Smtp.Data chunk :: rest => chunk :: leadingReplies rest
  | _ => []
  end.

(** The operations submitted by a list of events, in order. *)
Definition submitted (events : list Gate.Event) : list nat :=
  omap (fun ev => match ev with Gate.Submit op => Some op | _ => None end) events.

(** Every operation submitted so far is in exactly one place, and the
    counter counts the operations admitted directly. *)
Definition gateInvariant (concurrency : Z) (s : Gate.State) (ops : list nat) : Prop :=
  NoDup ops ∧
  ops ≡ₚ Gate.requestQueue s ++ Gate.immediates s ++ Gate.admitted s
         ++ Gate.dequeued s ++ Gate.settled s ∧
  Gate.activeRequests s = Z.of_nat (length (Gate.admitted s)) ∧
  Gate.activeRequests s <= Z.max 0 concurrency.

(** Ascending priority. *)
Definition ascending (l : list MxRecord) : Prop :=
  StronglySorted (fun a b => priority a <= priority b) l.

(** The queries and sleeps of [k] consecutive attempts starting with
    attempt [a], of which attempt [last] is the last one made: every
    attempt but the last is followed by its back-off sleep. *)
Definition schedule (a : Z) (k : nat) (last : Z) : list Dns.Effect :=
  flat_map
    (fun i =>
       Dns.Query i ::
       if i <? last then [Dns.Sleep (Z.min (1000 * 2 ^ (i - 1)) 5000)] else [])
    (seqZ a (Z.of_nat k)).


(** What the [catch] block of [checkEmail] leaves in its result. *)
Definition failureReport (elapsed : Z) (normalizedEmail message : string)
    (r : Checker.EmailValidationResult) : Prop :=
  Checker.email r = normalizedEmail ∧ Checker.isValid r = false ∧
  Checker.isDisposable r = false ∧ Checker.isAllowed r = false ∧
  Checker.isBlacklisted r = false ∧ Checker.domain r = "" ∧
  Checker.localPart r = "" ∧ Checker.matchType r = Checker.none ∧
  Checker.confidence r = 0 ∧ Checker.validationTime r = elapsed ∧
  Checker.errors r = [message] ∧ Checker.warnings r = [].

End Spec.

(** ** Scenarios *)

Module Scenario.
Import Smtp.

(** A server that completes the dialogue and refuses the recipient. *)
Definition refusesRecipient : list SocketEvent :=
  [ Connect;
    Data ("220 mx.example.com ESMTP" +:+ crlf);
    Data ("250 mx.example.com" +:+ crlf);
    Data ("250 2.1.0 Ok" +:+ crlf);
    Data ("550 5.1.1 User unknown" +:+ crlf);
    Data ("221 2.0.0 Bye" +:+ crlf) ].

(** A server that accepts the recipient. *)
Definition acceptsRecipient : list SocketEvent :=
  [ Data "220 mx.example.com ESMTP"; Data "250 mx.example.com";
    Data "250 2.1.0 Ok"; Data "250 2.1.5 Ok"; Data "221 2.0.0 Bye" ].

(** A server that greets and then refuses [HELO]. *)
Definition refusesHelo : list SocketEvent :=
  [ Data ("220 mx.example.com ESMTP" +:+ crlf);
    Data ("550 Access denied" +:+ crlf) ].

(** The same server, with the [connect] event that precedes its
    greeting. *)
Definition connectedRefusesHelo : list SocketEvent := Connect :: refusesHelo.

(** The default configuration with a port that is no port. *)
Definition badPortConfig : SmtpValidationConfig :=
  {| timeout := 10000; port := 70000;
     fromEmail := "test@example.com"; helo := "mail.example.com" |}.

(** Two exchangers listed with the less preferred one first. *)
Definition unsortedMx : list MxRecord :=
  [ {| exchange := "mx20.example.com"; priority := 20 |};
    {| exchange := "mx10.example.com"; priority := 10 |} ].

(** An orchestrator configuration with caching on and the network
    probes off, and collaborators for it: "example.com" is the only
    allowlisted domain, nothing is cached, nothing fails. *)
Definition checkerConfig : Checker.EmailCheckerConfig :=
  {| Checker.strictValidation := false; Checker.checkMxRecord := false;
     Checker.checkSmtpDeliverability := false;
     Checker.enablePatternMatching := true; Checker.enableCaching := true;
     Checker.dnsValidationConfig := Some Dns.defaultConfig |}.

Definition noMatch : Checker.MatchResult :=
  {| Checker.isMatch := false; Checker.match_matchType := Checker.none;
     Checker.match_confidence := 0; Checker.match_source := None |}.

Definition checkScenario (e : string)
  : Checker.EmailValidationResult * list Checker.Stage
    * list Checker.EmailValidationResult :=
  Checker.checkEmail checkerConfig (fun _ _ => true)
    (fun d => String.eqb d "example.com") (fun _ => noMatch) (fun _ => noMatch)
    unit [] (fun _ _ _ _ => (0, []))
    (fun _ => RejectedWith "unused") (fun _ => Fulfilled true)
    (fun _ _ => RejectedWith "unused") 0 3
    (fun _ => true) (fun _ => Fulfilled None) (fun _ _ => Fulfilled tt)
    (fun _ => Fulfilled tt) e Checker.resultPool.

(** Twelve inputs, eleven distinct addresses after normalization: one
    more than fits in a chunk. *)
Definition elevenEmails : list string :=
  [ "u0@x.com"; "u1@x.com"; "u2@x.com"; "u3@x.com"; "u4@x.com"; "u5@x.com";
    "u6@x.com"; "u7@x.com"; "u8@x.com"; "u9@x.com"; "U0@x.com "; "u10@x.com" ].

(** An exchanger list whose first server refuses [HELO] and whose
    second one accepts the recipient. *)
Definition twoServers : list MxRecord :=
  [ {| exchange := "mx1.example.com"; priority := 10 |};
    {| exchange := "mx2.example.com"; priority := 20 |} ].

Definition twoServerNet (server : string) : list SocketEvent :=
  if String.eqb server "mx1.example.com" then refusesHelo else acceptsRecipient.

(** A resolver limited to two cache entries, and a full cache for it. *)
Definition smallCache : Dns.DnsResolverConfig :=
  {| Dns.timeout := 5000; Dns.retries := 3; Dns.enableCaching := true;
     Dns.cacheSize := 2; Dns.cacheTtl := 100; Dns.concurrency := 2;
     Dns.validateMxConnectivity := false; Dns.checkSpfRecord := false;
     Dns.checkDmarcRecord := false |}.

Definition twoEntries : list (string * Dns.DnsCache bool) :=
  [ ("mx:a.test", {| Dns.result := true; Dns.timestamp := 0; Dns.ttl := 100 |});
    ("mx:b.test", {| Dns.result := false; Dns.timestamp := 50; Dns.ttl := 100 |}) ].

(** Three operations offered to a gate of width two: the third waits,
    is released when the first settles, and settles itself. *)
Definition gateEvents : list Gate.Event :=
  [ Gate.Submit 1; Gate.Submit 2; Gate.Submit 3; Gate.Settle 1;
    Gate.RunImmediate; Gate.Settle 3 ].

(** An orchestrator configuration with both network probes on and the
    plain MX lookup selected, for a domain without exchanger and a
    mailbox the probe does not confirm. *)
Definition probingConfig : Checker.EmailCheckerConfig :=
  {| Checker.strictValidation := false; Checker.checkMxRecord := true;
     Checker.checkSmtpDeliverability := true;
     Checker.enablePatternMatching := true; Checker.enableCaching := true;
     Checker.dnsValidationConfig := Some Dns.defaultConfig |}.

Definition unconfirmed (e : string) (mx : option (list MxRecord))
  : Settled SmtpValidationResult :=
  Fulfilled (emptyResult e).

Definition probeScenario (e : string)
  : Checker.EmailValidationResult * list Checker.Stage
    * list Checker.EmailValidationResult :=
  Checker.performEmailCheck probingConfig (fun _ _ => true)
    (fun _ => false) (fun _ => noMatch) (fun _ => noMatch)
    unit [] (fun _ _ _ _ => (0, []))
    (fun _ => RejectedWith "unused") (fun _ => Fulfilled false)
    unconfirmed 0 3 e Checker.resultPool.

(** [checkScenario] with a cache whose writes fail. *)
Definition failingCacheScenario (e : string)
  : Checker.EmailValidationResult * list Checker.Stage
    * list Checker.EmailValidationResult :=
  Checker.checkEmail checkerConfig (fun _ _ => true)
    (fun d => String.eqb d "example.com") (fun _ => noMatch) (fun _ => noMatch)
    unit [] (fun _ _ _ _ => (0, []))
    (fun _ => RejectedWith "unused") (fun _ => Fulfilled true)
    (fun _ _ => RejectedWith "unused") 0 3
    (fun _ => true) (fun _ => Fulfilled None)
    (fun _ _ => RejectedWith "cache unavailable")
    (fun _ => Fulfilled tt) e Checker.resultPool.

End Scenario.

(** * Properties *)

(** ** JavaScript built-ins *)

Example parseInt_250 : Js.parseInt (Js.substring0 3 "250 OK") = Js.Num 250.
Proof. reflexivity. Qed.

Example parseInt_nan : Js.parseInt (Js.substring0 3 "oops") = Js.NaN.
Proof. reflexivity. Qed.

Example parseInt_hex : Js.parseInt "0x1f" = Js.Num 31.
Proof. reflexivity. Qed.

Example split_two_ats : Js.split "@" "a@b@c" = ["a"; "b"; "c"].
Proof. reflexivity. Qed.

Example trim_crlf :
  Js.trim (" 220 ready" +:+ String "013" (String "010" "")) = "220 ready".
Proof. reflexivity. Qed.

Example dedupe_first : Js.dedupe [] ["a"; "b"; "a"; "c"; "b"] = ["a"; "b"; "c"].
Proof. reflexivity. Qed.

Lemma split_not_nil sep s : Js.split sep s ≠ [].
Proof. destruct s as [|c s]; simpl; [done|]. repeat case_match; done. Qed.

Lemma split_beforeAt_afterAt s :
  Js.split "@" s =
  Spec.beforeAt s :: match Spec.afterAt s with
                     | Some rest => Js.split "@" rest
                     | None => []
                     end.
Proof.
  induction s as [|c s IH]; simpl; [done|].
  destruct (Ascii.eqb c "@"); [done|]. by rewrite IH.
Qed.

(** The test of [validateEmail] is the negation of [splitsAroundAt]. *)
Lemma invalidFormat_spec e : Smtp.invalidFormat e = negb (Spec.splitsAroundAt e).
Proof.
  unfold Smtp.invalidFormat, Spec.splitsAroundAt.
  rewrite split_beforeAt_afterAt. simpl.
  destruct (Spec.afterAt e) as [rest|]; simpl.
  - rewrite split_beforeAt_afterAt. simpl.
    destruct (Spec.beforeAt e), (Spec.beforeAt rest); done.
  - by rewrite orb_true_r.
Qed.

Lemma beforeAt_afterAt s rest :
  Spec.afterAt s = Some rest → s = Spec.beforeAt s +:+ String "@" rest.
Proof.
  induction s as [|c s IH]; simpl; [done|].
  destruct (Ascii.eqb c "@") eqn:Hc.
  - apply Ascii.eqb_eq in Hc. by intros [= ->]; subst.
  - intros H.
    change (String c s = String c (Spec.beforeAt s +:+ String "@" rest)).
    f_equal. by apply IH.
Qed.

(** An address that [splitsAroundAt] accepts has an "@" with text on
    both sides: the addresses with a missing "@", an empty local part
    or an empty domain are among those it refuses. *)
Lemma splitsAroundAt_interior e :
  Spec.splitsAroundAt e = true →
  ∃ l d, l ≠ "" ∧ d ≠ "" ∧ e = l +:+ String "@" d.
Proof.
  unfold Spec.splitsAroundAt.
  destruct (Spec.afterAt e) as [rest|] eqn:Hafter; [|done].
  intros [Hl Hd]%andb_true_iff.
  exists (Spec.beforeAt e), rest. split; [|split].
  - intros Heq. by rewrite Heq in Hl.
  - intros ->. done.
  - by apply beforeAt_afterAt.
Qed.

(** ** SMTP engine *)

Section SmtpProperties.
Import Smtp.
Variable config : SmtpValidationConfig.
Variable net : string -> list SocketEvent.
Variables t0 t1 : Z.

(** The value [testSmtpConnection] resolves with. *)
Let outcome (rcpt server : string) : SmtpConnectionResult :=
  runDialogue config server rcpt initialDialogue (net server).

Let failureMessage (rcpt server : string) : string :=
  Js.orElse (conn_error (outcome rcpt server)) "Unable to verify mailbox via SMTP".

(** A dialogue that runs through all five replies resolves with
    [isValid = true] and with [isDeliverable] saying whether the
    recipient was accepted. *)
Lemma completed_dialogue server rcpt g h m r q rest :
  Js.strictEq (Spec.replyCode g) 220 = true →
  Js.strictEq (Spec.replyCode h) 250 = true →
  Js.strictEq (Spec.replyCode m) 250 = true →
  runDialogue config server rcpt initialDialogue
    (Data g :: Data h :: Data m :: Data r :: Data q :: rest) =
  {| conn_isValid := true;
     conn_isDeliverable := Some (Js.strictEq (Spec.replyCode r) 250);
     conn_mxRecord := Some server;
     conn_responseCode := Some (Spec.replyCode q);
     conn_responseMessage := Some (Js.trim q);
     conn_error := None |}.
Proof.
  unfold Spec.replyCode. intros Hg Hh Hm.
  cbn [runDialogue onData initialDialogue step]. rewrite Hg.
  cbn [advance step onData runDialogue]. rewrite Hh.
  cbn [advance step onData runDialogue]. rewrite Hm.
  reflexivity.
Qed.

(** A refused [HELO] resolves the attempt with the "HELO failed"
    message as its error. *)
Lemma helo_refused server rcpt g h rest :
  Js.strictEq (Spec.replyCode g) 220 = true →
  Js.strictEq (Spec.replyCode h) 250 = false →
  runDialogue config server rcpt initialDialogue (Data g :: Data h :: rest) =
  {| conn_isValid := false; conn_isDeliverable := Some false;
     conn_mxRecord := None;
     conn_responseCode := Some (Spec.replyCode h);
     conn_responseMessage := Some (Js.trim h);
     conn_error := Some ("HELO failed: " +:+ Js.trim h) |}.
Proof.
  unfold Spec.replyCode. intros Hg Hh.
  cbn [runDialogue onData initialDialogue step]. rewrite Hg.
  cbn [advance step onData runDialogue]. rewrite Hh.
  reflexivity.
Qed.

(** A refused [HELO], whatever [connect] events come between the
    replies. *)
Lemma helo_refused_at_step_1 server rcpt d h rest events :
  step d = 1%nat →
  Spec.leadingReplies events = h :: rest →
  Js.strictEq (Spec.replyCode h) 250 = false →
  runDialogue config server rcpt d events =
  {| conn_isValid := false; conn_isDeliverable := Some false;
     conn_mxRecord := None;
     conn_responseCode := Some (Spec.replyCode h);
     conn_responseMessage := Some (Js.trim h);
     conn_error := Some ("HELO failed: " +:+ Js.trim h) |}.
Proof.
  unfold Spec.replyCode. intros Hstep Hlead Hh.
  induction events as [|ev events IH]; [done|].
  destruct ev as [|chunk|message|]; simpl in Hlead; try done.
  - simpl. by apply IH.
  - injection Hlead as -> _. cbn [runDialogue]. unfold onData.
    rewrite Hstep, Hh. done.
Qed.

Lemma helo_refused_leading server rcpt g h rest events :
  Spec.leadingReplies events = g :: h :: rest →
  Js.strictEq (Spec.replyCode g) 220 = true →
  Js.strictEq (Spec.replyCode h) 250 = false →
  runDialogue config server rcpt initialDialogue events =
  {| conn_isValid := false; conn_isDeliverable := Some false;
     conn_mxRecord := None;
     conn_responseCode := Some (Spec.replyCode h);
     conn_responseMessage := Some (Js.trim h);
     conn_error := Some ("HELO failed: " +:+ Js.trim h) |}.
Proof.
  intros Hlead Hg Hh.
  induction events as [|ev events IH]; [done|].
  destruct ev as [|chunk|message|]; simpl in Hlead; try done.
  - simpl. by apply IH.
  - injection Hlead as -> Hrest. cbn [runDialogue onData initialDialogue step].
    unfold Spec.replyCode in Hg. rewrite Hg.
    by apply (helo_refused_at_step_1 server rcpt _ h rest).
Qed.

(** The attempt at a server is valid: the port is accepted and the
    dialogue succeeds. *)
Let attemptOk (rcpt server : string) : bool :=
  validPort (port config) && conn_isValid (outcome rcpt server).

Lemma testSmtpConnection_valid_port server rcpt :
  validPort (port config) = true →
  testSmtpConnection config net server rcpt = Resolved (outcome rcpt server).
Proof. unfold testSmtpConnection. by intros ->. Qed.

Lemma testSmtpConnection_bad_port server rcpt :
  validPort (port config) = false →
  testSmtpConnection config net server rcpt = Rejected (portRangeError (port config)).
Proof. unfold testSmtpConnection. by intros ->. Qed.

Lemma tryServers_attempted rcpt servers result attempted :
  snd (tryServers (testSmtpConnection config net) rcpt servers result attempted) =
  attempted ++ Spec.upToFirst (attemptOk rcpt) servers.
Proof.
  revert result attempted.
  induction servers as [|s servers IH]; intros result attempted; simpl.
  - by rewrite app_nil_r.
  - unfold testSmtpConnection at 1, attemptOk at 1. fold (outcome rcpt s).
    destruct (validPort (port config)); simpl.
    + destruct (conn_isValid (outcome rcpt s)); simpl; [done|].
      rewrite IH. by rewrite <- app_assoc.
    + rewrite IH. by rewrite <- app_assoc.
Qed.

Lemma tryServers_all_fail rcpt servers result attempted :
  validPort (port config) = true →
  (∀ s, s ∈ servers → conn_isValid (outcome rcpt s) = false) →
  fst (tryServers (testSmtpConnection config net) rcpt servers result attempted) =
  foldl pushWarning result (map (failureMessage rcpt) servers).
Proof.
  intros Hport. revert result attempted.
  induction servers as [|s servers IH]; intros result attempted Hall; simpl; [done|].
  rewrite testSmtpConnection_valid_port by done.
  rewrite (Hall s) by apply list_elem_of_here.
  apply IH. intros s' Hs'. apply Hall. by apply list_elem_of_further.
Qed.

Lemma foldl_pushWarning result ws :
  let r := foldl pushWarning result ws in
  isValid r = isValid result ∧ isMailboxValid r = isMailboxValid result ∧
  errors r = errors result ∧ warnings r = warnings result ++ ws ∧
  domain r = domain result ∧ email r = email result.
Proof.
  revert result. induction ws as [|w ws IH]; intros result; simpl.
  - by rewrite app_nil_r.
  - destruct (IH (pushWarning result w)) as (-> & -> & -> & -> & -> & ->).
    simpl. by rewrite <- app_assoc.
Qed.

Lemma foldl_pushError result es :
  foldl pushError result es =
  {| email := email result; domain := domain result; isValid := isValid result;
     isMailboxValid := isMailboxValid result; mxRecord := mxRecord result;
     responseCode := responseCode result; responseMessage := responseMessage result;
     validationTime := validationTime result; errors := errors result ++ es;
     warnings := warnings result |}.
Proof.
  revert result. induction es as [|x es IH]; intros result; simpl.
  - rewrite app_nil_r. by destruct result.
  - rewrite IH. simpl. by rewrite <- app_assoc.
Qed.

(** With a port that [socket.connect] refuses every attempt throws:
    each server gives one entry of [errors] and nothing else changes. *)
Lemma tryServers_bad_port rcpt servers result attempted :
  validPort (port config) = false →
  tryServers (testSmtpConnection config net) rcpt servers result attempted =
  (foldl pushError result
     (map (fun _ => "SMTP validation failed: " +:+ portRangeError (port config))
        servers),
   attempted ++ servers).
Proof.
  intros Hport. revert result attempted.
  induction servers as [|s servers IH]; intros result attempted; simpl.
  - by rewrite app_nil_r.
  - rewrite testSmtpConnection_bad_port by done. rewrite IH.
    by rewrite <- app_assoc.
Qed.

Lemma tryServers_flags rcpt servers result attempted :
  isMailboxValid result = isValid result →
  let r := fst (tryServers (testSmtpConnection config net) rcpt servers result attempted) in
  isMailboxValid r = isValid r.
Proof.
  revert result attempted.
  induction servers as [|s servers IH]; intros result attempted Hinv; simpl; [done|].
  destruct (validPort (port config)) eqn:Hport.
  - rewrite testSmtpConnection_valid_port by done.
    destruct (conn_isValid (outcome rcpt s)) eqn:Hok; simpl; [done|].
    apply IH. exact Hinv.
  - rewrite testSmtpConnection_bad_port by done. apply IH. exact Hinv.
Qed.

(** With an accepted port: the warnings of the servers before the
    first valid one, then the data of that one. *)
Lemma tryServers_result rcpt servers result attempted :
  let ok := fun s => conn_isValid (outcome rcpt s) in
  let base := foldl pushWarning result
                (map (failureMessage rcpt) (Spec.beforeFirst ok servers)) in
  validPort (port config) = true →
  fst (tryServers (testSmtpConnection config net) rcpt servers result attempted) =
  match find ok servers with
  | Some s => recordSuccess base (outcome rcpt s)
  | None => base
  end.
Proof.
  intros ok base Hport. subst base. revert result attempted.
  induction servers as [|s servers IH]; intros result attempted; simpl; [done|].
  rewrite testSmtpConnection_valid_port by done. fold (ok s).
  destruct (ok s) eqn:Hok; simpl; [done|]. apply IH.
Qed.

Lemma validateEmail_result (e : string) (mx : option (list MxRecord)) :
  let ok := fun s => conn_isValid (outcome e s) in
  let servers := candidateServers mx (domainOf e) in
  let base := foldl pushWarning (setDomain (emptyResult e) (domainOf e))
                (map (failureMessage e) (Spec.beforeFirst ok servers)) in
  Spec.splitsAroundAt e = true →
  validPort (port config) = true →
  fst (validateEmail config net t0 t1 e mx) =
  setValidationTime
    (match find ok servers with
     | Some s => recordSuccess base (outcome e s)
     | None => base
     end) (t1 - t0).
Proof.
  intros ok servers base Hsplit Hport.
  unfold validateEmail, validateEmailWith. rewrite invalidFormat_spec, Hsplit. simpl.
  destruct (tryServers _ _ _ _ _) as [r' att] eqn:E. simpl. f_equal.
  change r' with (fst (r', att)). rewrite <- E. by apply tryServers_result.
Qed.

Lemma validateEmail_bad_port (e : string) (mx : option (list MxRecord)) :
  Spec.splitsAroundAt e = true →
  validPort (port config) = false →
  validateEmail config net t0 t1 e mx =
  ({| email := e; domain := domainOf e; isValid := false; isMailboxValid := false;
      mxRecord := None; responseCode := None; responseMessage := None;
      validationTime := t1 - t0;
      errors := map (fun _ => "SMTP validation failed: "
                              +:+ portRangeError (port config))
                  (candidateServers mx (domainOf e));
      warnings := [] |},
   candidateServers mx (domainOf e)).
Proof.
  intros Hsplit Hport.
  unfold validateEmail, validateEmailWith. rewrite invalidFormat_spec, Hsplit. simpl.
  rewrite tryServers_bad_port by done. by rewrite foldl_pushError.
Qed.

(** The servers a connection is attempted to. *)
Lemma validateEmail_attempted (e : string) (mx : option (list MxRecord)) :
  snd (validateEmail config net t0 t1 e mx) =
  if Spec.splitsAroundAt e
  then Spec.upToFirst (attemptOk e) (candidateServers mx (domainOf e))
  else [].
Proof.
  unfold validateEmail, validateEmailWith. rewrite invalidFormat_spec.
  destruct (Spec.splitsAroundAt e); simpl; [|done].
  destruct (tryServers _ _ _ _ _) as [r' att] eqn:E. simpl.
  change att with (snd (r', att)). rewrite <- E.
  by rewrite tryServers_attempted.
Qed.

(** When the result is valid. *)
Lemma validateEmail_isValid (e : string) (mx : option (list MxRecord)) :
  isValid (fst (validateEmail config net t0 t1 e mx)) =
  Spec.splitsAroundAt e
  && existsb (attemptOk e) (candidateServers mx (domainOf e)).
Proof.
  destruct (Spec.splitsAroundAt e) eqn:Hsplit; simpl.
  - unfold attemptOk. destruct (validPort (port config)) eqn:Hport; simpl.
    + rewrite validateEmail_result by done.
      set (ok := fun s => conn_isValid (outcome e s)).
      set (servers := candidateServers mx (domainOf e)).
      change (existsb _ servers) with (existsb ok servers).
      destruct (find ok servers) as [s|] eqn:Hf; simpl.
      * apply find_some in Hf as [Hin Hok]. symmetry.
        apply existsb_exists. eauto.
      * destruct (foldl_pushWarning (setDomain (emptyResult e) (domainOf e))
                    (map (failureMessage e) (Spec.beforeFirst ok servers)))
          as (-> & _).
        simpl. symmetry. apply not_true_is_false.
        intros (s & Hin & Hok)%existsb_exists.
        by rewrite (find_none _ _ Hf s Hin) in Hok.
    + rewrite validateEmail_bad_port by done. simpl. symmetry.
      by induction (candidateServers mx (domainOf e)).
  - unfold validateEmail, validateEmailWith. by rewrite invalidFormat_spec, Hsplit.
Qed.

Lemma upToFirst_failed (ok : string → bool) servers s :
  s ∈ Spec.upToFirst ok servers → ok s = false → s ∈ Spec.beforeFirst ok servers.
Proof.
  intros Hin Hbad. induction servers as [|x servers IH]; simpl in *; [done|].
  destruct (ok x) eqn:Hx.
  - apply list_elem_of_singleton in Hin. congruence.
  - apply elem_of_cons in Hin as [->|Hin]; [apply list_elem_of_here|].
    apply list_elem_of_further. by apply IH.
Qed.

(** [isMailboxValid] always equals [isValid]: the recipient's
    response code has no influence on it. *)
Lemma mailbox_valid_is_isValid e mx :
  let r := fst (validateEmail config net t0 t1 e mx) in
  isMailboxValid r = isValid r.
Proof.
  unfold validateEmail, validateEmailWith.
  destruct (invalidFormat e); [done|].
  destruct (tryServers _ _ _ _ _) as [r att] eqn:E.
  simpl. change r with (fst (r, att)). rewrite <- E.
  by apply tryServers_flags.
Qed.
End SmtpProperties.

(** C1, evaluated on the code: a server completes the dialogue and
    answers [RCPT TO] with 550, and the result of [validateEmail] still
    has [isMailboxValid = true], because that field is copied from the
    attempt's [isValid] and not from its [isDeliverable]. *)
Theorem smtp_refused_recipient_reported_valid :
  let net := fun _ : string => Scenario.refusesRecipient in
  let r := fst (Smtp.validateEmail Smtp.defaultConfig net 0 1 "ghost@example.com" None) in
  Spec.replyCode ("550 5.1.1 User unknown" +:+ Smtp.crlf) = Js.Num 550 ∧
  Smtp.conn_isDeliverable
    (Smtp.runDialogue Smtp.defaultConfig "example.com" "ghost@example.com"
       Smtp.initialDialogue Scenario.refusesRecipient) = Some false ∧
  Smtp.isValid r = true ∧
  Smtp.isMailboxValid r = true ∧
  Smtp.responseCode r = Some (Js.Num 221).
Proof. vm_compute. done. Qed.

Example smtp_accepted_recipient :
  let net := fun _ : string => Scenario.acceptsRecipient in
  let r := fst (Smtp.validateEmail Smtp.defaultConfig net 0 1 "user@example.com" None) in
  Smtp.isValid r = true ∧ Smtp.isMailboxValid r = true ∧
  Smtp.responseCode r = Some (Js.Num 221) ∧
  Smtp.mxRecord r = Some "example.com".
Proof. vm_compute. done. Qed.

(** C3 as stated fails: after a greeting 220 and a 550 answer to
    [HELO], no entry of [errors] contains "HELO failed"; the message is
    a warning. *)
Lemma smtp_helo_failure_not_among_errors :
  let net := fun _ : string => Scenario.connectedRefusesHelo in
  let r := fst (Smtp.validateEmail Smtp.defaultConfig net 0 1 "user@example.com" None) in
  Smtp.isValid r = false ∧
  existsb (fun m => Js.includes m "HELO failed") (Smtp.errors r) = false ∧
  Smtp.errors r = [] ∧
  Smtp.warnings r = ["HELO failed: 550 Access denied"].
Proof. vm_compute. done. Qed.

(** C3, amended.  For a well-formed address and a port that
    [socket.connect] accepts (an integer from 0 to 65535): a server
    that is attempted and whose first two replies, received before any
    error or close of the connection, are a greeting with code 220 and
    an answer to [HELO] with another code than 250, fails its attempt
    with the error "HELO failed: <reply>", and that message is among
    the warnings of the result; [errors] is empty; and when the
    dialogue of no candidate server succeeds, the result has
    [isValid = false], [isMailboxValid = false] and exactly one warning
    per candidate server, in order: the error of that server's
    attempt.  For a port outside that range every attempt throws before
    a connection is made: the result has [isValid = false],
    [isMailboxValid = false], no warning, and one entry of [errors] per
    candidate server. *)
Theorem smtp_failed_servers_become_warnings
    (config : Smtp.SmtpValidationConfig) (net : string → list Smtp.SocketEvent)
    (t0 t1 : Z) (e : string) (mx : option (list MxRecord)) :
  let outcome := fun server =>
    Smtp.runDialogue config server e Smtp.initialDialogue (net server) in
  let servers := Smtp.candidateServers mx (Smtp.domainOf e) in
  let r := fst (Smtp.validateEmail config net t0 t1 e mx) in
  let attempted := snd (Smtp.validateEmail config net t0 t1 e mx) in
  Spec.splitsAroundAt e = true →
  (Smtp.validPort (Smtp.port config) = true →
     (∀ server g h rest,
        server ∈ attempted →
        Spec.leadingReplies (net server) = g :: h :: rest →
        Js.strictEq (Spec.replyCode g) 220 = true →
        Js.strictEq (Spec.replyCode h) 250 = false →
        Smtp.conn_isValid (outcome server) = false ∧
        Smtp.conn_error (outcome server) = Some ("HELO failed: " +:+ Js.trim h) ∧
        ("HELO failed: " +:+ Js.trim h) ∈ Smtp.warnings r) ∧
     Smtp.errors r = [] ∧
     ((∀ server, server ∈ servers → Smtp.conn_isValid (outcome server) = false) →
        Smtp.isValid r = false ∧
        Smtp.isMailboxValid r = false ∧
        Smtp.warnings r =
          map (fun server =>
                 Js.orElse (Smtp.conn_error (outcome server))
                   "Unable to verify mailbox via SMTP") servers)) ∧
  (Smtp.validPort (Smtp.port config) = false →
     Smtp.isValid r = false ∧
     Smtp.isMailboxValid r = false ∧
     Smtp.warnings r = [] ∧
     Smtp.errors r =
       map (fun _ => "SMTP validation failed: "
                     +:+ Smtp.portRangeError (Smtp.port config)) servers).
Proof.
  intros outcome servers r attempted Hsplit.
  set (message := fun server =>
         Js.orElse (Smtp.conn_error (outcome server))
           "Unable to verify mailbox via SMTP").
  split.
  - intros Hport.
    set (ok := fun server => Smtp.conn_isValid (outcome server)).
    set (base := foldl Smtp.pushWarning
                   (Smtp.setDomain (Smtp.emptyResult e) (Smtp.domainOf e))
                   (map message (Spec.beforeFirst ok servers))).
    assert (Hr : r = Smtp.setValidationTime
                       (match find ok servers with
                        | Some s => Smtp.recordSuccess base (outcome s)
                        | None => base
                        end) (t1 - t0))
      by exact (validateEmail_result config net t0 t1 e mx Hsplit Hport).
    destruct (foldl_pushWarning
                (Smtp.setDomain (Smtp.emptyResult e) (Smtp.domainOf e))
                (map message (Spec.beforeFirst ok servers)))
      as (Hv & Hm & He & Hw & _).
    fold base in Hv, Hm, He, Hw. simpl in Hv, Hm, He, Hw.
    assert (Hwarn : Smtp.warnings r = map message (Spec.beforeFirst ok servers)).
    { rewrite Hr. by destruct (find ok servers). }
    split; [|split].
    + intros server g h rest Hin Hlead Hg Hh.
      assert (Hout : outcome server =
                {| Smtp.conn_isValid := false; Smtp.conn_isDeliverable := Some false;
                   Smtp.conn_mxRecord := None;
                   Smtp.conn_responseCode := Some (Spec.replyCode h);
                   Smtp.conn_responseMessage := Some (Js.trim h);
                   Smtp.conn_error := Some ("HELO failed: " +:+ Js.trim h) |})
        by (by apply (helo_refused_leading config server e g h rest)).
      rewrite Hout. simpl. split; [done|]. split; [done|].
      rewrite Hwarn. apply list_elem_of_fmap. exists server. split.
      * subst message. simpl. by rewrite Hout.
      * apply upToFirst_failed; [|by unfold ok; rewrite Hout].
        subst attempted. rewrite validateEmail_attempted, Hsplit, Hport in Hin.
        exact Hin.
    + rewrite Hr. by destruct (find ok servers).
    + intros Hall.
      assert (Hnone : find ok servers = None).
      { destruct (find ok servers) as [s|] eqn:Hf; [|done].
        apply find_some in Hf as [Hin%list_elem_of_In Hok]. unfold ok in Hok.
        by rewrite (Hall s Hin) in Hok. }
      assert (Hbefore : Spec.beforeFirst ok servers = servers).
      { clear -Hall. induction servers as [|s servers IH]; simpl; [done|].
        unfold ok at 1. rewrite (Hall s) by apply list_elem_of_here.
        f_equal. apply IH. intros s' Hs'. apply Hall. by apply list_elem_of_further. }
      rewrite Hwarn, Hbefore. rewrite Hr, Hnone. simpl. by rewrite Hv, Hm.
  - intros Hport. subst r.
    by rewrite (validateEmail_bad_port config net t0 t1 e mx Hsplit Hport).
Qed.

(** The theorem applied to two exchangers that both greet and then
    refuse [HELO], with the default port and with port 70000. *)
Lemma smtp_failed_servers_become_warnings_witness :
  let net := fun _ : string => Scenario.connectedRefusesHelo in
  let e := "user@example.com" in
  let mx := Some Scenario.unsortedMx in
  let r := fst (Smtp.validateEmail Smtp.defaultConfig net 0 1 e mx) in
  let r' := fst (Smtp.validateEmail Scenario.badPortConfig net 0 1 e mx) in
  Spec.splitsAroundAt e = true ∧
  Smtp.validPort (Smtp.port Smtp.defaultConfig) = true ∧
  Smtp.validPort (Smtp.port Scenario.badPortConfig) = false ∧
  "mx20.example.com" ∈ snd (Smtp.validateEmail Smtp.defaultConfig net 0 1 e mx) ∧
  Spec.leadingReplies (net "mx20.example.com") =
    [ "220 mx.example.com ESMTP" +:+ Smtp.crlf; "550 Access denied" +:+ Smtp.crlf ] ∧
  ("HELO failed: " +:+ Js.trim ("550 Access denied" +:+ Smtp.crlf)) ∈ Smtp.warnings r ∧
  Smtp.isValid r = false ∧ Smtp.isMailboxValid r = false ∧ Smtp.errors r = [] ∧
  length (Smtp.warnings r) = 2%nat ∧
  Smtp.warnings r' = [] ∧ length (Smtp.errors r') = 2%nat.
Proof.
  intros net e mx r r'.
  assert (Hfmt : Spec.splitsAroundAt e = true) by reflexivity.
  assert (Hport : Smtp.validPort (Smtp.port Smtp.defaultConfig) = true) by reflexivity.
  assert (Hbad : Smtp.validPort (Smtp.port Scenario.badPortConfig) = false)
    by reflexivity.
  assert (Hin : "mx20.example.com"
                ∈ snd (Smtp.validateEmail Smtp.defaultConfig net 0 1 e mx))
    by (vm_compute; apply list_elem_of_here).
  assert (Hlead : Spec.leadingReplies (net "mx20.example.com") =
                  [ "220 mx.example.com ESMTP" +:+ Smtp.crlf;
                    "550 Access denied" +:+ Smtp.crlf ]) by reflexivity.
  assert (Hall : ∀ server, server ∈ Smtp.candidateServers mx (Smtp.domainOf e) →
            Smtp.conn_isValid
              (Smtp.runDialogue Smtp.defaultConfig server e Smtp.initialDialogue
                 (net server)) = false)
    by (intros server _; reflexivity).
  destruct (smtp_failed_servers_become_warnings Smtp.defaultConfig net 0 1 e mx Hfmt)
    as [Hgood _].
  destruct (Hgood Hport) as (Hhelo & He & Hfail).
  destruct (Hhelo "mx20.example.com" _ _ _ Hin Hlead eq_refl eq_refl)
    as (_ & _ & Hwarned).
  destruct (Hfail Hall) as (Hv & Hm & Hw).
  destruct (smtp_failed_servers_become_warnings Scenario.badPortConfig net 0 1 e mx
              Hfmt) as [_ Hthrown].
  destruct (Hthrown Hbad) as (_ & _ & Hw' & He').
  refine (conj Hfmt (conj Hport (conj Hbad (conj Hin (conj Hlead (conj Hwarned
           (conj Hv (conj Hm (conj He (conj _ (conj Hw' _))))))))))).
  - subst r. rewrite Hw. reflexivity.
  - subst r'. rewrite He'. reflexivity.
Defined.

(** C8, evaluated on the code: with the exchanger of priority 20
    listed before the one of priority 10, the host of priority 20 is
    attempted first, although the loop is announced as "Try each MX
    server in order of priority". *)
Theorem smtp_attempts_not_sorted :
  let net := fun _ : string => @nil Smtp.SocketEvent in
  let attempted := snd (Smtp.validateEmail Smtp.defaultConfig net 0 1
                          "user@example.com" (Some Scenario.unsortedMx)) in
  attempted = ["mx20.example.com"; "mx10.example.com"] ∧
  attempted ≠ map exchange (Dns.sortByPriority Scenario.unsortedMx).
Proof. vm_compute. split; [done | discriminate]. Qed.

Lemma upToFirst_map_prefix (ok : string → bool) (l : list MxRecord) :
  ∃ tried, tried `prefix_of` l ∧ Spec.upToFirst ok (map exchange l) = map exchange tried.
Proof.
  induction l as [|x l (tried & Hpre & Heq)]; simpl.
  - exists []. done.
  - destruct (ok (exchange x)).
    + exists [x]. split; [|done]. by exists l.
    + exists (x :: tried). split; [by apply prefix_cons|]. simpl. by rewrite Heq.
Qed.

Lemma ascending_prefix (tried l : list MxRecord) :
  tried `prefix_of` l → Spec.ascending l → Spec.ascending tried.
Proof.
  intros [k ->]. unfold Spec.ascending. revert k.
  induction tried as [|x tried IH]; intros k Hs; simpl in *; [constructor|].
  apply StronglySorted_inv in Hs as [Hs Hx]. constructor; [by eapply IH|].
  apply Forall_app in Hx. tauto.
Qed.

(** What the loop does instead: the candidate servers are attempted in
    the order of the supplied list, up to and including the first one
    whose attempt is valid; the list is not sorted by [validateEmail],
    so the attempts are in ascending priority only when the supplied
    list is.  Without [mxRecords] the bare domain is the only host
    attempted. *)
Lemma smtp_attempts_follow_supplied_order
    (config : Smtp.SmtpValidationConfig) (net : string → list Smtp.SocketEvent)
    (t0 t1 : Z) (e : string) (mx : option (list MxRecord)) :
  let ok := fun server =>
    Smtp.validPort (Smtp.port config)
    && Smtp.conn_isValid
         (Smtp.runDialogue config server e Smtp.initialDialogue (net server)) in
  let attempted := snd (Smtp.validateEmail config net t0 t1 e mx) in
  Spec.splitsAroundAt e = true →
  attempted = Spec.upToFirst ok (Smtp.candidateServers mx (Smtp.domainOf e)) ∧
  match mx with
  | None => attempted = [Smtp.domainOf e]
  | Some l =>
      ∃ tried, tried `prefix_of` l ∧ attempted = map exchange tried ∧
               (Spec.ascending l → Spec.ascending tried)
  end.
Proof.
  intros ok attempted Hsplit.
  assert (Hatt : attempted =
                 Spec.upToFirst ok (Smtp.candidateServers mx (Smtp.domainOf e))).
  { subst attempted. by rewrite validateEmail_attempted, Hsplit. }
  split; [exact Hatt|].
  destruct mx as [l|]; simpl in Hatt.
  - destruct (upToFirst_map_prefix ok l) as (tried & Hpre & Heq).
    exists tried. split; [done|]. split; [congruence|].
    by apply ascending_prefix.
  - rewrite Hatt. by destruct (ok _).
Qed.

(** C10: an address that does not split into a non-empty local part and
    a non-empty domain around "@" is rejected at once: [isValid] and
    [isMailboxValid] are false, [domain] is empty, [responseCode] is
    null, [errors] is ["Invalid email format"], and no server is
    attempted. *)
Theorem smtp_unsplittable_email_rejected
    (config : Smtp.SmtpValidationConfig) (net : string → list Smtp.SocketEvent)
    (t0 t1 : Z) (e : string) (mx : option (list MxRecord)) :
  Spec.splitsAroundAt e = false →
  Smtp.validateEmail config net t0 t1 e mx =
  ({| Smtp.email := e; Smtp.domain := ""; Smtp.isValid := false;
      Smtp.isMailboxValid := false; Smtp.mxRecord := None;
      Smtp.responseCode := None; Smtp.responseMessage := None;
      Smtp.validationTime := t1 - t0;
      Smtp.errors := ["Invalid email format"]; Smtp.warnings := [] |}, []).
Proof.
  intros Hno. unfold Smtp.validateEmail, Smtp.validateEmailWith.
  by rewrite invalidFormat_spec, Hno.
Qed.

(** The theorem applied to an address without "@". *)
Lemma smtp_unsplittable_email_rejected_witness :
  Spec.splitsAroundAt "user.example.com" = false ∧
  Smtp.errors (fst (Smtp.validateEmail Smtp.defaultConfig
                      (fun _ => Scenario.acceptsRecipient) 0 1
                      "user.example.com" (Some Scenario.unsortedMx)))
  = ["Invalid email format"].
Proof.
  split; [reflexivity|].
  rewrite (smtp_unsplittable_email_rejected Smtp.defaultConfig
             (fun _ => Scenario.acceptsRecipient) 0 1 "user.example.com"
             (Some Scenario.unsortedMx)); reflexivity.
Defined.

Example smtp_missing_at : Spec.splitsAroundAt "plainaddress" = false.
Proof. reflexivity. Qed.

Example smtp_empty_local_part : Spec.splitsAroundAt "@example.com" = false.
Proof. reflexivity. Qed.

Example smtp_empty_domain : Spec.splitsAroundAt "user@" = false.
Proof. reflexivity. Qed.

Example smtp_empty_domain_before_second_at : Spec.splitsAroundAt "user@@host" = false.
Proof. reflexivity. Qed.

Example smtp_two_ats_accepted :
  Spec.splitsAroundAt "a@b@c" = true ∧
  snd (Smtp.validateEmail Smtp.defaultConfig (fun _ => []) 0 1 "a@b@c" None) = ["b"].
Proof. split; reflexivity. Qed.

(** ** Concurrency gate *)

(** With nothing running and no callback pending, only a further
    submission can happen: whatever is in the queue stays there. *)
Lemma gate_idle_state_is_stuck (concurrency : Z) (s : Gate.State) (e : Gate.Event) :
  Gate.executing s = [] → Gate.immediates s = [] → Gate.isSubmit e = false →
  Gate.step concurrency s e = None.
Proof.
  unfold Gate.executing. intros [Ha Hd]%app_eq_nil Hi He.
  destruct e as [op|op|]; simpl in *; [done| |by rewrite Hi].
  rewrite Ha, Hd.
  rewrite !bool_decide_eq_false_2 by apply not_elem_of_nil. done.
Qed.

(** The wrapper of a queued operation gives no slot back and starts
    nothing. *)
Lemma gate_dequeued_releases_nothing (concurrency : Z) (s s' : Gate.State) (op : nat) :
  op ∉ Gate.admitted s → Gate.step concurrency s (Gate.Settle op) = Some s' →
  Gate.requestQueue s' = Gate.requestQueue s ∧
  Gate.immediates s' = Gate.immediates s ∧
  Gate.activeRequests s' = Gate.activeRequests s.
Proof.
  intros Hop. simpl. rewrite bool_decide_eq_false_2 by done.
  case_bool_decide; [|done]. by intros [= <-].
Qed.

(** C2, evaluated on the code with [concurrency = 1] and three
    operations.  First run: operation 2 is started from the queue
    without being counted, so operation 3 is admitted while 2 still
    runs, and two operations execute at once.  Second run: all three
    are submitted at once; operation 2 is started when 1 settles, but
    the wrapper of a queued operation releases nothing, so operation 3
    stays in the queue with nothing running and no callback pending: no
    event other than a further submission can happen, and the promise
    of operation 3 never settles. *)
Theorem gate_limit_exceeded_and_queue_stalls :
  (∃ s,
     Gate.run 1 Gate.initial
       [Gate.Submit 1; Gate.Submit 2; Gate.Settle 1; Gate.RunImmediate; Gate.Submit 3]
     = Some s ∧
     Gate.executing s = [3; 2]%nat ∧ Gate.activeRequests s = 1) ∧
  (∃ s,
     Gate.run 1 Gate.initial
       [Gate.Submit 1; Gate.Submit 2; Gate.Submit 3;
        Gate.Settle 1; Gate.RunImmediate; Gate.Settle 2]
     = Some s ∧
     Gate.requestQueue s = [3%nat] ∧ Gate.executing s = [] ∧
     Gate.immediates s = [] ∧ Gate.settled s = [1; 2]%nat ∧
     ∀ e, Gate.isSubmit e = false → Gate.step 1 s e = None).
Proof.
  split.
  - eexists. split; [vm_compute; reflexivity|]. vm_compute. done.
  - eexists. split; [vm_compute; reflexivity|].
    repeat (split; [vm_compute; reflexivity|]).
    intros [op| op |] He; try discriminate; vm_compute; reflexivity.
Qed.

(** ** DNS engine *)

Lemma insertByPriority_ascending x l :
  Spec.ascending l → Spec.ascending (Dns.insertByPriority x l).
Proof.
  unfold Spec.ascending. induction l as [|y l IH]; intros Hs; simpl.
  - repeat constructor.
  - apply StronglySorted_inv in Hs as [Hs Hy].
    destruct (priority x <=? priority y) eqn:Hle.
    + apply Z.leb_le in Hle. constructor; [by constructor|].
      constructor; [done|]. eapply Forall_impl; [exact Hy|]. simpl. lia.
    + apply Z.leb_gt in Hle. constructor; [by apply IH|].
      assert (Hin : ∀ z, z ∈ Dns.insertByPriority x l → z = x ∨ z ∈ l).
      { clear. induction l as [|w l IH]; simpl; intros z Hz.
        - apply list_elem_of_singleton in Hz. by left.
        - destruct (priority x <=? priority w).
          + apply elem_of_cons in Hz as [->|Hz]; [by left | by right].
          + apply elem_of_cons in Hz as [->|Hz]; [right; left|].
            destruct (IH _ Hz) as [->|?]; [by left | right; by right]. }
      apply Forall_forall. intros z Hz. destruct (Hin z Hz) as [->|Hz']; [lia|].
      rewrite Forall_forall in Hy. by apply Hy.
Qed.

Lemma insertByPriority_perm x l : Dns.insertByPriority x l ≡ₚ x :: l.
Proof.
  induction l as [|y l IH]; simpl; [done|].
  destruct (priority x <=? priority y); [done|].
  rewrite IH. apply Permutation_swap.
Qed.

(** The sort of [validateDomain] returns the same records in ascending
    priority. *)
Lemma sortByPriority_sorts l :
  Spec.ascending (Dns.sortByPriority l) ∧ Dns.sortByPriority l ≡ₚ l.
Proof.
  induction l as [|x l [IHs IHp]]; simpl.
  - split; [constructor | done].
  - split; [by apply insertByPriority_ascending|].
    rewrite insertByPriority_perm. by rewrite IHp.
Qed.

Example sortByPriority_stable :
  Dns.sortByPriority
    [ {| exchange := "c"; priority := 20 |}; {| exchange := "a"; priority := 10 |};
      {| exchange := "b"; priority := 10 |} ] =
    [ {| exchange := "a"; priority := 10 |}; {| exchange := "b"; priority := 10 |};
      {| exchange := "c"; priority := 20 |} ].
Proof. reflexivity. Qed.

Section DnsProperties.
Import Dns.
Variable config : DnsResolverConfig.
Variable resolveMx : string → Z → Settled (list MxRecord).
Variable resolveTxt : string → Settled (list (list string)).
Variable connects : string → bool.
Variables t0 t1 : Z.

Lemma schedule_S a k last :
  Spec.schedule a (S k) last =
  Query a :: (if a <? last then [Sleep (backoff a)] else [])
    ++ Spec.schedule (a + 1) k last.
Proof.
  unfold Spec.schedule, backoff. rewrite seqZ_cons by lia.
  replace (Z.pred (Z.of_nat (S k))) with (Z.of_nat k) by lia.
  by replace (Z.succ a) with (a + 1) by lia.
Qed.

Lemma retryLoop_run name remaining attempt lastError trace :
  1 <= attempt →
  attempt + Z.of_nat remaining = Z.max 0 (retries config) + 1 →
  ∃ n : nat,
    (n <= remaining)%nat ∧
    snd (retryLoop config resolveMx name remaining attempt lastError trace) =
      trace ++ Spec.schedule attempt n (attempt + Z.of_nat n - 1) ∧
    (∀ i, attempt <= i < attempt + Z.of_nat n - 1 →
          ∃ msg, resolveMx name i = RejectedWith msg) ∧
    match fst (retryLoop config resolveMx name remaining attempt lastError trace) with
    | Fulfilled records =>
        (1 <= n)%nat ∧ resolveMx name (attempt + Z.of_nat n - 1) = Fulfilled records
    | RejectedWith msg =>
        n = remaining ∧
        match n with
        | O => msg = match lastError with
                     | Some e => e
                     | None => "MX resolution failed"
                     end
        | S _ => resolveMx name (attempt + Z.of_nat n - 1) = RejectedWith msg
        end
    end.
Proof.
  revert attempt lastError trace.
  induction remaining as [|k IH]; intros attempt lastError trace Hpos Hbound.
  - exists 0%nat. cbn [retryLoop fst snd]. unfold Spec.schedule. simpl.
    rewrite app_nil_r. repeat split; [lia | intros; lia].
  - cbn [retryLoop]. destruct (resolveMx name attempt) as [records|e] eqn:Hres.
    + exists 1%nat. cbn [fst snd]. rewrite schedule_S.
      replace (attempt <? attempt + Z.of_nat 1 - 1) with false
        by (symmetry; apply Z.ltb_ge; lia).
      replace (attempt + Z.of_nat 1 - 1) with attempt by lia.
      split; [lia|]. split; [done|]. split; [intros; lia|]. split; [lia | done].
    + destruct (IH (attempt + 1) (Some e)
                  (trace ++ [Query attempt] ++
                     (if attempt <? retries config then [Sleep (backoff attempt)] else [])))
        as (n & Hn & Htrace & Hfail & Hres'); [lia|lia|].
      destruct n as [|n].
      * (* this was the last attempt *)
        exists 1%nat.
        destruct (fst (retryLoop _ _ _ _ _ _ _)) as [records|msg] eqn:Hfst.
        { destruct Hres' as [Hle _]. lia. }
        destruct Hres' as [<- Hmsg]. simpl in Hmsg. subst msg.
        rewrite Htrace, schedule_S.
        replace (attempt <? retries config) with false
          by (symmetry; apply Z.ltb_ge; lia).
        replace (attempt <? attempt + Z.of_nat 1 - 1) with false
          by (symmetry; apply Z.ltb_ge; lia).
        replace (attempt + Z.of_nat 1 - 1) with attempt by lia.
        unfold Spec.schedule. simpl. rewrite !app_nil_r.
        split; [lia|]. split; [done|]. split; [intros; lia|]. done.
      * exists (S (S n)).
        replace (attempt + Z.of_nat (S (S n)) - 1)
          with (attempt + 1 + Z.of_nat (S n) - 1) by lia.
        split; [lia|]. split.
        { rewrite Htrace, (schedule_S attempt).
          replace (attempt <? retries config) with true
            by (symmetry; apply Z.ltb_lt; lia).
          replace (attempt <? attempt + 1 + Z.of_nat (S n) - 1) with true
            by (symmetry; apply Z.ltb_lt; lia).
          by rewrite <- !app_assoc. }
        split.
        { intros i Hi. destruct (decide (i = attempt)) as [->|Hne]; [eauto|].
          apply Hfail. lia. }
        destruct (fst (retryLoop _ _ _ _ _ _ _)) as [records|msg].
        { destruct Hres' as [_ Hres']. split; [lia | done]. }
        { destruct Hres' as [Hk Hres']. split; [lia | done]. }
Qed.

Lemma validateDomain_trace name :
  snd (validateDomain config resolveMx resolveTxt connects t0 t1 name) =
  snd (resolveMxWithRetry config resolveMx name).
Proof.
  unfold validateDomain. by destruct (resolveMxWithRetry config resolveMx name).
Qed.

Lemma validateDomain_result name :
  fst (validateDomain config resolveMx resolveTxt connects t0 t1 name) =
  setValidationTime
    (match fst (resolveMxWithRetry config resolveMx name) with
     | Fulfilled records =>
         recordDmarc config resolveTxt
           (recordSpf config resolveTxt
              (recordMx config connects (emptyResult name) records))
     | RejectedWith errorMsg =>
         pushError (emptyResult name) ("DNS resolution failed: " +:+ errorMsg)
     end) (t1 - t0).
Proof.
  unfold validateDomain. by destruct (resolveMxWithRetry config resolveMx name).
Qed.

(** C7: the MX resolution makes at most [retries] attempts, numbered
    from 1; every attempt but the last one made has failed and is
    followed, before the next attempt, by a sleep of
    [min(1000 * 2^(attempt-1), 5000)] ms; and when the attempts are
    exhausted [validateDomain] returns a result with [hasMx = false]
    and one error entry. *)
Theorem dns_retry_schedule_and_exhaustion name :
  let r := fst (validateDomain config resolveMx resolveTxt connects t0 t1 name) in
  let trace := snd (validateDomain config resolveMx resolveTxt connects t0 t1 name) in
  ∃ attempts : nat,
    Z.of_nat attempts <= Z.max 0 (retries config) ∧
    trace = Spec.schedule 1 attempts (Z.of_nat attempts) ∧
    (∀ i, 1 <= i < Z.of_nat attempts → ∃ msg, resolveMx name i = RejectedWith msg) ∧
    match fst (resolveMxWithRetry config resolveMx name) with
    | Fulfilled records =>
        resolveMx name (Z.of_nat attempts) = Fulfilled records
    | RejectedWith msg =>
        Z.of_nat attempts = Z.max 0 (retries config) ∧
        hasMx r = false ∧ mxRecords r = [] ∧
        errors r = ["DNS resolution failed: " +:+ msg]
    end.
Proof.
  intros r trace. subst r trace.
  rewrite validateDomain_trace, validateDomain_result.
  unfold resolveMxWithRetry.
  destruct (retryLoop_run name (Z.to_nat (retries config)) 1 None [])
    as (n & Hn & Htrace & Hfail & Hres); [lia|lia|].
  exists n. split; [lia|]. split.
  { rewrite Htrace. simpl. by replace (1 + Z.of_nat n - 1) with (Z.of_nat n) by lia. }
  split; [intros i Hi; apply Hfail; lia|].
  destruct (fst (retryLoop _ _ _ _ _ _ _)) as [records|msg].
  - destruct Hres as [_ Hres].
    by replace (1 + Z.of_nat n - 1) with (Z.of_nat n) in Hres by lia.
  - destruct Hres as [-> _]. split; [lia | done].
Qed.

(** What [validateDomain] makes of the outcome of the MX resolution:
    [errors] receives an entry only when the resolution fails, every
    attempt having been rejected; an empty MX answer, a negative SPF
    check and a negative DMARC check (the last two when enabled) each
    append one warning and leave [errors] empty. *)
Lemma dns_absence_yields_warnings name :
  let r := fst (validateDomain config resolveMx resolveTxt connects t0 t1 name) in
  match fst (resolveMxWithRetry config resolveMx name) with
  | RejectedWith msg =>
      errors r = ["DNS resolution failed: " +:+ msg] ∧ warnings r = [] ∧
      ∀ i, 1 <= i <= retries config → ∃ m, resolveMx name i = RejectedWith m
  | Fulfilled records =>
      errors r = [] ∧
      hasMx r = negb (bool_decide (records = [])) ∧
      warnings r =
        (if bool_decide (records = []) then ["No MX records found"] else [])
        ++ (if checkSpfRecord config && negb (checkSpf resolveTxt name)
            then ["No SPF record found"] else [])
        ++ (if checkDmarcRecord config && negb (checkDmarc resolveTxt name)
            then ["No DMARC record found"] else [])
  end.
Proof.
  intros r. subst r. rewrite validateDomain_result.
  unfold resolveMxWithRetry.
  destruct (retryLoop_run name (Z.to_nat (retries config)) 1 None [])
    as (n & Hn & _ & Hfail & Hres); [lia|lia|].
  destruct (fst (retryLoop _ _ _ _ _ _ _)) as [records|msg].
  - clear Hres Hfail. unfold recordDmarc, recordSpf, recordMx.
    destruct records as [|x records]; simpl;
      destruct (checkSpfRecord config); simpl;
      try destruct (checkSpf resolveTxt name); simpl;
      destruct (checkDmarcRecord config); simpl;
      try destruct (checkDmarc resolveTxt name); simpl; done.
  - destruct Hres as [-> Hlast]. split; [done|]. split; [done|].
    intros i Hi. destruct (decide (i = retries config)) as [->|Hne].
    + destruct (Z.to_nat (retries config)) as [|k] eqn:Hk; [lia|].
      exists msg. rewrite <- Hlast. f_equal. lia.
    + apply Hfail. lia.
Qed.
End DnsProperties.

(** C4, evaluated on the code: a domain that exists and has no MX,
    SPF or DMARC record is validated with the default configuration,
    whatever checks are enabled.  [resolveMxAsync] is [promisify]
    applied to a function of the promise API, which never calls the
    callback [promisify] waits for, so its promise stays pending and
    every attempt ends with the timer: the result carries the error
    "DNS resolution failed: DNS timeout" and no warning, where the
    claim requires a warning and no error.  The same code gives the
    warning when the race is won by a lookup that delivers the empty
    answer. *)
Theorem dns_missing_mx_reported_as_error
    (connectivity spf dmarc : bool) (resolveTxt : string → Settled (list (list string)))
    (connects : string → bool) (t0 t1 : Z) (name : string) :
  let config :=
    {| Dns.timeout := 5000; Dns.retries := 3; Dns.enableCaching := true;
       Dns.cacheSize := 10000; Dns.cacheTtl := 300000; Dns.concurrency := 10;
       Dns.validateMxConnectivity := connectivity; Dns.checkSpfRecord := spf;
       Dns.checkDmarcRecord := dmarc |} in
  let noRecords := fun _ : string => @nil MxRecord in
  let asWired :=
    Dns.validateDomain config (Dns.wiredResolveMx noRecords) resolveTxt connects
      t0 t1 name in
  let asIntended :=
    Dns.validateDomain config (fun domain _ => Fulfilled (noRecords domain))
      resolveTxt connects t0 t1 name in
  Dns.resolveMxAsync noRecords name = Dns.StillPending ∧
  Dns.errors (fst asWired) = ["DNS resolution failed: DNS timeout"] ∧
  Dns.warnings (fst asWired) = [] ∧
  Dns.hasMx (fst asWired) = false ∧
  snd asWired = [Dns.Query 1; Dns.Sleep 1000; Dns.Query 2; Dns.Sleep 2000; Dns.Query 3] ∧
  Dns.errors (fst asIntended) = [] ∧
  "No MX records found" ∈ Dns.warnings (fst asIntended).
Proof.
  intros config noRecords asWired asIntended.
  split; [reflexivity|]. do 4 (split; [reflexivity|]).
  subst asIntended config.
  pose proof (dns_absence_yields_warnings
                {| Dns.timeout := 5000; Dns.retries := 3; Dns.enableCaching := true;
                   Dns.cacheSize := 10000; Dns.cacheTtl := 300000;
                   Dns.concurrency := 10;
                   Dns.validateMxConnectivity := connectivity;
                   Dns.checkSpfRecord := spf; Dns.checkDmarcRecord := dmarc |}
                (fun domain _ => Fulfilled (noRecords domain)) resolveTxt connects
                t0 t1 name) as H.
  cbn in H. destruct H as (He & _ & Hw). split; [exact He|].
  rewrite Hw. apply list_elem_of_here.
Qed.

(** The resolver as wired never delivers an answer, whatever the name
    service holds. *)
Lemma dns_wired_lookup_times_out (answer : string → list MxRecord) (name : string)
    (attempt : Z) :
  Dns.wiredResolveMx answer name attempt = RejectedWith "DNS timeout".
Proof. reflexivity. Qed.

Example dns_three_timeouts :
  Dns.validateDomain Dns.defaultConfig (fun _ _ => RejectedWith "DNS timeout")
    (fun _ => Fulfilled []) (fun _ => false) 0 16000 "example.com" =
  ({| Dns.domain := "example.com"; Dns.hasMx := false; Dns.mxRecords := [];
      Dns.hasSpf := false; Dns.hasDmarc := false; Dns.isConnectable := false;
      Dns.validationTime := 16000;
      Dns.errors := ["DNS resolution failed: DNS timeout"]; Dns.warnings := [] |},
   [Dns.Query 1; Dns.Sleep 1000; Dns.Query 2; Dns.Sleep 2000; Dns.Query 3]).
Proof. reflexivity. Qed.

Example dns_backoff_capped :
  map Dns.backoff [1; 2; 3; 4; 5; 50] = [1000; 2000; 4000; 5000; 5000; 5000].
Proof. reflexivity. Qed.

Example dns_no_mx_is_a_warning :
  let r := fst (Dns.validateDomain Dns.defaultConfig (fun _ _ => Fulfilled [])
                  (fun _ => Fulfilled []) (fun _ => false) 0 5 "example.com") in
  Dns.hasMx r = false ∧ Dns.errors r = [] ∧ Dns.warnings r = ["No MX records found"].
Proof. vm_compute. done. Qed.

(** The list [validateDomain] returns is in ascending priority. *)
Lemma dns_mxRecords_ascending config resolveMx resolveTxt connects t0 t1 name :
  Spec.ascending
    (Dns.mxRecords (fst (Dns.validateDomain config resolveMx resolveTxt connects t0 t1 name))).
Proof.
  rewrite validateDomain_result. simpl.
  destruct (fst (Dns.resolveMxWithRetry config resolveMx name)) as [records|msg];
    [|constructor].
  unfold Dns.recordDmarc, Dns.recordSpf, Dns.recordMx.
  destruct records as [|x records]; simpl.
  - repeat case_match; simpl; constructor.
  - assert (Spec.ascending (Dns.sortByPriority (x :: records)))
      by apply sortByPriority_sorts.
    repeat case_match; simpl; done.
Qed.

(** *** Cache *)

Section CacheProperties.
Import Dns.
Context {V : Type}.
Implicit Types m : list (string * DnsCache V).

Lemma mapGet_mapSet m key e : mapGet (mapSet m key e) key = Some e.
Proof.
  induction m as [|[k x] m IH]; unfold mapGet in *; simpl.
  - by rewrite bool_decide_eq_true_2.
  - destruct (bool_decide (k = key)) eqn:Hk; simpl; rewrite Hk; [done | exact IH].
Qed.

Lemma mapGet_mapDelete m key : mapGet (mapDelete m key) key = None.
Proof.
  induction m as [|[k x] m IH]; unfold mapGet, mapDelete in *; simpl; [done|].
  rewrite filter_cons. simpl. case_decide as Hk; simpl; [|exact IH].
  by rewrite bool_decide_eq_false_2.
Qed.

Lemma effectiveTtl_explicit (config : DnsResolverConfig) (T : Z) :
  T ≠ 0 → effectiveTtl config (Some T) = T.
Proof. intros HT. unfold effectiveTtl. by rewrite (proj2 (Z.eqb_neq _ _)). Qed.

Lemma effectiveTtl_omitted (config : DnsResolverConfig) :
  effectiveTtl config None = cacheTtl config.
Proof. reflexivity. Qed.

(** C9: a value stored at time [t] whose entry records the TTL [T]
    (the [ttl] argument, or the configured [cacheTtl] when the
    argument is omitted or 0) is returned by a read at any [t'] with
    [t' - t < T]; a read at any [t'] with [t' - t > T] returns
    [undefined] and leaves no entry for the key. *)
Theorem dns_cache_ttl (config : DnsResolverConfig) m (key : string) (v : V)
    (ttlArg : option Z) (t t' T : Z) :
  effectiveTtl config ttlArg = T →
  let m' := setCachedResult config m key v ttlArg t in
  (t' - t < T → getCachedResult m' key t' = (Some v, m')) ∧
  (t' - t > T →
     fst (getCachedResult m' key t') = None ∧
     mapGet (snd (getCachedResult m' key t')) key = None).
Proof.
  intros HT m'. unfold getCachedResult. subst m'. unfold setCachedResult.
  rewrite mapGet_mapSet. simpl. rewrite HT. split; intros Hlt.
  - by rewrite (proj2 (Z.ltb_lt _ _)) by lia.
  - rewrite (proj2 (Z.ltb_ge _ _)) by lia. simpl. split; [done|].
    apply mapGet_mapDelete.
Qed.
End CacheProperties.

(** The theorem applied to a value stored with a TTL of 100 ms and read
    50 ms and 150 ms later. *)
Lemma dns_cache_ttl_witness :
  let m := Dns.setCachedResult Dns.defaultConfig [] "mx:example.com" true (Some 100) 1000 in
  Dns.effectiveTtl Dns.defaultConfig (Some 100) = 100 ∧
  fst (Dns.getCachedResult m "mx:example.com" 1050) = Some true ∧
  fst (Dns.getCachedResult m "mx:example.com" 1150) = None.
Proof.
  intros m. split; [reflexivity|]. split.
  - destruct (dns_cache_ttl Dns.defaultConfig [] "mx:example.com" true (Some 100)
                1000 1050 100 eq_refl) as [Hfresh _].
    subst m. rewrite Hfresh by lia. reflexivity.
  - destruct (dns_cache_ttl Dns.defaultConfig [] "mx:example.com" true (Some 100)
                1000 1150 100 eq_refl) as [_ Hstale].
    subst m. apply Hstale. lia.
Defined.

Example dns_cache_zero_ttl_uses_default :
  fst (Dns.getCachedResult
         (Dns.setCachedResult Dns.defaultConfig [] "mx:example.com" true (Some 0) 1000)
         "mx:example.com" 2000) = Some true.
Proof. reflexivity. Qed.

(** ** Orchestrator *)

(** [resultPool] is never pushed to (nothing calls [returnToPool]), and
    taking from the empty pool leaves it empty: the pool is empty in
    every reachable state, and every result starts as a fresh object. *)
Lemma getPooledResult_empty :
  Checker.getPooledResult Checker.resultPool = (Checker.freshResult, Checker.resultPool).
Proof. reflexivity. Qed.

Section PipelineProperties.
Import Checker.
Variable config : EmailCheckerConfig.
Variable regexTest : bool → string → bool.
Variable checkAllowlist : string → bool.
Variables checkBlacklist checkDisposableDomain : string → MatchResult.
Variable RegExp : Type.
Variable customPatterns : list RegExp.
Variable analyzePatterns : string → string → string → list RegExp → Z * list string.
Variable validateMxRecord : string → Settled Dns.DnsValidationResult.
Variable simpleMxCheck : string → Settled bool.
Variable validateSmtpDeliverability :
  string → option (list MxRecord) → Settled Smtp.SmtpValidationResult.
Variables startTime now : Z.
Variable emailPatternTest : string → bool.
Variable cacheGet : string → Settled (option EmailValidationResult).
Variable cacheSet : string → EmailValidationResult → Settled unit.
Variable updateMetrics : EmailValidationResult → Settled unit.

(** The result of the allowlist branch. *)
Let allowed (e : string) : EmailValidationResult :=
  {| email := e; isValid := true; isDisposable := false; isAllowed := true;
     isBlacklisted := false; domain := snd (parseEmail e);
     localPart := fst (parseEmail e); matchType := exact; confidence := 100;
     source := None; validationTime := now - startTime; errors := [];
     warnings := []; dnsValidation := None; smtpValidation := None |}.

Lemma performEmailCheck_allowlisted e :
  validateEmailFormat config regexTest e = None →
  checkAllowlist (snd (parseEmail e)) = true →
  performEmailCheck config regexTest checkAllowlist checkBlacklist
    checkDisposableDomain RegExp customPatterns analyzePatterns validateMxRecord
    simpleMxCheck validateSmtpDeliverability startTime now e resultPool =
  (allowed e, [StAllowlist], resultPool).
Proof.
  intros Hfmt Hallow. unfold performEmailCheck. simpl. rewrite Hfmt.
  destruct (parseEmail e) as [local dom] eqn:Hparse. simpl in Hallow.
  rewrite Hallow. subst allowed. simpl. by rewrite Hparse.
Qed.

(** C5: for an address that passes the format checks, misses the
    result cache and has an allowlisted domain, [checkEmail] returns
    the allowlist result: [isAllowed = true], [confidence = 100],
    [matchType = exact], neither disposable nor blacklisted, no DNS
    or SMTP sub-result.  The allowlist is the only stage evaluated: the
    result does not depend on the blacklist, disposable, pattern, DNS
    and SMTP collaborators. *)
Theorem checker_allowlist_short_circuits (e : string) :
  let normalizedEmail := Js.trim (Js.toLowerCase e) in
  emailPatternTest normalizedEmail = true →
  validateEmailFormat config regexTest normalizedEmail = None →
  checkAllowlist (snd (parseEmail normalizedEmail)) = true →
  (enableCaching config = true →
     cacheGet normalizedEmail = Fulfilled None ∧
     ∀ stored, cacheSet normalizedEmail stored = Fulfilled tt) →
  (∀ checked, updateMetrics checked = Fulfilled tt) →
  checkEmail config regexTest checkAllowlist checkBlacklist
    checkDisposableDomain RegExp customPatterns analyzePatterns validateMxRecord
    simpleMxCheck validateSmtpDeliverability startTime now emailPatternTest
    cacheGet cacheSet updateMetrics e resultPool =
  ({| email := normalizedEmail; isValid := true; isDisposable := false;
      isAllowed := true; isBlacklisted := false;
      domain := snd (parseEmail normalizedEmail);
      localPart := fst (parseEmail normalizedEmail);
      matchType := exact; confidence := 100; source := None;
      validationTime := now - startTime; errors := []; warnings := [];
      dnsValidation := None; smtpValidation := None |},
   [StAllowlist], resultPool).
Proof.
  intros normalizedEmail Hpat Hfmt Hallow Hcache Hmetrics.
  unfold checkEmail. fold normalizedEmail. rewrite Hpat. simpl.
  assert (Hun : checkUncached config regexTest checkAllowlist checkBlacklist
            checkDisposableDomain RegExp customPatterns analyzePatterns
            validateMxRecord simpleMxCheck validateSmtpDeliverability startTime
            now cacheSet updateMetrics normalizedEmail resultPool =
          (allowed normalizedEmail, [StAllowlist], resultPool)).
  { unfold checkUncached. rewrite performEmailCheck_allowlisted by done.
    rewrite Hmetrics.
    destruct (enableCaching config) eqn:Hen; [|done].
    destruct (Hcache eq_refl) as [_ Hset]. by rewrite Hset. }
  destruct (enableCaching config) eqn:Hen; [|exact Hun].
  destruct (Hcache eq_refl) as [Hget _]. rewrite Hget. exact Hun.
Qed.
End PipelineProperties.

(** *** Batch *)


Lemma elem_of_dedupe (seen xs : list string) (x : string) :
  x ∈ Js.dedupe seen xs ↔ x ∈ xs ∧ x ∉ seen.
Proof.
  revert seen. induction xs as [|y xs IH]; intros seen; simpl.
  - split; [by intros ?%elem_of_nil | by intros [?%elem_of_nil _]].
  - case_bool_decide as Hy.
    + rewrite IH, elem_of_cons. split; [tauto|].
      intros [[-> | Hx] Hns]; [done | tauto].
    + rewrite !elem_of_cons, IH, not_elem_of_cons. split.
      * intros [-> | [Hx [Hne Hns]]]; [tauto | tauto].
      * intros [[-> | Hx] Hns]; [by left|].
        destruct (decide (x = y)) as [->|Hne]; [by left | right; tauto].
Qed.

Lemma concat_chunksOf (fuel size : nat) (l : list string) :
  (0 < size)%nat → (length l <= fuel)%nat →
  concat (Checker.chunksOf fuel size l) = l.
Proof.
  intros Hsize. revert l. induction fuel as [|fuel IH]; intros l Hlen; simpl.
  - destruct l; [done | simpl in Hlen; lia].
  - destruct l as [|x l]; [done|]. simpl concat.
    rewrite IH; [apply take_drop|].
    rewrite length_drop. simpl in *. lia.
Qed.

Lemma chunkSize_pos n : (0 < Checker.chunkSize n)%nat.
Proof. unfold Checker.chunkSize. lia. Qed.

Section BatchProperties.
Import Checker.
Context {Result : Type}.
Variable enableCaching : bool.
Variable cacheGet : string → option Result.
Variable checkEmail : string → Result.

Lemma separate_spec (unique : list string) (resultMap : gmap string Result)
    (uncached : list string) :
  snd (separate enableCaching cacheGet unique resultMap uncached) =
    uncached ++ filter (fun e => cachedResult enableCaching cacheGet e = None) unique ∧
  ∀ e, fst (separate enableCaching cacheGet unique resultMap uncached) !! e =
       match cachedResult enableCaching cacheGet e with
       | Some cached => if bool_decide (e ∈ unique) then Some cached else resultMap !! e
       | None => resultMap !! e
       end.
Proof.
  revert resultMap uncached.
  induction unique as [|x unique IH]; intros resultMap uncached; simpl.
  - split; [by rewrite app_nil_r|]. intros e. by destruct (cachedResult _ _ e).
  - rewrite filter_cons.
    destruct (cachedResult enableCaching cacheGet x) as [c|] eqn:Hx.
    + destruct (IH (<[x := c]> resultMap) uncached) as [Hs Hm].
      rewrite decide_False by congruence. split; [exact Hs|].
      intros e. rewrite Hm.
      destruct (cachedResult enableCaching cacheGet e) as [c'|] eqn:He.
      * destruct (decide (e = x)) as [->|Hne].
        -- rewrite (bool_decide_eq_true_2 (x ∈ x :: unique)) by apply list_elem_of_here.
           rewrite lookup_insert_eq. case_bool_decide; congruence.
        -- rewrite lookup_insert_ne by done.
           case_bool_decide as H1; case_bool_decide as H2; try done.
           ++ exfalso. apply H2. by apply list_elem_of_further.
           ++ apply elem_of_cons in H2 as [?|?]; done.
      * destruct (decide (e = x)) as [->|Hne]; [congruence|].
        by rewrite lookup_insert_ne.
    + destruct (IH resultMap (uncached ++ [x])) as [Hs Hm].
      rewrite decide_True by done. split; [by rewrite Hs, <- app_assoc|].
      intros e. rewrite Hm.
      destruct (cachedResult enableCaching cacheGet e) as [c'|] eqn:He; [|done].
      destruct (decide (e = x)) as [->|Hne]; [congruence|].
      case_bool_decide as H1; case_bool_decide as H2; try done.
      ++ exfalso. apply H2. by apply list_elem_of_further.
      ++ apply elem_of_cons in H2 as [?|?]; done.
Qed.



End BatchProperties.

Example batch_three_emails :
  Checker.checkEmailsBatch false (fun _ => None) (fun e => "checked " +:+ e)
    ["a@x.com"; "b@y.com"; "A@X.com "] =
  [Some "checked a@x.com"; Some "checked b@y.com"; Some "checked a@x.com"].
Proof. vm_compute. reflexivity. Qed.

Example batch_two_chunks :
  Checker.uncachedChunks false (fun _ : string => @None string) Scenario.elevenEmails =
  [ [ "u0@x.com"; "u1@x.com"; "u2@x.com"; "u3@x.com"; "u4@x.com"; "u5@x.com";
      "u6@x.com"; "u7@x.com"; "u8@x.com"; "u9@x.com" ]; [ "u10@x.com" ] ].
Proof. vm_compute. reflexivity. Qed.


(** The theorem applied to an allowlisted address written with capitals
    and surrounding blanks. *)
Lemma checker_allowlist_short_circuits_witness :
  let n := Js.trim (Js.toLowerCase " Alice@Example.COM ") in
  let r := fst (fst (Scenario.checkScenario " Alice@Example.COM ")) in
  n = "alice@example.com" ∧
  Checker.validateEmailFormat Scenario.checkerConfig (fun _ _ => true) n = None ∧
  Checker.parseEmail n = ("alice", "example.com") ∧
  Checker.isAllowed r = true ∧ Checker.confidence r = 100 ∧
  Checker.matchType r = Checker.exact ∧
  snd (fst (Scenario.checkScenario " Alice@Example.COM ")) = [Checker.StAllowlist].
Proof.
  intros n r. do 3 (split; [reflexivity|]).
  subst r. unfold Scenario.checkScenario.
  rewrite (checker_allowlist_short_circuits Scenario.checkerConfig (fun _ _ => true)
             (fun d => String.eqb d "example.com")
             (fun _ => Scenario.noMatch) (fun _ => Scenario.noMatch)
             unit [] (fun _ _ _ _ => (0, []))
             (fun _ => RejectedWith "unused") (fun _ => Fulfilled true)
             (fun _ _ => RejectedWith "unused") 0 3
             (fun _ => true) (fun _ => Fulfilled None) (fun _ _ => Fulfilled tt)
             (fun _ => Fulfilled tt) " Alice@Example.COM ").
  - simpl. done.
  - reflexivity.
  - reflexivity.
  - reflexivity.
  - intros _. split; [reflexivity | intros; reflexivity].
  - intros; reflexivity.
Defined.

(** * Further properties of the code *)

(** ** SMTP dialogue *)

Section DialogueProperties.
Import Smtp.
Variable config : SmtpValidationConfig.

Lemma runDialogueLog_result server rcpt d events :
  fst (runDialogueLog config server rcpt d events) =
  runDialogue config server rcpt d events.
Proof.
  revert d. induction events as [|ev events IH]; intros d; [done|].
  destruct ev as [|chunk|message|]; simpl; [apply IH| |done|].
  - destruct (onData config server rcpt d chunk); [apply IH | done].
  - destruct (step d <? 4)%nat; [done | apply IH].
Qed.

Lemma dialogue_shape server rcpt d events :
  let r := runDialogue config server rcpt d events in
  if conn_isValid r
  then conn_error r = None ∧ conn_mxRecord r = Some server
  else ∃ msg, conn_error r = Some msg ∧ msg ≠ "" ∧ conn_mxRecord r = None ∧
              conn_isDeliverable r = Some false.
Proof.
  revert d. induction events as [|ev events IH]; intros d; simpl.
  - eexists. done.
  - destruct ev as [|chunk|message|]; simpl; [apply IH| | |].
    + unfold onData.
      destruct (step d) as [|[|[|[|[|k]]]]]; try apply IH;
        try (destruct (Js.strictEq _ _); [apply IH | simpl; eexists; done]).
      simpl. done.
    + eexists. done.
    + destruct (step d <? 4)%nat; [simpl; eexists; done | apply IH].
Qed.

(** X1: an attempt that succeeds names the server it talked to and has
    no error; an attempt that fails names no server, reports the
    mailbox as not deliverable and carries a non-empty error message,
    so the fallback text of [validateEmail] is never used. *)
Theorem smtp_attempt_outcome_shape (server rcpt : string) (events : list SocketEvent) :
  let r := runDialogue config server rcpt initialDialogue events in
  (conn_isValid r = true ∧ conn_error r = None ∧ conn_mxRecord r = Some server) ∨
  (conn_isValid r = false ∧ conn_mxRecord r = None ∧
   conn_isDeliverable r = Some false ∧
   ∃ msg, conn_error r = Some msg ∧ msg ≠ "" ∧
          Js.orElse (conn_error r) "Unable to verify mailbox via SMTP" = msg).
Proof.
  intros r. pose proof (dialogue_shape server rcpt initialDialogue events) as H.
  fold r in H. simpl in H. destruct (conn_isValid r).
  - left. tauto.
  - right. destruct H as (msg & He & Hne & Hmx & Hd).
    repeat split; try done. exists msg. rewrite He. by destruct msg.
Qed.

Lemma awaiting_quit server rcpt d events :
  step d = 4%nat →
  conn_isValid (runDialogue config server rcpt d events) = true →
  ∃ q rest, Spec.replies events = q :: rest ∧
    runDialogue config server rcpt d events =
    {| conn_isValid := true; conn_isDeliverable := Some (isDeliverable d);
       conn_mxRecord := Some server; conn_responseCode := Some (Spec.replyCode q);
       conn_responseMessage := Some (Js.trim q); conn_error := None |}.
Proof.
  intros Hstep. induction events as [|ev events IH]; simpl; [done|].
  destruct ev as [|chunk|message|]; simpl; [done| |done|].
  - unfold onData. rewrite Hstep. simpl. eauto.
  - rewrite Hstep. simpl. done.
Qed.

Lemma awaiting_rcpt server rcpt d events :
  step d = 3%nat →
  conn_isValid (runDialogue config server rcpt d events) = true →
  ∃ r q rest, Spec.replies events = r :: q :: rest ∧
    runDialogue config server rcpt d events =
    {| conn_isValid := true;
       conn_isDeliverable := Some (Js.strictEq (Spec.replyCode r) 250);
       conn_mxRecord := Some server; conn_responseCode := Some (Spec.replyCode q);
       conn_responseMessage := Some (Js.trim q); conn_error := None |}.
Proof.
  intros Hstep. induction events as [|ev events IH]; simpl; [done|].
  destruct ev as [|chunk|message|]; simpl; [done| |done|].
  - unfold onData. rewrite Hstep. intros Hv.
    apply awaiting_quit in Hv as (q & rest & Hq & Hr); [|done].
    exists chunk, q, rest. rewrite Hq. split; [done|]. exact Hr.
  - rewrite Hstep. simpl. done.
Qed.

Lemma awaiting_mail server rcpt d events :
  step d = 2%nat →
  conn_isValid (runDialogue config server rcpt d events) = true →
  ∃ m r q rest, Spec.replies events = m :: r :: q :: rest ∧
    Js.strictEq (Spec.replyCode m) 250 = true ∧
    runDialogue config server rcpt d events =
    {| conn_isValid := true;
       conn_isDeliverable := Some (Js.strictEq (Spec.replyCode r) 250);
       conn_mxRecord := Some server; conn_responseCode := Some (Spec.replyCode q);
       conn_responseMessage := Some (Js.trim q); conn_error := None |}.
Proof.
  intros Hstep. induction events as [|ev events IH]; simpl; [done|].
  destruct ev as [|chunk|message|]; simpl; [done| |done|].
  - unfold onData. rewrite Hstep.
    destruct (Js.strictEq (Js.parseInt _) 250) eqn:Hc; [|done]. intros Hv.
    apply awaiting_rcpt in Hv as (r & q & rest & Hq & Hr); [|done].
    exists chunk, r, q, rest. rewrite Hq. done.
  - rewrite Hstep. simpl. done.
Qed.

Lemma awaiting_helo server rcpt d events :
  step d = 1%nat →
  conn_isValid (runDialogue config server rcpt d events) = true →
  ∃ h m r q rest, Spec.replies events = h :: m :: r :: q :: rest ∧
    Js.strictEq (Spec.replyCode h) 250 = true ∧
    Js.strictEq (Spec.replyCode m) 250 = true ∧
    runDialogue config server rcpt d events =
    {| conn_isValid := true;
       conn_isDeliverable := Some (Js.strictEq (Spec.replyCode r) 250);
       conn_mxRecord := Some server; conn_responseCode := Some (Spec.replyCode q);
       conn_responseMessage := Some (Js.trim q); conn_error := None |}.
Proof.
  intros Hstep. induction events as [|ev events IH]; simpl; [done|].
  destruct ev as [|chunk|message|]; simpl; [done| |done|].
  - unfold onData. rewrite Hstep.
    destruct (Js.strictEq (Js.parseInt _) 250) eqn:Hc; [|done]. intros Hv.
    apply awaiting_mail in Hv as (m & r & q & rest & Hq & Hm & Hr);
      [|done].
    exists chunk, m, r, q, rest. rewrite Hq. done.
  - rewrite Hstep. simpl. done.
Qed.

(** X2: an attempt is valid only if the server really sent five
    replies, the first with code 220 and the next two with code 250;
    the attempt then records whether the fourth reply (to [RCPT TO])
    had code 250, and reports the code and text of the fifth. *)
Theorem smtp_success_needs_handshake (server rcpt : string) (events : list SocketEvent) :
  conn_isValid (runDialogue config server rcpt initialDialogue events) = true →
  ∃ g h m r q rest,
    Spec.replies events = g :: h :: m :: r :: q :: rest ∧
    Js.strictEq (Spec.replyCode g) 220 = true ∧
    Js.strictEq (Spec.replyCode h) 250 = true ∧
    Js.strictEq (Spec.replyCode m) 250 = true ∧
    runDialogue config server rcpt initialDialogue events =
    {| conn_isValid := true;
       conn_isDeliverable := Some (Js.strictEq (Spec.replyCode r) 250);
       conn_mxRecord := Some server; conn_responseCode := Some (Spec.replyCode q);
       conn_responseMessage := Some (Js.trim q); conn_error := None |}.
Proof.
  induction events as [|ev events IH]; simpl; [done|].
  destruct ev as [|chunk|message|]; simpl; [done| |done|done].
  unfold onData. simpl.
  destruct (Js.strictEq (Js.parseInt _) 220) eqn:Hc; [|done]. intros Hv.
  apply awaiting_helo in Hv as (h & m & r & q & rest & Hq & Hh & Hm & Hr); [|done].
  exists chunk, h, m, r, q, rest. rewrite Hq. done.
Qed.

Lemma commands_sent server rcpt d events :
  (step d <= 4)%nat →
  written d = take (step d) (commands config rcpt) →
  ∃ k, snd (runDialogueLog config server rcpt d events) =
         take k (commands config rcpt) ∧
       (conn_isValid (fst (runDialogueLog config server rcpt d events)) = true →
        snd (runDialogueLog config server rcpt d events) = commands config rcpt).
Proof.
  revert d. induction events as [|ev events IH]; intros d Hle Hw; simpl.
  - exists (step d). done.
  - destruct ev as [|chunk|message|]; simpl; [by apply IH| | |].
    + unfold onData.
      destruct (step d) as [|[|[|[|[|k]]]]] eqn:Hstep; try lia.
      * destruct (Js.strictEq _ _); [|exists 0%nat; by simpl].
        apply IH; simpl; rewrite ?Hstep; [lia|]. by rewrite Hw.
      * destruct (Js.strictEq _ _); [|exists 1%nat; by simpl].
        apply IH; simpl; rewrite ?Hstep; [lia|]. by rewrite Hw.
      * destruct (Js.strictEq _ _); [|exists 2%nat; by simpl].
        apply IH; simpl; rewrite ?Hstep; [lia|]. by rewrite Hw.
      * apply IH; simpl; rewrite ?Hstep; [lia|]. by rewrite Hw.
      * exists 4%nat. simpl. by rewrite Hw.
    + exists (step d). done.
    + destruct (step d <? 4)%nat eqn:Hlt; [exists (step d); done|].
      by apply IH.
Qed.

(** X3: whatever the server sends, the client writes a prefix of the
    four commands HELO, MAIL FROM, RCPT TO, QUIT, in this order and
    each at most once (so never a message body); a valid attempt has
    written all four. *)
Theorem smtp_commands_follow_protocol (server rcpt : string)
    (events : list SocketEvent) :
  let out := runDialogueLog config server rcpt initialDialogue events in
  fst out = runDialogue config server rcpt initialDialogue events ∧
  snd out `prefix_of` commands config rcpt ∧
  (conn_isValid (fst out) = true → snd out = commands config rcpt).
Proof.
  intros out. split; [apply runDialogueLog_result|].
  destruct (commands_sent server rcpt initialDialogue events) as (k & Hk & Hv);
    [simpl; lia | done |].
  fold out in Hk, Hv. split; [|exact Hv].
  rewrite Hk. apply prefix_take.
Qed.
End DialogueProperties.

(** ** SMTP validation *)

Section ValidateProperties.
Import Smtp.
Variable config : SmtpValidationConfig.
Variable net : string → list SocketEvent.
Variables t0 t1 : Z.

Lemma foldl_pushWarning_response result ws :
  let r := foldl pushWarning result ws in
  mxRecord r = mxRecord result ∧ responseCode r = responseCode result ∧
  responseMessage r = responseMessage result.
Proof.
  revert result. induction ws as [|w ws IH]; intros result; simpl; [done|].
  destruct (IH (pushWarning result w)) as (-> & -> & ->). done.
Qed.

Lemma failure_message rcpt s :
  let outcome := runDialogue config s rcpt initialDialogue (net s) in
  conn_isValid outcome = false →
  conn_error outcome =
    Some (Js.orElse (conn_error outcome) "Unable to verify mailbox via SMTP").
Proof.
  intros outcome Hbad.
  pose proof (dialogue_shape config s rcpt initialDialogue (net s)) as H.
  simpl in H. fold outcome in H. rewrite Hbad in H.
  destruct H as (msg & He & Hne & _). rewrite He. by destruct msg.
Qed.

Lemma beforeFirst_all_fail (ok : string → bool) servers s :
  s ∈ Spec.beforeFirst ok servers → ok s = false.
Proof.
  induction servers as [|x servers IH]; simpl; [by intros ?%elem_of_nil|].
  destruct (ok x) eqn:Hx; [by intros ?%elem_of_nil|].
  intros [->|Hs]%elem_of_cons; [done | by apply IH].
Qed.

(** X4: the result of [validateEmail] for a well-formed address.  With
    a port that [socket.connect] accepts, the candidate servers are
    tried in order and the first valid attempt wins: the result then
    has [isValid = true], names that server and carries its response
    code and text; [warnings] holds, in order, the error of every
    server tried before it (of all servers when none is valid), and
    [errors] is empty.  With a port outside 0..65535 every attempt
    throws before a connection is made: [errors] holds one
    "SMTP validation failed: ..." entry per candidate server,
    [warnings] is empty and the result is not valid. *)
Theorem smtp_first_success_wins (e : string) (mx : option (list MxRecord)) :
  let outcome := fun s => runDialogue config s e initialDialogue (net s) in
  let ok := fun s => conn_isValid (outcome s) in
  let servers := candidateServers mx (domainOf e) in
  let r := fst (validateEmail config net t0 t1 e mx) in
  Spec.splitsAroundAt e = true →
  email r = e ∧ domain r = domainOf e ∧ validationTime r = t1 - t0 ∧
  if validPort (port config)
  then
    errors r = [] ∧
    Forall2 (fun w s => conn_error (outcome s) = Some w)
      (warnings r) (Spec.beforeFirst ok servers) ∧
    match find ok servers with
    | Some s =>
        isValid r = true ∧ mxRecord r = Some s ∧
        responseCode r = conn_responseCode (outcome s) ∧
        responseMessage r = conn_responseMessage (outcome s)
    | None =>
        isValid r = false ∧ mxRecord r = None ∧ responseCode r = None ∧
        responseMessage r = None
    end
  else
    errors r = map (fun _ => "SMTP validation failed: "
                             +:+ portRangeError (port config)) servers ∧
    warnings r = [] ∧
    isValid r = false ∧ mxRecord r = None ∧ responseCode r = None ∧
    responseMessage r = None.
Proof.
  intros outcome ok servers r Hsplit.
  destruct (validPort (port config)) eqn:Hport.
  - set (message := fun s =>
           Js.orElse (conn_error (outcome s)) "Unable to verify mailbox via SMTP").
    set (base := foldl pushWarning (setDomain (emptyResult e) (domainOf e))
                   (map message (Spec.beforeFirst ok servers))).
    assert (Hr : r = setValidationTime
                       (match find ok servers with
                        | Some s => recordSuccess base (outcome s)
                        | None => base
                        end) (t1 - t0))
      by exact (validateEmail_result config net t0 t1 e mx Hsplit Hport).
    destruct (foldl_pushWarning (setDomain (emptyResult e) (domainOf e))
                (map message (Spec.beforeFirst ok servers)))
      as (Hv & Hm & He & Hw & Hd & Hem).
    fold base in Hv, Hm, He, Hw, Hd, Hem. simpl in Hv, Hm, He, Hw, Hd, Hem.
    assert (Hwarn : Forall2 (fun w s => conn_error (outcome s) = Some w)
                      (map message (Spec.beforeFirst ok servers))
                      (Spec.beforeFirst ok servers)).
    { apply Forall2_fmap_l, Forall_Forall2_diag, Forall_forall.
      intros s Hs. apply (failure_message e s).
      by apply (beforeFirst_all_fail ok servers). }
    rewrite Hr. destruct (find ok servers) as [s|] eqn:Hfind; simpl.
    + rewrite Hem, Hd, He, Hw.
      apply find_some in Hfind as [_ Hok].
      pose proof (dialogue_shape config s e initialDialogue (net s)) as Hshape.
      simpl in Hshape. fold (outcome s) in Hshape. fold (ok s) in Hshape.
      rewrite Hok in Hshape. destruct Hshape as [_ Hmx].
      repeat split; done.
    + destruct (foldl_pushWarning_response (setDomain (emptyResult e) (domainOf e))
                  (map message (Spec.beforeFirst ok servers))) as (Hx & Hc & Ht).
      fold base in Hx, Hc, Ht. simpl in Hx, Hc, Ht.
      rewrite Hem, Hd, He, Hw, Hv, Hx, Hc, Ht. repeat split; done.
  - subst r. by rewrite (validateEmail_bad_port config net t0 t1 e mx Hsplit Hport).
Qed.
End ValidateProperties.

Lemma formatMxRecords_ascending (f : nat → Z) (l : list string) :
  (∀ i j, (i <= j)%nat → f i <= f j) →
  Spec.ascending (imap (fun i x => {| exchange := x; priority := f i |}) l).
Proof.
  unfold Spec.ascending. revert f.
  induction l as [|x l IH]; intros f Hmono; simpl; constructor.
  - apply (IH (f ∘ S)). intros i j Hij. simpl. apply Hmono. lia.
  - apply Forall_forall. intros y (i & z & -> & _)%elem_of_lookup_imap_1.
    simpl. apply Hmono. lia.
Qed.

Lemma formatMxRecords_exchange (l : list string) :
  map exchange (Smtp.formatMxRecords l) = l.
Proof.
  unfold Smtp.formatMxRecords.
  assert (H : ∀ (f : nat → Z),
            map exchange (imap (fun i x => {| exchange := x; priority := f i |}) l) = l).
  { induction l as [|x l IH]; intros f; simpl; [done|]. f_equal. apply (IH (f ∘ S)). }
  apply (H (fun i => Z.of_nat i * 10)).
Qed.

(** X5: [verifyMailboxSMTP] answers [true] exactly when the address
    [local@domain] is well formed, the port is one that
    [socket.connect] accepts and one of the candidate hosts completes
    the dialogue, and [null] otherwise (never [false]); the hosts are
    the given exchangers in the given order, which is also the
    ascending order of the priorities it assigns, or the domain of the
    address when no exchanger is given; hosts after the first valid one
    are not contacted. *)
Theorem smtp_verify_mailbox (net : string → list Smtp.SocketEvent) (t0 t1 : Z)
    (p : Smtp.VerifyParams) :
  let e := Smtp.p_local p +:+ "@" +:+ Smtp.p_domain p in
  let ok := fun s =>
    Smtp.validPort (Smtp.port (Smtp.verifyConfig p))
    && Smtp.conn_isValid
         (Smtp.runDialogue (Smtp.verifyConfig p) s e Smtp.initialDialogue (net s)) in
  let hosts := match Smtp.p_mxRecords p with
               | Some l => l
               | None => [Smtp.domainOf e]
               end in
  fst (Smtp.verifyMailboxSMTP net t0 t1 p) =
    (if Spec.splitsAroundAt e && existsb ok hosts then Some true else None) ∧
  snd (Smtp.verifyMailboxSMTP net t0 t1 p) =
    (if Spec.splitsAroundAt e then Spec.upToFirst ok hosts else []) ∧
  match Smtp.p_mxRecords p with
  | Some l => Spec.ascending (Smtp.formatMxRecords l)
  | None => True
  end.
Proof.
  intros e ok hosts.
  assert (Hhosts : Smtp.candidateServers (Smtp.formatMxRecords <$> Smtp.p_mxRecords p)
                     (Smtp.domainOf e) = hosts).
  { subst hosts. destruct (Smtp.p_mxRecords p) as [l|]; simpl; [|done].
    apply formatMxRecords_exchange. }
  pose proof (mailbox_valid_is_isValid (Smtp.verifyConfig p) net t0 t1 e
                (Smtp.formatMxRecords <$> Smtp.p_mxRecords p)) as Hmv.
  pose proof (validateEmail_isValid (Smtp.verifyConfig p) net t0 t1 e
                (Smtp.formatMxRecords <$> Smtp.p_mxRecords p)) as Hvalid.
  pose proof (validateEmail_attempted (Smtp.verifyConfig p) net t0 t1 e
                (Smtp.formatMxRecords <$> Smtp.p_mxRecords p)) as Hatt.
  simpl in Hmv. rewrite Hhosts in Hvalid, Hatt.
  unfold Smtp.verifyMailboxSMTP. fold e.
  destruct (Smtp.validateEmail _ _ _ _ _ _) as [r att]. simpl in *.
  split; [|split].
  - by rewrite Hmv, Hvalid.
  - exact Hatt.
  - destruct (Smtp.p_mxRecords p) as [l|]; [|done].
    apply (formatMxRecords_ascending (fun i => Z.of_nat i * 10)). intros. lia.
Qed.

(** ** DNS validation *)

Section DomainProperties.
Import Dns.
Variable config : DnsResolverConfig.
Variable resolveMx : string → Z → Settled (list MxRecord).
Variable resolveTxt : string → Settled (list (list string)).
Variable connects : string → bool.
Variables t0 t1 : Z.

Lemma recordSpf_mx r :
  hasMx (recordSpf config resolveTxt r) = hasMx r ∧
  mxRecords (recordSpf config resolveTxt r) = mxRecords r ∧
  isConnectable (recordSpf config resolveTxt r) = isConnectable r.
Proof. unfold recordSpf. repeat case_match; done. Qed.

Lemma recordDmarc_mx r :
  hasMx (recordDmarc config resolveTxt r) = hasMx r ∧
  mxRecords (recordDmarc config resolveTxt r) = mxRecords r ∧
  isConnectable (recordDmarc config resolveTxt r) = isConnectable r.
Proof. unfold recordDmarc. repeat case_match; done. Qed.

Lemma validateDomain_mx name :
  let r := fst (validateDomain config resolveMx resolveTxt connects t0 t1 name) in
  match fst (resolveMxWithRetry config resolveMx name) with
  | Fulfilled (x :: records) =>
      hasMx r = true ∧ mxRecords r = sortByPriority (x :: records) ∧
      isConnectable r = (validateMxConnectivity config
                         && mxConnectivity connects (sortByPriority (x :: records)))
  | _ => hasMx r = false ∧ mxRecords r = [] ∧ isConnectable r = false
  end.
Proof.
  intros r. subst r. rewrite validateDomain_result. simpl.
  destruct (fst (resolveMxWithRetry config resolveMx name)) as [records|msg]; [|done].
  destruct (recordDmarc_mx (recordSpf config resolveTxt
                              (recordMx config connects (emptyResult name) records)))
    as (-> & -> & ->).
  destruct (recordSpf_mx (recordMx config connects (emptyResult name) records))
    as (-> & -> & ->).
  unfold recordMx. destruct records as [|x records]; simpl; [done|].
  by destruct (validateMxConnectivity config).
Qed.


(** X6: the MX list of a result is the resolver's answer reordered by
    ascending priority, nothing added or lost, and [hasMx] holds exactly
    when that list is not empty. *)
Theorem dns_mx_records_sorted_permutation (name : string) :
  let r := fst (validateDomain config resolveMx resolveTxt connects t0 t1 name) in
  (hasMx r = true ↔ mxRecords r ≠ []) ∧
  Spec.ascending (mxRecords r) ∧
  match fst (resolveMxWithRetry config resolveMx name) with
  | Fulfilled records => mxRecords r ≡ₚ records
  | RejectedWith _ => mxRecords r = []
  end.
Proof.
  intros r. pose proof (validateDomain_mx name) as H. fold r in H. simpl in H.
  destruct (fst (resolveMxWithRetry config resolveMx name)) as [[|x records]|msg].
  - destruct H as (-> & -> & _). repeat split; try done. constructor.
  - destruct H as (-> & -> & _).
    destruct (sortByPriority_sorts (x :: records)) as [Hs Hp].
    repeat split; try done.
    intros _ Hnil. apply Permutation_length in Hp.
    change (sortByPriority (x :: records))
      with (insertByPriority x (sortByPriority records)) in Hp.
    rewrite Hnil in Hp. done.
  - destruct H as (-> & -> & _). repeat split; try done. constructor.
Qed.

(** X7: [isConnectable] is set only with [validateMxConnectivity]
    enabled, and then it is the outcome of connecting to the first
    record of the sorted list: an exchanger whose priority value no
    other record undercuts.  The other exchangers are not probed. *)
Theorem dns_connectivity_probes_primary (name : string) :
  let r := fst (validateDomain config resolveMx resolveTxt connects t0 t1 name) in
  isConnectable r =
    (validateMxConnectivity config &&
     match mxRecords r with
     | primaryMx :: _ => connects (exchange primaryMx)
     | [] => false
     end) ∧
  ∀ primaryMx rest x,
    mxRecords r = primaryMx :: rest → x ∈ rest → priority primaryMx <= priority x.
Proof.
  intros r. split.
  - pose proof (validateDomain_mx name) as H. fold r in H. simpl in H.
    destruct (fst (resolveMxWithRetry config resolveMx name)) as [[|x records]|msg].
    + destruct H as (_ & -> & ->). by rewrite andb_false_r.
    + destruct H as (_ & -> & ->). done.
    + destruct H as (_ & -> & ->). by rewrite andb_false_r.
  - intros primaryMx rest x Hr Hx.
    pose proof (dns_mxRecords_ascending config resolveMx resolveTxt connects t0 t1 name)
      as Hs.
    fold r in Hs. rewrite Hr in Hs. apply StronglySorted_inv in Hs as [_ Hall].
    rewrite Forall_forall in Hall. by apply Hall.
Qed.
End DomainProperties.

(** ** DNS cache *)

Section CacheMoreProperties.
Import Dns.
Context {V : Type}.
Implicit Types m : list (string * DnsCache V).

Lemma mapGet_mapSet_ne m key e k' : k' ≠ key → mapGet (mapSet m key e) k' = mapGet m k'.
Proof.
  intros Hne. induction m as [|[k x] m IH]; unfold mapGet in *; simpl.
  - by rewrite bool_decide_eq_false_2.
  - destruct (bool_decide (k = key)) eqn:Hk; simpl.
    + apply bool_decide_eq_true_1 in Hk. subst k.
      by rewrite !bool_decide_eq_false_2 by done.
    + destruct (bool_decide (k = k')); [done | exact IH].
Qed.

Lemma mapGet_mapDelete_ne m k0 k' : k' ≠ k0 → mapGet (mapDelete m k0) k' = mapGet m k'.
Proof.
  intros Hne. induction m as [|[k x] m IH]; unfold mapGet, mapDelete in *; simpl; [done|].
  rewrite filter_cons. simpl. case_decide as Hk; simpl.
  - destruct (bool_decide (k = k')); [done | exact IH].
  - subst k. by rewrite bool_decide_eq_false_2.
Qed.

Lemma keys_mapSet m key e :
  map fst (mapSet m key e) =
  if bool_decide (key ∈ map fst m) then map fst m else map fst m ++ [key].
Proof.
  induction m as [|[k x] m IH]; simpl; [done|].
  destruct (bool_decide (k = key)) eqn:Hk; simpl.
  - apply bool_decide_eq_true_1 in Hk. subst k.
    by rewrite bool_decide_eq_true_2 by apply list_elem_of_here.
  - apply bool_decide_eq_false_1 in Hk. rewrite IH.
    case_bool_decide as H1; case_bool_decide as H2; try done.
    + exfalso. apply H2. by apply list_elem_of_further.
    + apply elem_of_cons in H2 as [?|?]; done.
Qed.

Lemma keys_mapDelete m k0 : map fst (mapDelete m k0) = filter (fun k => k ≠ k0) (map fst m).
Proof.
  unfold mapDelete. induction m as [|[k x] m IH]; simpl; [done|].
  rewrite !filter_cons. simpl. case_decide; simpl; by rewrite IH.
Qed.

Lemma filter_ne_not_in (k0 : string) (ks : list string) :
  k0 ∉ ks → filter (fun k => k ≠ k0) ks = ks.
Proof.
  induction ks as [|k ks IH]; [done|]. intros [Hne Hnot]%not_elem_of_cons.
  rewrite filter_cons, decide_True by done. f_equal. by apply IH.
Qed.

(** X8: on a cache whose keys are distinct and non-empty (the resolver
    only uses keys such as ["mx:" + domain]) and that holds at most
    [cacheSize] entries, [setCachedResult] keeps all three facts: it
    makes room by dropping the oldest entry before it stores the new
    one, so the cache never grows beyond [cacheSize], and the key just
    set is present. *)
Theorem dns_cache_set_keeps_bounds (config : DnsResolverConfig) m (key : string)
    (v : V) (ttlArg : option Z) (now : Z) :
  NoDup (map fst m) → Forall (fun k => k ≠ "") (map fst m) → key ≠ "" →
  1 <= cacheSize config → Z.of_nat (length m) <= cacheSize config →
  let m' := setCachedResult config m key v ttlArg now in
  NoDup (map fst m') ∧ Forall (fun k => k ≠ "") (map fst m') ∧
  Z.of_nat (length m') <= cacheSize config ∧ key ∈ map fst m'.
Proof.
  intros Hnd Hne Hkey Hsize Hlen m'. subst m'. unfold setCachedResult.
  set (entry := {| result := v; timestamp := now; ttl := effectiveTtl config ttlArg |}).
  match goal with |- context [mapSet ?x key entry] => set (m1 := x) end.
  assert (H1 : NoDup (map fst m1) ∧ Forall (fun k => k ≠ "") (map fst m1) ∧
               Z.of_nat (length (map fst m1)) < cacheSize config).
  { subst m1. destruct (cacheSize config <=? Z.of_nat (length m)) eqn:Hfull.
    - apply Z.leb_le in Hfull. destruct m as [|[oldest x] rest]; [simpl in *; lia|].
      simpl in Hne. apply Forall_cons in Hne as [Hold Hne].
      destruct oldest as [|c oldest]; [done|]. cbn [Js.falsy].
      rewrite keys_mapDelete. simpl. rewrite filter_cons, decide_False by tauto.
      simpl in Hnd. apply NoDup_cons in Hnd as [Hnot Hnd].
      rewrite filter_ne_not_in by done.
      rewrite length_map. simpl in Hlen. split; [done|]. split; [done|]. lia.
    - apply Z.leb_gt in Hfull. rewrite length_map. done. }
  destruct H1 as (Hnd1 & Hne1 & Hlen1).
  rewrite <- (length_map fst (mapSet m1 key entry)), keys_mapSet.
  case_bool_decide as Hin.
  - repeat split; try done. lia.
  - repeat split.
    + apply NoDup_app. split; [done|]. split; [|apply NoDup_singleton].
      intros k Hk ->%list_elem_of_singleton. done.
    + apply Forall_app. split; [done|]. by apply Forall_singleton.
    + rewrite length_app. simpl. lia.
    + apply elem_of_app. right. by apply list_elem_of_singleton.
Qed.

(** X9: storing one key leaves the entry of every other key as it was,
    with one exception: when the cache is full, the oldest key, unless
    it is the empty string, loses its entry. *)
Theorem dns_cache_set_frame (config : DnsResolverConfig) m (key k' : string)
    (v : V) (ttlArg : option Z) (now : Z) :
  k' ≠ key →
  let m' := setCachedResult config m key v ttlArg now in
  match m with
  | (oldest, _) :: _ =>
      if bool_decide (cacheSize config <= Z.of_nat (length m) ∧ oldest = k' ∧ k' ≠ "")
      then mapGet m' k' = None
      else mapGet m' k' = mapGet m k'
  | [] => mapGet m' k' = None
  end.
Proof.
  intros Hne m'. subst m'. unfold setCachedResult.
  rewrite mapGet_mapSet_ne by done.
  destruct m as [|[oldest x] rest]; [by destruct (_ <=? _)|].
  case_bool_decide as Hc.
  - destruct Hc as (Hfull & -> & Hk). rewrite (proj2 (Z.leb_le _ _)) by done.
    destruct k' as [|c k']; [done|]. cbn [Js.falsy].
    apply mapGet_mapDelete.
  - destruct (cacheSize config <=? Z.of_nat (length ((oldest, x) :: rest))) eqn:Hfull;
      [|done].
    apply Z.leb_le in Hfull.
    destruct oldest as [|c oldest]; [done|]. cbn [Js.falsy].
    apply mapGet_mapDelete_ne. intros ->. apply Hc. done.
Qed.

Lemma foldl_mapDelete m (ks : list string) :
  foldl mapDelete m ks = filter (fun kv => fst kv ∉ ks) m.
Proof.
  revert m. induction ks as [|k ks IH]; intros m; simpl.
  - induction m as [|kv m IHm]; [done|].
    rewrite filter_cons, decide_True by apply not_elem_of_nil. by f_equal.
  - rewrite IH. unfold mapDelete. induction m as [|kv m IHm]; [done|].
    rewrite !filter_cons. destruct (decide (kv.1 ≠ k)) as [Hne|Heq].
    + rewrite filter_cons. destruct (decide (kv.1 ∉ ks)) as [Hnot|Hin].
      * rewrite decide_True by (by apply not_elem_of_cons). by f_equal.
      * rewrite decide_False; [done|]. intros [_ ?]%not_elem_of_cons. done.
    + rewrite decide_False; [done|]. intros [? _]%not_elem_of_cons. done.
Qed.

Lemma mapGet_filter_keys m (ks : list string) key :
  mapGet (filter (fun kv => fst kv ∉ ks) m) key =
  if bool_decide (key ∈ ks) then None else mapGet m key.
Proof.
  induction m as [|[k x] m IH]; unfold mapGet in *; simpl; [by case_bool_decide|].
  rewrite filter_cons. simpl. destruct (decide (k ∉ ks)) as [Hnot|Hin]; simpl.
  - destruct (bool_decide (k = key)) eqn:Hk; [|exact IH].
    apply bool_decide_eq_true_1 in Hk. subst k. by rewrite bool_decide_eq_false_2.
  - rewrite IH. destruct (bool_decide (k = key)) eqn:Hk; [|done].
    apply bool_decide_eq_true_1 in Hk. subst k.
    rewrite bool_decide_eq_true_2; [done|]. by apply dec_stable.
Qed.

Lemma mapGet_Some_elem m key e : mapGet m key = Some e → (key, e) ∈ m.
Proof.
  induction m as [|[k x] m IH]; unfold mapGet in *; simpl; [done|].
  destruct (bool_decide (k = key)) eqn:Hk; simpl.
  - apply bool_decide_eq_true_1 in Hk. subst k. intros [= ->]. apply list_elem_of_here.
  - intros H. apply list_elem_of_further. by apply IH.
Qed.

Lemma mapGet_elem_NoDup m key e :
  NoDup (map fst m) → (key, e) ∈ m → mapGet m key = Some e.
Proof.
  induction m as [|[k x] m IH]; simpl; [by intros _ ?%elem_of_nil|].
  intros [Hnot Hnd]%NoDup_cons Hin. unfold mapGet in *. simpl.
  apply elem_of_cons in Hin as [[= <- <-]|Hin].
  - by rewrite bool_decide_eq_true_2.
  - rewrite bool_decide_eq_false_2; [by apply IH|].
    intros ->. apply Hnot. apply list_elem_of_fmap. by exists (key, e).
Qed.

Lemma mapGet_cleanupCache m key now :
  NoDup (map fst m) →
  mapGet (cleanupCache m now) key =
  match mapGet m key with
  | Some e => if bool_decide (ttl e < now - timestamp e) then None else Some e
  | None => None
  end.
Proof.
  intros Hnd. unfold cleanupCache. rewrite foldl_mapDelete, mapGet_filter_keys.
  destruct (mapGet m key) as [e|] eqn:Hget.
  - case_bool_decide as Hin; case_bool_decide as Hexp; try done; exfalso.
    + apply list_elem_of_fmap in Hin as ([k e'] & -> & [Hexp' Hin]%list_elem_of_filter).
      simpl in *. rewrite (mapGet_elem_NoDup m k e' Hnd Hin) in Hget.
      by injection Hget as ->.
    + apply Hin. apply list_elem_of_fmap. exists (key, e). split; [done|].
      apply list_elem_of_filter. split; [done|]. by apply mapGet_Some_elem.
  - case_bool_decide as Hin; [done|done].
Qed.

(** X10: the periodic cleanup is invisible to readers: on a cache with
    distinct keys, a read of any key at the time of the cleanup or
    later returns the same value whether or not the cleanup ran.  The
    cleanup only removes entries, and every entry it leaves is at most
    its TTL old. *)
Theorem dns_cleanup_preserves_reads m (key : string) (now now' : Z) :
  NoDup (map fst m) → now <= now' →
  fst (getCachedResult (cleanupCache m now) key now') =
    fst (getCachedResult m key now') ∧
  ∀ k e, (k, e) ∈ cleanupCache m now → (k, e) ∈ m ∧ now - timestamp e <= ttl e.
Proof.
  intros Hnd Hle. split.
  - unfold getCachedResult. rewrite mapGet_cleanupCache by done.
    destruct (mapGet m key) as [e|]; [|done].
    case_bool_decide as Hexp; [|by destruct (_ <? _)].
    by rewrite (proj2 (Z.ltb_ge _ _)) by lia.
  - intros k e Hin. unfold cleanupCache in Hin. rewrite foldl_mapDelete in Hin.
    apply list_elem_of_filter in Hin as [Hnot Hin]. split; [done|].
    destruct (decide (ttl e < now - timestamp e)) as [Hexp|]; [|lia].
    exfalso. apply Hnot. simpl. apply list_elem_of_fmap. exists (k, e).
    split; [done|]. by apply list_elem_of_filter.
Qed.
End CacheMoreProperties.

(** ** Concurrency gate: what it does keep *)

Section GateInvariant.
Import Gate.
Variable concurrency : Z.


Lemma remove_NoDup (op : nat) (l : list nat) :
  NoDup l → op ∈ l → l ≡ₚ op :: remove op l ∧ S (length (remove op l)) = length l.
Proof.
  unfold remove. induction l as [|x l IH]; [by intros _ ?%elem_of_nil|].
  intros [Hnot Hnd]%NoDup_cons Hin. rewrite filter_cons.
  destruct (decide (x = op)) as [->|Hne].
  - rewrite decide_False by tauto.
    assert (Hl : filter (fun y => y ≠ op) l = l).
    { clear -Hnot. induction l as [|y l IH]; [done|].
      apply not_elem_of_cons in Hnot as [Hne Hnot].
      rewrite filter_cons, decide_True by done. f_equal. by apply IH. }
    by rewrite Hl.
  - rewrite decide_True by done.
    apply elem_of_cons in Hin as [->|Hin]; [done|].
    destruct (IH Hnd Hin) as [Hp Hlen]. split.
    + rewrite Hp at 1. apply Permutation_swap.
    + simpl. by rewrite Hlen.
Qed.

Lemma gate_step_invariant (s s' : State) (ops : list nat) (e : Event) :
  Spec.gateInvariant concurrency s ops →
  NoDup (ops ++ Spec.submitted [e]) →
  step concurrency s e = Some s' →
  Spec.gateInvariant concurrency s' (ops ++ Spec.submitted [e]).
Proof.
  intros (Hnd & Hperm & Hcount & Hbound) Hnd' Hstep.
  assert (Hparts : NoDup (requestQueue s ++ immediates s ++ admitted s
                          ++ dequeued s ++ settled s)) by by rewrite <- Hperm.
  unfold Spec.gateInvariant.
  destruct e as [op|op|]; simpl in Hstep, Hnd' |- *.
  - injection Hstep as <-. unfold submit.
    destruct (concurrency <=? activeRequests s) eqn:Hfull; simpl.
    + split; [done|]. split; [rewrite Hperm; solve_Permutation|]. done.
    + apply Z.leb_gt in Hfull.
      split; [done|]. split; [rewrite Hperm; solve_Permutation|].
      rewrite length_app. simpl. lia.
  - rewrite app_nil_r in *.
    apply NoDup_app in Hparts as (_ & _ & Hparts).
    apply NoDup_app in Hparts as (_ & _ & Hparts).
    apply NoDup_app in Hparts as (Hadm & _ & Hparts).
    apply NoDup_app in Hparts as (Hdeq & _ & _).
    case_bool_decide as Ha.
    + injection Hstep as <-. destruct (remove_NoDup op (admitted s) Hadm Ha) as [Hp Hl].
      unfold release. destruct (requestQueue s) as [|next rest] eqn:Hq; simpl.
      * split; [done|]. split; [rewrite Hperm, Hp at 1; solve_Permutation|]. lia.
      * split; [done|]. split; [rewrite Hperm, Hp at 1; solve_Permutation|]. lia.
    + case_bool_decide as Hd; [|done]. injection Hstep as <-.
      destruct (remove_NoDup op (dequeued s) Hdeq Hd) as [Hp Hl].
      unfold finishDequeued. simpl.
      split; [done|]. split; [rewrite Hperm, Hp at 1; solve_Permutation|]. done.
  - rewrite app_nil_r in *.
    destruct (immediates s) as [|next rest] eqn:Hi; [done|].
    injection Hstep as <-. simpl.
    split; [done|]. split; [rewrite Hperm; solve_Permutation|]. done.
Qed.

Lemma gate_run_invariant (events : list Event) (s s' : State) (ops : list nat) :
  Spec.gateInvariant concurrency s ops →
  NoDup (ops ++ Spec.submitted events) →
  run concurrency s events = Some s' →
  Spec.gateInvariant concurrency s' (ops ++ Spec.submitted events).
Proof.
  revert s ops. induction events as [|e events IH]; intros s ops Hinv Hnd Hrun.
  - simpl in *. injection Hrun as <-. by rewrite app_nil_r.
  - simpl in Hrun. destruct (step concurrency s e) as [s1|] eqn:Hstep; [|done].
    assert (Hsub : Spec.submitted (e :: events) =
                   Spec.submitted [e] ++ Spec.submitted events).
    { unfold Spec.submitted. simpl. by destruct e. }
    rewrite Hsub, app_assoc in *.
    apply (IH s1); [|done|done].
    apply (gate_step_invariant s); [done| |done].
    by apply NoDup_app in Hnd as (? & _ & _).
Qed.

(** X11: in every run in which the callers submit distinct operations,
    no operation is lost or duplicated (each is queued, scheduled,
    running or settled, exactly once), [activeRequests] equals the
    number of running operations that were admitted directly, and that
    number never exceeds [concurrency]. *)
Theorem gate_conserves_operations (events : list Event) (s : State) :
  NoDup (Spec.submitted events) →
  run concurrency initial events = Some s →
  Spec.submitted events ≡ₚ
    requestQueue s ++ immediates s ++ admitted s ++ dequeued s ++ settled s ∧
  activeRequests s = Z.of_nat (length (admitted s)) ∧
  Z.of_nat (length (admitted s)) <= Z.max 0 concurrency.
Proof.
  intros Hnd Hrun.
  destruct (gate_run_invariant events initial s []) as (_ & Hp & Hc & Hb);
    [ | done | done | ].
  - split; [constructor|]. split; [done|]. simpl. split; [done | lia].
  - simpl in Hp. split; [done|]. split; [done|]. by rewrite <- Hc.
Qed.
End GateInvariant.

(** ** Normalization *)

Lemma lowerChar_idempotent c : Js.lowerChar (Js.lowerChar c) = Js.lowerChar c.
Proof. destruct c as [[] [] [] [] [] [] [] []]; reflexivity. Qed.

Lemma isWhiteSpace_lowerChar c : Js.isWhiteSpace (Js.lowerChar c) = Js.isWhiteSpace c.
Proof. destruct c as [[] [] [] [] [] [] [] []]; reflexivity. Qed.

Lemma toLowerCase_idempotent s : Js.toLowerCase (Js.toLowerCase s) = Js.toLowerCase s.
Proof. induction s as [|c s IH]; simpl; [done|]. by rewrite lowerChar_idempotent, IH. Qed.

Lemma toLowerCase_trimStart s :
  Js.toLowerCase (Js.trimStart s) = Js.trimStart (Js.toLowerCase s).
Proof.
  induction s as [|c s IH]; simpl; [done|]. rewrite isWhiteSpace_lowerChar.
  by destruct (Js.isWhiteSpace c).
Qed.

Lemma toLowerCase_trimEnd s :
  Js.toLowerCase (Js.trimEnd s) = Js.trimEnd (Js.toLowerCase s).
Proof.
  induction s as [|c s IH]; simpl; [done|]. rewrite <- IH, isWhiteSpace_lowerChar.
  destruct (Js.trimEnd s); simpl; [by destruct (Js.isWhiteSpace c) | done].
Qed.

Lemma trimEnd_idempotent s : Js.trimEnd (Js.trimEnd s) = Js.trimEnd s.
Proof.
  induction s as [|c s IH]; simpl; [done|].
  destruct (Js.trimEnd s) as [|d t] eqn:Ht.
  - destruct (Js.isWhiteSpace c) eqn:Hc; simpl; [done|]. by rewrite Hc.
  - change (Js.trimEnd (String c (String d t))) with
      (match Js.trimEnd (String d t) with
       | EmptyString => if Js.isWhiteSpace c then EmptyString else String c EmptyString
       | u => String c u
       end).
    by rewrite IH.
Qed.

Lemma trimStart_trimEnd s :
  Js.trimStart (Js.trimEnd (Js.trimStart s)) = Js.trimEnd (Js.trimStart s).
Proof.
  induction s as [|c s IH]; simpl; [done|].
  destruct (Js.isWhiteSpace c) eqn:Hc; [exact IH|].
  simpl. destruct (Js.trimEnd s); rewrite ?Hc; simpl; by rewrite Hc.
Qed.

Lemma normalize_idempotent e :
  Checker.normalize (Checker.normalize e) = Checker.normalize e.
Proof.
  unfold Checker.normalize, Js.trim.
  rewrite toLowerCase_trimEnd, toLowerCase_trimStart, toLowerCase_idempotent.
  by rewrite trimStart_trimEnd, trimEnd_idempotent.
Qed.

Example normalize_example : Checker.normalize " USER@Example.com " = "user@example.com".
Proof. reflexivity. Qed.

Section NormalizationProperties.
Import Checker.
Variable config : EmailCheckerConfig.
Variable regexTest : bool → string → bool.
Variable checkAllowlist : string → bool.
Variables checkBlacklist checkDisposableDomain : string → MatchResult.
Variable RegExp : Type.
Variable customPatterns : list RegExp.
Variable analyzePatterns : string → string → string → list RegExp → Z * list string.
Variable validateMxRecord : string → Settled Dns.DnsValidationResult.
Variable simpleMxCheck : string → Settled bool.
Variable validateSmtpDeliverability :
  string → option (list MxRecord) → Settled Smtp.SmtpValidationResult.
Variables startTime now : Z.
Variable emailPatternTest : string → bool.
Variable cacheGet : string → Settled (option EmailValidationResult).
Variable cacheSet : string → EmailValidationResult → Settled unit.
Variable updateMetrics : EmailValidationResult → Settled unit.

(** X12: [checkEmail] only sees its argument through lower-casing and
    trimming, and these are idempotent: an address and its normalized
    form get the same result. *)
Theorem checker_result_ignores_case_and_blanks (e : string)
    (pool : list EmailValidationResult) :
  checkEmail config regexTest checkAllowlist checkBlacklist checkDisposableDomain
    RegExp customPatterns analyzePatterns validateMxRecord simpleMxCheck
    validateSmtpDeliverability startTime now emailPatternTest cacheGet cacheSet
    updateMetrics (normalize e) pool =
  checkEmail config regexTest checkAllowlist checkBlacklist checkDisposableDomain
    RegExp customPatterns analyzePatterns validateMxRecord simpleMxCheck
    validateSmtpDeliverability startTime now emailPatternTest cacheGet cacheSet
    updateMetrics e pool.
Proof.
  unfold checkEmail. fold (normalize (normalize e)). fold (normalize e).
  by rewrite normalize_idempotent.
Qed.
End NormalizationProperties.

(** ** The pipeline after the allowlist *)

Section PipelineMoreProperties.
Import Checker.
Variable config : EmailCheckerConfig.
Variable regexTest : bool → string → bool.
Variable checkAllowlist : string → bool.
Variables checkBlacklist checkDisposableDomain : string → MatchResult.
Variable RegExp : Type.
Variable customPatterns : list RegExp.
Variable analyzePatterns : string → string → string → list RegExp → Z * list string.
Variable validateMxRecord : string → Settled Dns.DnsValidationResult.
Variable simpleMxCheck : string → Settled bool.
Variable validateSmtpDeliverability :
  string → option (list MxRecord) → Settled Smtp.SmtpValidationResult.
Variables startTime now : Z.

(** The fields no step after the allowlist touches. *)
Let sameIdentity (r r' : EmailValidationResult) : Prop :=
  email r' = email r ∧ isValid r' = isValid r ∧ errors r' = errors r ∧
  domain r' = domain r ∧ localPart r' = localPart r ∧ isAllowed r' = isAllowed r.

Let check (probe : string → option (list MxRecord) → Settled Smtp.SmtpValidationResult)
    (e : string) : EmailValidationResult * list Stage * list EmailValidationResult :=
  performEmailCheck config regexTest checkAllowlist checkBlacklist
    checkDisposableDomain RegExp customPatterns analyzePatterns validateMxRecord
    simpleMxCheck probe startTime now e resultPool.

Lemma blacklistStep_identity r : sameIdentity r (blacklistStep checkBlacklist r).
Proof. unfold sameIdentity, blacklistStep. by case_match. Qed.

Lemma disposableStep_identity r : sameIdentity r (disposableStep checkDisposableDomain r).
Proof. unfold sameIdentity, disposableStep. by case_match. Qed.

Lemma patternStep_identity r :
  sameIdentity r (fst (patternStep config RegExp customPatterns analyzePatterns r)).
Proof. unfold sameIdentity, patternStep. repeat case_match; done. Qed.

Lemma dnsStep_identity r :
  sameIdentity r (fst (dnsStep config validateMxRecord simpleMxCheck r)).
Proof. unfold sameIdentity, dnsStep, noMx. repeat case_match; done. Qed.

Lemma smtpStep_identity probe r dnsResult :
  sameIdentity r (smtpStep probe r dnsResult).
Proof. unfold sameIdentity, smtpStep. repeat case_match; done. Qed.

Lemma sameIdentity_trans r1 r2 r3 :
  sameIdentity r1 r2 → sameIdentity r2 r3 → sameIdentity r1 r3.
Proof.
  unfold sameIdentity. intros (?&?&?&?&?&?) (?&?&?&?&?&?).
  repeat split; congruence.
Qed.

(** What [performEmailCheck] computes for an address that is well
    formed and not allowlisted. *)
Lemma performEmailCheck_steps probe e :
  validateEmailFormat config regexTest e = None →
  checkAllowlist (snd (parseEmail e)) = false →
  let r0 := setIsValid (setDomain (setLocalPart (setEmail freshResult e)
                                     (fst (parseEmail e))) (snd (parseEmail e))) true in
  let r1 := disposableStep checkDisposableDomain (blacklistStep checkBlacklist r0) in
  let r2 := fst (patternStep config RegExp customPatterns analyzePatterns r1) in
  let r3 := if checkMxRecord config
            then dnsStep config validateMxRecord simpleMxCheck r2 else (r2, None) in
  let r4 := if checkSmtpDeliverability config then smtpStep probe (fst r3) (snd r3)
            else fst r3 in
  fst (fst (check probe e)) = setValidationTime r4 (now - startTime).
Proof.
  intros Hfmt Hallow. subst check. unfold performEmailCheck. simpl. rewrite Hfmt.
  destruct (parseEmail e) as [local dom] eqn:Hparse. simpl in *. rewrite Hallow.
  destruct (patternStep _ _ _ _ _) as [rp analysed]. simpl.
  destruct (checkMxRecord config); simpl.
  - destruct (dnsStep _ _ _ _) as [rd dnsResult]. simpl.
    by destruct (checkSmtpDeliverability config).
  - by destruct (checkSmtpDeliverability config).
Qed.

(** X13: failures of the DNS and SMTP probes never invalidate an
    address and never reach [errors].  The result of
    [performEmailCheck] has [isValid = true] and no error exactly when
    the format check accepts the address, whatever the probes answer
    and even when their promises reject; a rejected format gives the
    single error of the format check and consults no collaborator. *)
Theorem checker_probe_failures_are_warnings (e : string) :
  let out := check validateSmtpDeliverability e in
  let r := fst (fst out) in
  match validateEmailFormat config regexTest e with
  | Some message =>
      r = setValidationTime (pushError (setEmail freshResult e) message)
            (now - startTime) ∧
      snd (fst out) = []
  | None =>
      isValid r = true ∧ errors r = [] ∧ email r = e ∧
      (localPart r, domain r) = parseEmail e ∧
      isAllowed r = checkAllowlist (snd (parseEmail e))
  end.
Proof.
  intros out r. destruct (validateEmailFormat config regexTest e) as [message|] eqn:Hfmt.
  - subst r out check. unfold performEmailCheck. simpl. by rewrite Hfmt.
  - destruct (checkAllowlist (snd (parseEmail e))) eqn:Hallow.
    + subst r out check. cbv beta.
      rewrite (performEmailCheck_allowlisted config regexTest checkAllowlist
                 checkBlacklist checkDisposableDomain RegExp customPatterns
                 analyzePatterns validateMxRecord simpleMxCheck
                 validateSmtpDeliverability startTime now e Hfmt Hallow).
      simpl. repeat split; try done. by destruct (parseEmail e).
    + subst r out.
      rewrite (performEmailCheck_steps validateSmtpDeliverability e Hfmt Hallow).
      set (r0 := setIsValid _ true).
      assert (H2 : sameIdentity r0
                (fst (patternStep config RegExp customPatterns analyzePatterns
                        (disposableStep checkDisposableDomain
                           (blacklistStep checkBlacklist r0))))).
      { eapply sameIdentity_trans; [apply blacklistStep_identity|].
        eapply sameIdentity_trans; [apply disposableStep_identity|].
        apply patternStep_identity. }
      match goal with |- context [setValidationTime ?x _] => set (r4 := x) end.
      assert (H4 : sameIdentity r0 r4).
      { subst r4. destruct (checkMxRecord config); simpl.
        - assert (H3 := dnsStep_identity
                          (fst (patternStep config RegExp customPatterns analyzePatterns
                                  (disposableStep checkDisposableDomain
                                     (blacklistStep checkBlacklist r0))))).
          destruct (checkSmtpDeliverability config).
          + eapply sameIdentity_trans; [exact H2|].
            eapply sameIdentity_trans; [exact H3|]. apply smtpStep_identity.
          + eapply sameIdentity_trans; [exact H2 | exact H3].
        - destruct (checkSmtpDeliverability config); [|exact H2].
          eapply sameIdentity_trans; [exact H2 | apply smtpStep_identity]. }
      destruct H4 as (He & Hv & Herr & Hd & Hl & Ha). simpl.
      rewrite Hv, Herr, He, Hd, Hl, Ha. subst r0. simpl.
      repeat split; try done. by destruct (parseEmail e).
Qed.

Lemma smtpStep_grows probe r dnsResult :
  confidence r <= confidence (smtpStep probe r dnsResult) ∧
  ∀ w, w ∈ warnings r → w ∈ warnings (smtpStep probe r dnsResult).
Proof.
  unfold smtpStep. repeat case_match; simpl; (split; [lia|]);
    intros w Hw; rewrite ?elem_of_app; tauto.
Qed.

Lemma pipeline_domain e :
  validateEmailFormat config regexTest e = None →
  checkAllowlist (snd (parseEmail e)) = false →
  let r0 := setIsValid (setDomain (setLocalPart (setEmail freshResult e)
                                     (fst (parseEmail e))) (snd (parseEmail e))) true in
  let r2 := fst (patternStep config RegExp customPatterns analyzePatterns
                   (disposableStep checkDisposableDomain
                      (blacklistStep checkBlacklist r0))) in
  domain r2 = snd (parseEmail e) ∧ email r2 = e.
Proof.
  intros _ _ r0 r2.
  assert (H2 : sameIdentity r0 r2).
  { eapply sameIdentity_trans; [apply blacklistStep_identity|].
    eapply sameIdentity_trans; [apply disposableStep_identity|].
    apply patternStep_identity. }
  destruct H2 as (He & _ & _ & Hd & _). by rewrite He, Hd.
Qed.

(** X14: with DNS checking on, an address whose domain is reported to
    have no MX record (by the full validation when an advanced check is
    configured, by the simple check otherwise) ends with a confidence
    of at least 60 and the warning "No MX record found for domain",
    whatever the SMTP stage does afterwards. *)
Theorem checker_missing_mx_floor (e : string) :
  let r := fst (fst (check validateSmtpDeliverability e)) in
  let dom := snd (parseEmail e) in
  validateEmailFormat config regexTest e = None →
  checkAllowlist dom = false →
  checkMxRecord config = true →
  (if needsAdvancedValidation config
   then ∃ dnsResult, validateMxRecord dom = Fulfilled dnsResult ∧
                     Dns.hasMx dnsResult = false
   else simpleMxCheck dom = Fulfilled false) →
  60 <= confidence r ∧ "No MX record found for domain" ∈ warnings r.
Proof.
  intros r dom Hfmt Hallow Hmx Hno. subst r.
  rewrite (performEmailCheck_steps validateSmtpDeliverability e Hfmt Hallow).
  destruct (pipeline_domain e Hfmt Hallow) as [Hd _].
  rewrite Hmx. simpl.
  match goal with |- context [dnsStep _ _ _ ?x] => set (r2 := x) in * end.
  assert (H3 : 60 <= confidence (fst (dnsStep config validateMxRecord simpleMxCheck r2)) ∧
               "No MX record found for domain" ∈
                 warnings (fst (dnsStep config validateMxRecord simpleMxCheck r2))).
  { unfold dnsStep. rewrite Hd. fold dom.
    destruct (needsAdvancedValidation config).
    - destruct Hno as (dnsResult & -> & Hhas). rewrite Hhas. unfold noMx.
      case_match; simpl; (split; [lia|]); rewrite !elem_of_app;
        rewrite ?list_elem_of_singleton; tauto.
    - rewrite Hno. unfold noMx. simpl. split; [lia|].
      rewrite elem_of_app, list_elem_of_singleton. tauto. }
  destruct H3 as [Hc Hw].
  destruct (checkSmtpDeliverability config); [|done].
  destruct (smtpStep_grows validateSmtpDeliverability
              (fst (dnsStep config validateMxRecord simpleMxCheck r2))
              (snd (dnsStep config validateMxRecord simpleMxCheck r2))) as [Hc' Hw'].
  split; [lia | by apply Hw'].
Qed.

(** X15: with SMTP checking on, an address whose mailbox the SMTP
    probe does not report valid ends with a confidence of at least 70,
    the warning "Email address does not appear to be deliverable", and
    an [smtpValidation] sub-result with [isDeliverable = false]. *)
Theorem checker_undeliverable_floor (e : string) :
  let r := fst (fst (check validateSmtpDeliverability e)) in
  validateEmailFormat config regexTest e = None →
  checkAllowlist (snd (parseEmail e)) = false →
  checkSmtpDeliverability config = true →
  (∀ mx, ∃ smtpResult, validateSmtpDeliverability e mx = Fulfilled smtpResult ∧
                       Smtp.isMailboxValid smtpResult = false) →
  70 <= confidence r ∧
  "Email address does not appear to be deliverable" ∈ warnings r ∧
  smtp_isDeliverable <$> smtpValidation r = Some false.
Proof.
  intros r Hfmt Hallow Hsmtp Hbad. subst r.
  rewrite (performEmailCheck_steps validateSmtpDeliverability e Hfmt Hallow).
  destruct (pipeline_domain e Hfmt Hallow) as [_ He].
  rewrite Hsmtp. simpl.
  match goal with |- context [smtpStep _ ?x ?d] => set (r3 := x) in *; set (d3 := d) in * end.
  assert (He3 : email r3 = e).
  { subst r3. destruct (checkMxRecord config); [|exact He].
    destruct (dnsStep_identity
                (fst (patternStep config RegExp customPatterns analyzePatterns
                        (disposableStep checkDisposableDomain
                           (blacklistStep checkBlacklist
                              (setIsValid
                                 (setDomain
                                    (setLocalPart (setEmail freshResult e)
                                       (fst (parseEmail e)))
                                    (snd (parseEmail e))) true))))))
      as (He' & _). simpl in *. by rewrite He'. }
  unfold smtpStep. rewrite He3.
  match goal with |- context [validateSmtpDeliverability e ?mx] =>
    destruct (Hbad mx) as (smtpResult & -> & Hmv) end.
  rewrite Hmv. case_match; simpl; (split; [lia|]); (split; [|done]);
    rewrite !elem_of_app, ?list_elem_of_singleton; tauto.
Qed.

(** X16: the confidence of a result stays between 0 and 100 provided
    the blacklist match, the disposable match and the pattern score
    do. *)
Theorem checker_confidence_range (e : string) :
  (∀ d, 0 <= match_confidence (checkBlacklist d) <= 100) →
  (∀ d, 0 <= match_confidence (checkDisposableDomain d) <= 100) →
  (∀ a l d, 0 <= fst (analyzePatterns a l d customPatterns) <= 100) →
  0 <= confidence (fst (fst (check validateSmtpDeliverability e))) <= 100.
Proof.
  intros Hb Hd Hp.
  destruct (validateEmailFormat config regexTest e) as [message|] eqn:Hfmt.
  { subst check. unfold performEmailCheck. simpl. rewrite Hfmt. simpl. lia. }
  destruct (checkAllowlist (snd (parseEmail e))) eqn:Hallow.
  { subst check. cbv beta.
    rewrite (performEmailCheck_allowlisted config regexTest checkAllowlist
               checkBlacklist checkDisposableDomain RegExp customPatterns
               analyzePatterns validateMxRecord simpleMxCheck
               validateSmtpDeliverability startTime now e Hfmt Hallow).
    simpl. lia. }
  rewrite (performEmailCheck_steps validateSmtpDeliverability e Hfmt Hallow).
  set (r0 := setIsValid _ true).
  assert (H1 : 0 <= confidence (disposableStep checkDisposableDomain
                                  (blacklistStep checkBlacklist r0)) <= 100).
  { unfold disposableStep, blacklistStep.
    pose proof (Hb (domain r0)). 
    repeat case_match; simpl;
      try match goal with |- context [match_confidence (checkDisposableDomain ?d)] =>
            pose proof (Hd d) end; simpl in *; lia. }
  set (r1 := disposableStep _ _) in *.
  assert (H2 : 0 <= confidence
                      (fst (patternStep config RegExp customPatterns analyzePatterns r1))
               <= 100).
  { unfold patternStep.
    pose proof (Hp (email r1) (localPart r1) (domain r1)) as Hs.
    destruct (analyzePatterns _ _ _ _) as [score ws]. simpl in Hs.
    repeat case_match; simpl; lia. }
  set (r2 := fst (patternStep _ _ _ _ r1)) in *.
  assert (H3 : ∀ r, 0 <= confidence r <= 100 →
               0 <= confidence (fst (dnsStep config validateMxRecord simpleMxCheck r))
               <= 100).
  { intros r Hr. unfold dnsStep, noMx. repeat case_match; simpl; lia. }
  assert (H4 : ∀ r d, 0 <= confidence r <= 100 →
               0 <= confidence (smtpStep validateSmtpDeliverability r d) <= 100).
  { intros r d Hr. unfold smtpStep. repeat case_match; simpl; lia. }
  simpl. destruct (checkMxRecord config), (checkSmtpDeliverability config); simpl; auto.
Qed.

(** X17: the SMTP stage is given the MX list only when an advanced DNS
    check ran; with DNS checking off, or with only the simple MX check
    that the default DNS configuration selects, it is called without a
    list and so probes the bare domain. *)
Theorem checker_smtp_without_mx_list (e : string) :
  checkMxRecord config && needsAdvancedValidation config = false →
  check validateSmtpDeliverability e =
  check (fun address _ => validateSmtpDeliverability address None) e.
Proof.
  intros Hsimple. subst check. unfold performEmailCheck. simpl.
  destruct (validateEmailFormat config regexTest e); [done|].
  destruct (parseEmail e) as [local dom].
  destruct (checkAllowlist dom); [done|].
  destruct (patternStep _ _ _ _ _) as [rp analysed].
  destruct (checkMxRecord config) eqn:Hmx; simpl in Hsimple.
  - unfold dnsStep. rewrite Hsimple.
    destruct (simpleMxCheck (domain rp)) as [[]|]; simpl;
      destruct (checkSmtpDeliverability config); done.
  - destruct (checkSmtpDeliverability config); done.
Qed.
End PipelineMoreProperties.

(** ** Pattern analysis *)

Section PatternProperties.
Import Validator.
Variable test : RegExp → string → bool.

(** Every warning comes with 15 to 30 points, in steps of 5. *)
Let balanced (acc : Z * list string) : Prop :=
  15 * Z.of_nat (length (snd acc)) <= fst acc <= 30 * Z.of_nat (length (snd acc)) ∧
  ∃ k, fst acc = 5 * k.

Lemma scorePattern_balanced points label subject acc patterns :
  15 <= points <= 30 → (∃ k, points = 5 * k) → balanced acc →
  balanced (foldl (scorePattern test points label subject) acc patterns).
Proof.
  intros Hp [kp Hkp]. revert acc.
  induction patterns as [|p patterns IH]; intros acc Hacc; simpl; [done|].
  apply IH. unfold scorePattern. destruct (test p subject); [|done].
  destruct Hacc as [Hb [k Hk]]. split; simpl.
  - rewrite length_app. simpl. lia.
  - exists (k + kp). lia.
Qed.

Lemma scoreIf_balanced condition points warning acc :
  15 <= points <= 30 → (∃ k, points = 5 * k) → balanced acc →
  balanced (scoreIf condition points warning acc).
Proof.
  intros Hp [kp Hkp] Hacc. unfold scoreIf. destruct condition; [|done].
  destruct Hacc as [Hb [k Hk]]. split; simpl.
  - rewrite length_app. simpl. lia.
  - exists (k + kp). lia.
Qed.

(** X18: the suspicion score is a multiple of 5 between 0 and 100; it
    is 0 exactly when there is no warning; and every warning
    contributes at most 30 points, so a score of 80 or more, the
    threshold at which the pipeline flags an address as disposable,
    takes at least three warnings. *)
Theorem patterns_score_bounds (address localPart domain : string)
    (customPatterns : list RegExp) :
  let score := fst (analyzePatterns test address localPart domain customPatterns) in
  let warnings := snd (analyzePatterns test address localPart domain customPatterns) in
  0 <= score <= 100 ∧
  (∃ k, score = 5 * k) ∧
  (score = 0 ↔ warnings = []) ∧
  score <= 30 * Z.of_nat (length warnings) ∧
  (80 <= score → (3 <= length warnings)%nat).
Proof.
  intros score warnings.
  assert (H : balanced (rawPatternScore test address localPart domain customPatterns)).
  { unfold rawPatternScore.
    apply scoreIf_balanced; [lia | by exists 5|].
    apply scoreIf_balanced; [lia | by exists 4|].
    apply scoreIf_balanced; [lia | by exists 6|].
    apply scoreIf_balanced; [lia | by exists 3|].
    apply scorePattern_balanced; [lia | by exists 5|].
    apply scorePattern_balanced; [lia | by exists 4|].
    split; simpl; [lia | by exists 0]. }
  subst score warnings. unfold analyzePatterns. simpl.
  destruct (rawPatternScore test address localPart domain customPatterns)
    as [raw ws]. destruct H as [Hb [k Hk]]. simpl in *.
  split; [lia|]. split.
  - destruct (decide (raw <= 100)).
    + exists k. lia.
    + exists 20. lia.
  - split; [|lia]. split.
    + intros H0. destruct ws; [done | simpl in *; lia].
    + intros ->. simpl in *. lia.
Qed.
End PatternProperties.

(** ** DNS and SMTP validation combined *)


Section DeliverabilityProperties.
Import Validator.
Variable dnsConfig : Dns.DnsResolverConfig.
Variable resolveMx : string → Z → Settled (list MxRecord).
Variable resolveTxt : string → Settled (list (list string)).
Variable connects : string → bool.
Variable smtpConfig : Smtp.SmtpValidationConfig.
Variable net : string → list Smtp.SocketEvent.
Variables dnsStart dnsEnd smtpStart smtpEnd : Z.

End DeliverabilityProperties.

(** ** Batch chunks *)

Lemma NoDup_dedupe (seen xs : list string) : NoDup (Js.dedupe seen xs).
Proof.
  revert seen. induction xs as [|x xs IH]; intros seen; simpl; [constructor|].
  case_bool_decide; [apply IH|]. constructor; [|apply IH].
  rewrite elem_of_dedupe. intros [_ Hnot]. apply Hnot, list_elem_of_here.
Qed.

Lemma chunksOf_lengths (fuel size : nat) (l : list string) :
  (1 <= size)%nat →
  Forall (fun chunk => (1 <= length chunk <= size)%nat) (Checker.chunksOf fuel size l).
Proof.
  intros Hsize. revert l. induction fuel as [|fuel IH]; intros l; simpl; [constructor|].
  destruct l as [|x l]; [constructor|]. constructor; [|apply IH].
  rewrite length_take. simpl. lia.
Qed.

(** X20: the batch calls [checkEmail] at most once per distinct
    normalized address and never for an address found in the cache:
    the chunks are disjoint, without repetition, cover exactly the
    normalized inputs that missed the cache, and each holds between 1
    and 50 addresses. *)
Theorem batch_each_address_checked_once {Result : Type} (enableCaching : bool)
    (cacheGet : string → option Result) (emails : list string) :
  let chunks := Checker.uncachedChunks enableCaching cacheGet emails in
  NoDup (concat chunks) ∧
  (∀ e, e ∈ concat chunks ↔
        e ∈ map Checker.normalize emails ∧
        Checker.cachedResult enableCaching cacheGet e = None) ∧
  Forall (fun chunk => (1 <= length chunk <= 50)%nat) chunks.
Proof.
  intros chunks. subst chunks. unfold Checker.uncachedChunks.
  set (unique := Js.dedupe [] (map Checker.normalize emails)).
  destruct (separate_spec enableCaching cacheGet unique ∅ []) as [Hun _].
  rewrite Hun. simpl.
  set (uncached := filter _ unique).
  rewrite concat_chunksOf by (apply chunkSize_pos || lia).
  split; [|split].
  - apply NoDup_filter, NoDup_dedupe.
  - intros e. subst uncached unique.
    rewrite list_elem_of_filter, elem_of_dedupe. split.
    + intros (? & ? & _). done.
    + intros [? ?]. split; [done|]. split; [done | apply not_elem_of_nil].
  - eapply Forall_impl; [apply chunksOf_lengths; pose proof (chunkSize_pos (length uncached)); lia|].
    simpl. intros chunk Hc. unfold Checker.chunkSize in Hc. lia.
Qed.

(** ** Format check and parsing *)

Lemma index_at_head (c : ascii) (s : string) :
  String.index 0 "@" (String c s) =
  if Ascii.eqb c "@" then Some 0%nat else S <$> String.index 0 "@" s.
Proof.
  cbn [String.index String.prefix]. destruct (ascii_dec "@" c) as [<-|Hne].
  - cbn. by destruct s.
  - rewrite (proj2 (Ascii.eqb_neq c "@")) by congruence.
    by destruct (String.index 0 "@" s).
Qed.

Lemma index_at_first (s : string) :
  String.index 0 "@" s =
  match Spec.afterAt s with
  | Some _ => Some (String.length (Spec.beforeAt s))
  | None => None
  end.
Proof.
  induction s as [|c s IH]; [done|]. rewrite index_at_head. simpl.
  destruct (Ascii.eqb c "@"); [done|]. rewrite IH.
  by destruct (Spec.afterAt s).
Qed.

Lemma index_at_skip (l rest : string) (n : nat) :
  String.index (String.length l + n) "@" (l +:+ rest) =
  (fun k => (String.length l + k)%nat) <$> String.index n "@" rest.
Proof.
  induction l as [|c l IH].
  - change ("" +:+ rest) with rest. cbn [String.length Nat.add].
    by destruct (String.index n "@" rest).
  - change (String c l +:+ rest) with (String c (l +:+ rest)).
    cbn [String.length Nat.add String.index].
    rewrite IH. by destruct (String.index n "@" rest).
Qed.

Lemma substring_prefix (l rest : string) :
  String.substring 0 (String.length l) (l +:+ rest) = l.
Proof.
  induction l as [|c l IH].
  - change ("" +:+ rest) with rest. by destruct rest.
  - change (String c l +:+ rest) with (String c (l +:+ rest)).
    cbn [String.length String.substring]. by rewrite IH.
Qed.

Lemma substring_whole (s : string) (n : nat) :
  (String.length s <= n)%nat → String.substring 0 n s = s.
Proof.
  revert n. induction s as [|c s IH]; intros n Hn; simpl; [by destruct n|].
  destruct n; simpl in *; [lia|]. rewrite IH by lia. done.
Qed.

Lemma substring_suffix (l rest : string) (n : nat) :
  (String.length rest <= n)%nat →
  String.substring (String.length l) n (l +:+ rest) = rest.
Proof.
  intros Hn. induction l as [|c l IH].
  - change ("" +:+ rest) with rest. by apply substring_whole.
  - change (String c l +:+ rest) with (String c (l +:+ rest)).
    cbn [String.length String.substring]. exact IH.
Qed.

Lemma length_append (a b : string) :
  String.length (a +:+ b) = (String.length a + String.length b)%nat.
Proof.
  induction a as [|c a IH]; [done|].
  change (String c a +:+ b) with (String c (a +:+ b)).
  cbn [String.length Nat.add]. by rewrite IH.
Qed.

Lemma append_at_assoc (l d : string) : (l +:+ "@") +:+ d = l +:+ String "@" d.
Proof.
  induction l as [|c l IH]; [done|].
  change (String c ((l +:+ "@") +:+ d) = String c (l +:+ String "@" d)).
  by rewrite IH.
Qed.

Lemma afterAt_beforeAt (s : string) : Spec.afterAt (Spec.beforeAt s) = None.
Proof.
  induction s as [|c s IH]; simpl; [done|].
  destruct (Ascii.eqb c "@") eqn:Hc; simpl; [done|]. by rewrite Hc.
Qed.

Section FormatProperties.
Import Checker.
Variable config : EmailCheckerConfig.
Variable regexTest : bool → string → bool.

(** X21: an address accepted by [validateEmailFormat] has exactly one
    "@", with a non-empty local part of at most 64 characters before it
    and a non-empty domain of at most 253 characters after it, and
    passes the regular expression of the configured strictness;
    [parseEmail] then returns exactly that local part and the
    lower-cased domain, so the two put back around "@" spell the
    address. *)
Theorem format_accepted_parses_back (e : string) :
  validateEmailFormat config regexTest e = None →
  ∃ l d,
    e = l +:+ String "@" d ∧
    l ≠ "" ∧ d ≠ "" ∧ Spec.afterAt l = None ∧ Spec.afterAt d = None ∧
    (String.length l <= 64)%nat ∧ (String.length d <= 253)%nat ∧
    (String.length e <= 254)%nat ∧
    regexTest (strictValidation config) e = true ∧
    parseEmail e = (l, Js.toLowerCase d).
Proof.
  unfold validateEmailFormat, parseEmail, indexOfAt.
  destruct (254 <? String.length e)%nat eqn:Hlen; [done|].
  apply Nat.ltb_ge in Hlen.
  rewrite index_at_first.
  destruct (Spec.afterAt e) as [d|] eqn:Hafter; [|done].
  pose proof (afterAt_beforeAt e) as Hlat.
  pose proof (beforeAt_afterAt _ _ Hafter) as He.
  revert Hlat He. generalize (Spec.beforeAt e). intros l Hlat He.
  assert (Hle : String.length e = (String.length l + S (String.length d))%nat)
    by (by rewrite He, length_append).
  destruct ((String.length l =? 0)%nat || (S (String.length l) =? String.length e)%nat)
    eqn:Hends; [done|].
  apply orb_false_iff in Hends as [Hl Hd].
  apply Nat.eqb_neq in Hl, Hd.
  assert (Hsecond : String.index (String.length l + 1) "@" e =
                    (fun k => (String.length l + k)%nat) <$>
                      (S <$> String.index 0 "@" d)).
  { rewrite He, index_at_skip. cbn [String.index].
    by destruct (String.index 0 "@" d). }
  rewrite Hsecond, index_at_first.
  destruct (Spec.afterAt d) eqn:Hd2; cbn [fmap option_fmap option_map].
  { rewrite bool_decide_eq_true_2 by eauto. done. }
  rewrite bool_decide_eq_false_2 by (intros [? ?]; done).
  assert (Hsub1 : String.substring 0 (String.length l) e = l)
    by (rewrite He; apply substring_prefix).
  assert (Hsub2 : String.substring (String.length l + 1) (String.length e) e = d).
  { rewrite Hle, He, <- append_at_assoc.
    replace (String.length l + 1)%nat with (String.length (l +:+ "@"))
      by (rewrite length_append; simpl; lia).
    apply substring_suffix. lia. }
  rewrite Hsub1, Hsub2.
  destruct (64 <? String.length l)%nat eqn:H64; [done|].
  destruct (253 <? String.length d)%nat eqn:H253; [done|].
  destruct (regexTest (strictValidation config) e) eqn:Hre; [|done].
  intros _. apply Nat.ltb_ge in H64, H253.
  exists l, d. split_and!; try done.
  - intros Hl0. by rewrite Hl0 in Hl.
  - intros Hd0. rewrite Hd0 in Hle. simpl in Hle. lia.
Qed.
End FormatProperties.

(** ** Failures of the cache *)

Section CacheFailureProperties.
Import Checker.
Variable config : EmailCheckerConfig.
Variable regexTest : bool → string → bool.
Variable checkAllowlist : string → bool.
Variables checkBlacklist checkDisposableDomain : string → MatchResult.
Variable RegExp : Type.
Variable customPatterns : list RegExp.
Variable analyzePatterns : string → string → string → list RegExp → Z * list string.
Variable validateMxRecord : string → Settled Dns.DnsValidationResult.
Variable simpleMxCheck : string → Settled bool.
Variable validateSmtpDeliverability :
  string → option (list MxRecord) → Settled Smtp.SmtpValidationResult.
Variables startTime now : Z.
Variable emailPatternTest : string → bool.
Variable cacheGet : string → Settled (option EmailValidationResult).
Variable cacheSet : string → EmailValidationResult → Settled unit.
Variable updateMetrics : EmailValidationResult → Settled unit.

Lemma errorResult_report normalizedEmail message pool :
  Spec.failureReport (now - startTime) normalizedEmail message
    (fst (fst (errorResult startTime now normalizedEmail message pool))).
Proof. unfold errorResult, Spec.failureReport. by destruct pool. Qed.

(** X22: with caching on, a cache that rejects the read, or that misses
    and then rejects the write, makes [checkEmail] return the report of
    its [catch] block whatever the pipeline found: the address is
    reported not valid and not disposable, with confidence 0 and no
    domain, and the rejection message is the only error. *)
Theorem checker_cache_failure_discards_verdict (e message : string)
    (pool : list EmailValidationResult) :
  let normalizedEmail := Js.trim (Js.toLowerCase e) in
  let out := checkEmail config regexTest checkAllowlist checkBlacklist
               checkDisposableDomain RegExp customPatterns analyzePatterns
               validateMxRecord simpleMxCheck validateSmtpDeliverability startTime
               now emailPatternTest cacheGet cacheSet updateMetrics e pool in
  emailPatternTest normalizedEmail = true →
  enableCaching config = true →
  cacheGet normalizedEmail = RejectedWith message ∨
  (cacheGet normalizedEmail = Fulfilled None ∧
   ∀ computed, cacheSet normalizedEmail computed = RejectedWith message) →
  Spec.failureReport (now - startTime) normalizedEmail message (fst (fst out)).
Proof.
  intros normalizedEmail out Hpat Hen Hcache. subst out.
  unfold checkEmail. fold normalizedEmail. rewrite Hpat, Hen. simpl.
  destruct Hcache as [Hget | [Hget Hset]]; rewrite Hget.
  - apply errorResult_report.
  - unfold checkUncached.
    destruct (performEmailCheck _ _ _ _ _ _ _ _ _ _ _ _ _ _ _) as [[result stages] pool'].
    rewrite Hen, Hset. apply errorResult_report.
Qed.
End CacheFailureProperties.

(** ** Instances of the conditional properties *)

(** The handshake theorem applied to a server that accepts the
    recipient: its five replies are the ones the theorem names. *)
Lemma smtp_success_needs_handshake_witness :
  Smtp.conn_isValid
    (Smtp.runDialogue Smtp.defaultConfig "mx.example.com" "bob@example.com"
       Smtp.initialDialogue Scenario.acceptsRecipient) = true ∧
  ∃ g h m r q rest,
    Spec.replies Scenario.acceptsRecipient = g :: h :: m :: r :: q :: rest ∧
    Js.strictEq (Spec.replyCode g) 220 = true ∧
    Js.strictEq (Spec.replyCode h) 250 = true ∧
    Js.strictEq (Spec.replyCode m) 250 = true ∧
    Smtp.runDialogue Smtp.defaultConfig "mx.example.com" "bob@example.com"
      Smtp.initialDialogue Scenario.acceptsRecipient =
    {| Smtp.conn_isValid := true;
       Smtp.conn_isDeliverable := Some (Js.strictEq (Spec.replyCode r) 250);
       Smtp.conn_mxRecord := Some "mx.example.com";
       Smtp.conn_responseCode := Some (Spec.replyCode q);
       Smtp.conn_responseMessage := Some (Js.trim q); Smtp.conn_error := None |}.
Proof.
  refine (conj eq_refl _).
  exact (smtp_success_needs_handshake Smtp.defaultConfig "mx.example.com"
           "bob@example.com" Scenario.acceptsRecipient eq_refl).
Defined.

(** The first-success theorem applied to two exchangers of which the
    first refuses [HELO]: with the default port the second one is
    reported; with port 70000 nothing is contacted and both attempts
    are reported as errors. *)
Lemma smtp_first_success_wins_witness :
  let r := fst (Smtp.validateEmail Smtp.defaultConfig Scenario.twoServerNet 0 1
                  "bob@example.com" (Some Scenario.twoServers)) in
  let r' := fst (Smtp.validateEmail Scenario.badPortConfig Scenario.twoServerNet 0 1
                   "bob@example.com" (Some Scenario.twoServers)) in
  Spec.splitsAroundAt "bob@example.com" = true ∧
  Smtp.email r = "bob@example.com" ∧ Smtp.domain r = "example.com" ∧
  Smtp.errors r = [] ∧ Smtp.isValid r = true ∧
  Smtp.mxRecord r = Some "mx2.example.com" ∧
  Smtp.validPort (Smtp.port Scenario.badPortConfig) = false ∧
  length (Smtp.errors r') = 2%nat ∧ Smtp.warnings r' = [] ∧ Smtp.isValid r' = false.
Proof.
  intros r r'.
  assert (Hfmt : Spec.splitsAroundAt "bob@example.com" = true) by reflexivity.
  destruct (smtp_first_success_wins Smtp.defaultConfig Scenario.twoServerNet 0 1
              "bob@example.com" (Some Scenario.twoServers) Hfmt)
    as (Hemail & Hdomain & _ & Herrors & _ & Hfound).
  cbv in Hfound. destruct Hfound as (Hvalid & Hmx & _).
  destruct (smtp_first_success_wins Scenario.badPortConfig Scenario.twoServerNet 0 1
              "bob@example.com" (Some Scenario.twoServers) Hfmt)
    as (_ & _ & _ & Herrors' & Hwarnings' & Hvalid' & _).
  refine (conj Hfmt (conj Hemail (conj Hdomain (conj Herrors (conj Hvalid
           (conj Hmx (conj eq_refl (conj _ (conj Hwarnings' Hvalid'))))))))).
  subst r'. rewrite Herrors'. reflexivity.
Defined.

(** The bounds theorem applied to a full cache of two entries: the
    write evicts the oldest entry and the cache still holds two. *)
Lemma dns_cache_set_keeps_bounds_witness :
  let m' := Dns.setCachedResult Scenario.smallCache Scenario.twoEntries
              "mx:c.test" true None 60 in
  NoDup (map fst Scenario.twoEntries) ∧
  Forall (fun k => k ≠ "") (map fst Scenario.twoEntries) ∧
  Z.of_nat (length Scenario.twoEntries) <= Dns.cacheSize Scenario.smallCache ∧
  NoDup (map fst m') ∧ Forall (fun k => k ≠ "") (map fst m') ∧
  Z.of_nat (length m') <= Dns.cacheSize Scenario.smallCache ∧
  "mx:c.test" ∈ map fst m'.
Proof.
  intros m'.
  assert (Hnd : NoDup (map fst Scenario.twoEntries)).
  { simpl. apply NoDup_cons. split; [|apply NoDup_singleton].
    intros Hin. apply list_elem_of_singleton in Hin. discriminate Hin. }
  assert (Hne : Forall (fun k => k ≠ "") (map fst Scenario.twoEntries)).
  { simpl. repeat constructor; discriminate. }
  assert (Hkey : "mx:c.test" ≠ "") by discriminate.
  assert (Hsize : 1 <= Dns.cacheSize Scenario.smallCache) by (simpl; lia).
  assert (Hlen : Z.of_nat (length Scenario.twoEntries)
                 <= Dns.cacheSize Scenario.smallCache) by (simpl; lia).
  exact (conj Hnd (conj Hne (conj Hlen
           (dns_cache_set_keeps_bounds Scenario.smallCache Scenario.twoEntries
              "mx:c.test" true None 60 Hnd Hne Hkey Hsize Hlen)))).
Defined.

(** The frame theorem applied to the same write, read back at the key
    that is not the oldest one. *)
Lemma dns_cache_set_frame_witness :
  let m' := Dns.setCachedResult Scenario.smallCache Scenario.twoEntries
              "mx:c.test" true None 60 in
  "mx:b.test" ≠ "mx:c.test" ∧
  Dns.mapGet m' "mx:b.test" = Dns.mapGet Scenario.twoEntries "mx:b.test".
Proof.
  intros m'.
  assert (Hne : "mx:b.test" ≠ "mx:c.test") by discriminate.
  pose proof (dns_cache_set_frame Scenario.smallCache Scenario.twoEntries
                "mx:c.test" "mx:b.test" true None 60 Hne) as Hframe.
  cbv in Hframe. exact (conj Hne Hframe).
Defined.

(** The cleanup theorem applied to a sweep at time 120, which removes
    the entry written at time 0, and a read at time 130. *)
Lemma dns_cleanup_preserves_reads_witness :
  NoDup (map fst Scenario.twoEntries) ∧ 120 <= 130 ∧
  fst (Dns.getCachedResult (Dns.cleanupCache Scenario.twoEntries 120) "mx:a.test" 130) =
    fst (Dns.getCachedResult Scenario.twoEntries "mx:a.test" 130) ∧
  ∀ k e, (k, e) ∈ Dns.cleanupCache Scenario.twoEntries 120 →
         (k, e) ∈ Scenario.twoEntries ∧ 120 - Dns.timestamp e <= Dns.ttl e.
Proof.
  assert (Hnd : NoDup (map fst Scenario.twoEntries)).
  { simpl. apply NoDup_cons. split; [|apply NoDup_singleton].
    intros Hin. apply list_elem_of_singleton in Hin. discriminate Hin. }
  assert (Hle : 120 <= 130) by lia.
  exact (conj Hnd (conj Hle
           (dns_cleanup_preserves_reads Scenario.twoEntries "mx:a.test" 120 130
              Hnd Hle))).
Defined.

(** The conservation theorem applied to three operations offered to a
    gate of width two. *)
Lemma gate_conserves_operations_witness :
  NoDup (Spec.submitted Scenario.gateEvents) ∧
  ∃ s, Gate.run 2 Gate.initial Scenario.gateEvents = Some s ∧
       Spec.submitted Scenario.gateEvents ≡ₚ
         Gate.requestQueue s ++ Gate.immediates s ++ Gate.admitted s ++
         Gate.dequeued s ++ Gate.settled s ∧
       Gate.activeRequests s = Z.of_nat (length (Gate.admitted s)) ∧
       Z.of_nat (length (Gate.admitted s)) <= Z.max 0 2.
Proof.
  assert (Hnd : NoDup (Spec.submitted Scenario.gateEvents)).
  { cbv. repeat (apply NoDup_cons; split; [|]); try apply NoDup_nil_2;
      rewrite ?elem_of_cons, ?elem_of_nil; lia. }
  refine (conj Hnd (ex_intro _ _ (conj eq_refl _))).
  exact (gate_conserves_operations 2 Scenario.gateEvents _ Hnd eq_refl).
Defined.

(** The missing-exchanger floor applied to a well-formed address whose
    domain has no MX record. *)
Lemma checker_missing_mx_floor_witness :
  let r := fst (fst (Scenario.probeScenario "bob@nomx.test")) in
  Checker.validateEmailFormat Scenario.probingConfig (fun _ _ => true)
    "bob@nomx.test" = None ∧
  Checker.checkMxRecord Scenario.probingConfig = true ∧
  Checker.needsAdvancedValidation Scenario.probingConfig = false ∧
  60 <= Checker.confidence r ∧
  "No MX record found for domain" ∈ Checker.warnings r.
Proof.
  intros r. do 3 (refine (conj eq_refl _)).
  exact (checker_missing_mx_floor Scenario.probingConfig (fun _ _ => true)
           (fun _ => false) (fun _ => Scenario.noMatch) (fun _ => Scenario.noMatch)
           unit [] (fun _ _ _ _ => (0, []))
           (fun _ => RejectedWith "unused") (fun _ => Fulfilled false)
           Scenario.unconfirmed 0 3 "bob@nomx.test"
           eq_refl eq_refl eq_refl eq_refl).
Defined.

(** The undeliverable floor applied to the same address, whose mailbox
    the probe does not confirm. *)
Lemma checker_undeliverable_floor_witness :
  let r := fst (fst (Scenario.probeScenario "bob@nomx.test")) in
  Checker.checkSmtpDeliverability Scenario.probingConfig = true ∧
  (∀ mx, ∃ smtpResult,
     Scenario.unconfirmed "bob@nomx.test" mx = Fulfilled smtpResult ∧
     Smtp.isMailboxValid smtpResult = false) ∧
  70 <= Checker.confidence r ∧
  "Email address does not appear to be deliverable" ∈ Checker.warnings r ∧
  Checker.smtp_isDeliverable <$> Checker.smtpValidation r = Some false.
Proof.
  intros r.
  assert (Hprobe : ∀ mx, ∃ smtpResult,
            Scenario.unconfirmed "bob@nomx.test" mx = Fulfilled smtpResult ∧
            Smtp.isMailboxValid smtpResult = false).
  { intros mx. exact (ex_intro _ _ (conj eq_refl eq_refl)). }
  refine (conj eq_refl (conj Hprobe _)).
  exact (checker_undeliverable_floor Scenario.probingConfig (fun _ _ => true)
           (fun _ => false) (fun _ => Scenario.noMatch) (fun _ => Scenario.noMatch)
           unit [] (fun _ _ _ _ => (0, []))
           (fun _ => RejectedWith "unused") (fun _ => Fulfilled false)
           Scenario.unconfirmed 0 3 "bob@nomx.test"
           eq_refl eq_refl eq_refl Hprobe).
Defined.

(** The range theorem applied to collaborators that report confidence 0. *)
Lemma checker_confidence_range_witness :
  (∀ d : string, 0 <= Checker.match_confidence Scenario.noMatch <= 100) ∧
  0 <= Checker.confidence (fst (fst (Scenario.probeScenario "bob@nomx.test"))) <= 100.
Proof.
  assert (Hmatch : ∀ d : string, 0 <= Checker.match_confidence Scenario.noMatch <= 100)
    by (intros _; simpl; lia).
  refine (conj Hmatch _).
  refine (checker_confidence_range Scenario.probingConfig (fun _ _ => true)
            (fun _ => false) (fun _ => Scenario.noMatch) (fun _ => Scenario.noMatch)
            unit [] (fun _ _ _ _ => (0, []))
            (fun _ => RejectedWith "unused") (fun _ => Fulfilled false)
            Scenario.unconfirmed 0 3 "bob@nomx.test" Hmatch Hmatch _).
  intros a l d. simpl. lia.
Defined.

(** The theorem on the exchanger list applied to the plain MX lookup:
    the probe is called without a list. *)
Lemma checker_smtp_without_mx_list_witness :
  Checker.checkMxRecord Scenario.probingConfig
    && Checker.needsAdvancedValidation Scenario.probingConfig = false ∧
  Scenario.probeScenario "bob@nomx.test" =
  Checker.performEmailCheck Scenario.probingConfig (fun _ _ => true)
    (fun _ => false) (fun _ => Scenario.noMatch) (fun _ => Scenario.noMatch)
    unit [] (fun _ _ _ _ => (0, []))
    (fun _ => RejectedWith "unused") (fun _ => Fulfilled false)
    (fun address _ => Scenario.unconfirmed address None) 0 3 "bob@nomx.test"
    Checker.resultPool.
Proof.
  refine (conj eq_refl _).
  exact (checker_smtp_without_mx_list Scenario.probingConfig (fun _ _ => true)
           (fun _ => false) (fun _ => Scenario.noMatch) (fun _ => Scenario.noMatch)
           unit [] (fun _ _ _ _ => (0, []))
           (fun _ => RejectedWith "unused") (fun _ => Fulfilled false)
           Scenario.unconfirmed 0 3 "bob@nomx.test" eq_refl).
Defined.

(** The format theorem applied to an accepted address. *)
Lemma format_accepted_parses_back_witness :
  Checker.validateEmailFormat Scenario.checkerConfig (fun _ _ => true)
    "alice@example.com" = None ∧
  ∃ l d,
    "alice@example.com" = l +:+ String "@" d ∧
    l ≠ "" ∧ d ≠ "" ∧ Spec.afterAt l = None ∧ Spec.afterAt d = None ∧
    (String.length l <= 64)%nat ∧ (String.length d <= 253)%nat ∧
    (String.length "alice@example.com" <= 254)%nat ∧
    true = true ∧
    Checker.parseEmail "alice@example.com" = (l, Js.toLowerCase d).
Proof.
  refine (conj eq_refl _).
  exact (format_accepted_parses_back Scenario.checkerConfig (fun _ _ => true)
           "alice@example.com" eq_refl).
Defined.

(** The cache-failure theorem applied to an allowlisted address and a
    cache whose writes fail: the address is reported as not valid. *)
Lemma checker_cache_failure_discards_verdict_witness :
  let n := Js.trim (Js.toLowerCase " Alice@Example.COM ") in
  let out := Scenario.failingCacheScenario " Alice@Example.COM " in
  n = "alice@example.com" ∧
  Checker.enableCaching Scenario.checkerConfig = true ∧
  Spec.failureReport (3 - 0) n "cache unavailable" (fst (fst out)).
Proof.
  intros n out. do 2 (refine (conj eq_refl _)).
  refine (checker_cache_failure_discards_verdict Scenario.checkerConfig
            (fun _ _ => true) (fun d => String.eqb d "example.com")
            (fun _ => Scenario.noMatch) (fun _ => Scenario.noMatch)
            unit [] (fun _ _ _ _ => (0, []))
            (fun _ => RejectedWith "unused") (fun _ => Fulfilled true)
            (fun _ _ => RejectedWith "unused") 0 3
            (fun _ => true) (fun _ => Fulfilled None)
            (fun _ _ => RejectedWith "cache unavailable")
            (fun _ => Fulfilled tt) " Alice@Example.COM " "cache unavailable"
            Checker.resultPool eq_refl eq_refl _).
  right. split; [reflexivity | intros; reflexivity].
Defined.
